(** * OHdio audiobook downloader: the extraction pipeline, embedded and verified

    A shallow embedding of the Python sources

    - [src/utils/file_utils.py]        ([sanitize_filename], [format_audiobook_filename],
                                        [get_safe_path], [extract_extension_from_url])
    - [src/utils/network_utils.py]     ([safe_request], [sync_request], [download_file],
                                        [RequestsSession._request])
    - [src/utils/config.py]
    - [src/scraper/playlist_extractor.py]
    - [src/scraper/audiobook_scraper.py]
    - [src/scraper/category_scraper.py] (archived copy)
    - [src/downloader/ytdlp_downloader.py] ([download_audiobook])
    - [src/downloader/metadata_manager.py] (the ID3 frames)
    - [src/main.py]

    Python [str] values are sequences of Unicode code points.  Library
    calls whose behaviour depends on Unicode tables, on an HTML parser or
    on the network are taken as parameters of the functions that use them;
    everything the repository itself writes is translated statement by
    statement.  Exceptions are explicit: a computation that may raise
    returns a [res]. *)

From stdpp Require Import base option list gmap strings pretty.
From Stdlib Require Import ZArith NArith QArith Lia.

Open Scope Z_scope.

(* ================================================================== *)
(** * Python values *)
(* ================================================================== *)

Module Py.

(** A Python [str]: the list of its code points. *)
Definition pystr : Type := list N.

(** An ASCII literal, read as code points. *)
Definition u (s : string) : pystr := List.map Ascii.N_of_ascii (String.list_ascii_of_string s).

Definition is_ascii (c : N) : Prop := (c < 128)%N.

(** The double quote, which a literal cannot contain. *)
Definition dq : pystr := [34%N].
(** U+00C9, U+00C0, U+00FF: the accented letters of the author patterns. *)
Definition E_acute : pystr := [201%N].
Definition A_grave : pystr := [192%N].
Definition y_diaeresis : pystr := [255%N].

(** Exceptions, all of them subclasses of [Exception]. *)
Inductive exn : Type :=
| TypeError | AttributeError | KeyError | ValueError | OverflowError
| OSError
| RequestException | JSONDecodeError
| NetworkError | RateLimitError
| OtherError.

(** The outcome of a computation that may raise. *)
Inductive res (A : Type) : Type :=
| Ok (a : A)
| Raise (e : exn).
Arguments Ok {A} a.
Arguments Raise {A} e.

Definition bind {A B} (m : res A) (k : A → res B) : res B :=
  match m with Ok a => k a | Raise e => Raise e end.

(** [try: m  except Exception: h] *)
Definition try_except {A} (m : res A) (h : exn → res A) : res A :=
  match m with Ok a => Ok a | Raise e => h e end.

(** Truth value of a string and of an optional string ([None] and the
    empty string are false). *)
Definition truthy_str (s : pystr) : bool :=
  match s with [] => false | _ => true end.
Definition truthy (o : option pystr) : bool :=
  match o with Some s => truthy_str s | None => false end.

Definition len (s : pystr) : Z := Z.of_nat (length s).

(** [c.isspace()], which is also the set [str.strip()] and [str.split()]
    use when called without argument. *)
Definition is_space (c : N) : bool :=
  ((9 <=? c) && (c <=? 13) || (28 <=? c) && (c <=? 32)
   || (c =? 133) || (c =? 160) || (c =? 5760)
   || (8192 <=? c) && (c <=? 8202)
   || (c =? 8232) || (c =? 8233) || (c =? 8239) || (c =? 8287)
   || (c =? 12288))%N.

Fixpoint lstrip (p : N → bool) (s : pystr) : pystr :=
  match s with
  | [] => []
  | c :: r => if p c then lstrip p r else s
  end.

Fixpoint rstrip (p : N → bool) (s : pystr) : pystr :=
  match s with
  | [] => []
  | c :: r =>
      match rstrip p r with
      | [] => if p c then [] else [c]
      | r' => c :: r'
      end
  end.

(** [s.strip(chars)] with [p] the membership test of [chars]. *)
Definition strip_chars (p : N → bool) (s : pystr) : pystr := rstrip p (lstrip p s).

(** [s.strip()] *)
Definition strip (s : pystr) : pystr := strip_chars is_space s.

Fixpoint startswith (s pre : pystr) : bool :=
  match pre, s with
  | [], _ => true
  | p :: pre', c :: s' => (c =? p)%N && startswith s' pre'
  | _ :: _, [] => false
  end.

(** [s.endswith(suf)] *)
Definition endswith (s suf : pystr) : bool := startswith (rev s) (rev suf).

(** [sub in s] for strings. *)
Fixpoint contains (s sub : pystr) : bool :=
  startswith s sub ||
  match s with
  | [] => false
  | _ :: r => contains r sub
  end.

(** [s[:k]] for an integer [k] of either sign. *)
Definition slice_to (s : pystr) (k : Z) : pystr :=
  if 0 <=? k then take (Z.to_nat k) s else take (Z.to_nat (len s + k)) s.

(** [s[k:]] for [k >= 0]. *)
Definition slice_from (s : pystr) (k : nat) : pystr := drop k s.

(** [s.rsplit(sep, 1)] for a one-character separator: [None] when the
    separator does not occur (the result has one part), otherwise the
    text before and after its last occurrence. *)
Fixpoint rsplit1 (sep : N) (s : pystr) : option (pystr * pystr) :=
  match s with
  | [] => None
  | c :: r =>
      match rsplit1 sep r with
      | Some (a, b) => Some (c :: a, b)
      | None => if (c =? sep)%N then Some ([], r) else None
      end
  end.

(** [s.split(sep, 1)[1]] when [sep] occurs in [s]: the text after the
    first occurrence. *)
Fixpoint after_first (s sep : pystr) : option pystr :=
  if startswith s sep then Some (drop (length sep) s)
  else match s with
       | [] => None
       | _ :: r => after_first r sep
       end.

(** [s.split()]: the maximal runs of non-space characters. *)
Fixpoint split_ws_aux (cur : pystr) (s : pystr) : list pystr :=
  match s with
  | [] => match cur with [] => [] | _ => [rev cur] end
  | c :: r =>
      if is_space c
      then match cur with
           | [] => split_ws_aux [] r
           | _ => rev cur :: split_ws_aux [] r
           end
      else split_ws_aux (c :: cur) r
  end.
Definition split_ws (s : pystr) : list pystr := split_ws_aux [] s.

(** [s.split(c)] for a one-character separator. *)
Fixpoint split_char_aux (sep : N) (cur : pystr) (s : pystr) : list pystr :=
  match s with
  | [] => [rev cur]
  | c :: r =>
      if (c =? sep)%N then rev cur :: split_char_aux sep [] r
      else split_char_aux sep (c :: cur) r
  end.
Definition split_char (sep : N) (s : pystr) : list pystr := split_char_aux sep [] s.

(** [sep.join(parts)] *)
Fixpoint join (sep : pystr) (parts : list pystr) : pystr :=
  match parts with
  | [] => []
  | [p] => p
  | p :: rest => p ++ sep ++ join sep rest
  end.

End Py.
Import Py.

(* ================================================================== *)
(** * [src/utils/file_utils.py] *)
(* ================================================================== *)

Module FileUtils.
Section file_utils.

(** [unicodedata.normalize('NFKD', ·)] *)
Variable nfkd : pystr → pystr.

(** The class of the nine characters  < > : double-quote | ? * backslash /  *)
Definition invalid_char (c : N) : bool :=
  ((c =? 60) || (c =? 62) || (c =? 58) || (c =? 34) || (c =? 124)
   || (c =? 63) || (c =? 42) || (c =? 92) || (c =? 47))%N.

(** [[\x00-\x1f\x7f-\x9f]] *)
Definition control_char (c : N) : bool :=
  ((c <=? 31) || (127 <=? c) && (c <=? 159))%N.

(** [[ _]] *)
Definition space_or_underscore (c : N) : bool := ((c =? 32) || (c =? 95))%N.

(** The characters of [' .'] *)
Definition space_or_dot (c : N) : bool := ((c =? 32) || (c =? 46))%N.

(** [re.sub(invalid_chars, '_', filename)] *)
Definition replace_invalid (s : pystr) : pystr :=
  List.map (λ c, if invalid_char c then 95%N else c) s.

(** [re.sub(r'[\x00-\x1f\x7f-\x9f]', '', filename)] *)
Definition remove_control (s : pystr) : pystr :=
  List.filter (λ c, negb (control_char c)) s.

(** [re.sub(r'[ _]+', '_', filename)]: every maximal run of spaces and
    underscores, of length one or more, becomes one underscore.
    [in_run] tells that the previous character belonged to a run. *)
Fixpoint collapse_runs (in_run : bool) (s : pystr) : pystr :=
  match s with
  | [] => []
  | c :: r =>
      if space_or_underscore c
      then if in_run then collapse_runs true r
           else 95%N :: collapse_runs true r
      else c :: collapse_runs false r
  end.

(** The truncation branch, taken when [len(filename) > max_length]. *)
Definition truncate (filename : pystr) (max_length : Z) : pystr :=
  match rsplit1 46 filename with
  | Some (name, ext) =>
      if len ext <=? 10
      then slice_to name (max_length - len ext - 1) ++ u "." ++ ext
      else slice_to filename max_length
  | None => slice_to filename max_length
  end.

Definition sanitize_filename (filename : pystr) (max_length : Z) : pystr :=
  let filename := nfkd filename in
  let filename := replace_invalid filename in
  let filename := remove_control filename in
  let filename := collapse_runs false filename in
  let filename := strip_chars space_or_dot filename in
  let filename := if truthy_str filename then filename else u "untitled" in
  if len filename >? max_length then truncate filename max_length else filename.

Definition format_audiobook_filename (title author extension : pystr) : pystr :=
  let title := strip title in
  let author := strip author in
  let title := if truthy_str title then title else u "Unknown Title" in
  let author := if truthy_str author then author else u "Unknown Author" in
  let filename := author ++ u " - " ++ title ++ u "." ++ extension in
  sanitize_filename filename 255.

(** [YtDlpDownloader._generate_filename] *)
Definition _generate_filename (title author : pystr) : pystr :=
  format_audiobook_filename title author (u "mp3").

End file_utils.

(** NFKD on strings made of ASCII characters and of the two combining
    marks U+0301 (combining class 230) and U+0323 (combining class 220):
    none of these characters decomposes, so normalisation only puts each
    run of marks in canonical order, which for two marks means that
    U+0323 comes before an adjacent U+0301. *)
Definition combining_class (c : N) : N :=
  if (c =? 769)%N then 230%N else if (c =? 803)%N then 220%N else 0%N.

Fixpoint insert_mark (m : N) (run : pystr) : pystr :=
  match run with
  | [] => [m]
  | c :: r =>
      if (combining_class c =? 0)%N then m :: run
      else if (combining_class m <=? combining_class c)%N then m :: run
      else c :: insert_mark m r
  end.

Fixpoint nfkd_marks (s : pystr) : pystr :=
  match s with
  | [] => []
  | c :: r =>
      if (combining_class c =? 0)%N then c :: nfkd_marks r
      else insert_mark c (nfkd_marks r)
  end.

End FileUtils.
Import FileUtils.

(* ================================================================== *)
(** * [src/utils/network_utils.py] *)
(* ================================================================== *)

Module NetworkUtils.

(** What one [session.request] produces: a response, of which the code
    reads the status, the [Retry-After] header and the body; one of the
    two exceptions the loop catches; or an exception it lets through.
    The header is absent ([None]), present and accepted by [float]
    ([Some (Some q)]), or present and rejected by [float] ([Some None]). *)
Inductive Reply : Type :=
| HttpResponse (status : Z) (retry_after : option (option Q)) (text : pystr)
| ClientError
| TimeoutError
| Uncaught (e : exn).

(** What the function does to the outside: requests and sleeps, in order. *)
Inductive Event : Type :=
| Request
| Sleep (seconds : Q).

(** The largest finite float, [sys.float_info.max]. *)
Definition float_max : Q := inject_Z (2 ^ 1024 - 2 ^ 971).

Section safe_request.

(** The reply to the request of each attempt. *)
Variable server : nat → Reply.
Variable max_retries : Z.
(** [delay], a finite float. *)
Variable delay : Q.

(** [delay * (2 ** attempt)] for a float [delay].  The int
    [2 ** attempt] is converted to a float for the product, and from
    [2 ** 1024] on that conversion raises [OverflowError].  Below, the
    value is the exact rational: the floating-point product by a power
    of two is that number as long as it is not beyond [float_max]. *)
Definition backoff (attempt : nat) : res Q :=
  if Z.of_nat attempt <? 1024
  then Ok (delay * inject_Z (2 ^ Z.of_nat attempt))%Q
  else Raise OverflowError.

(** The body of [for attempt in range(max_retries + 1)], with [todo]
    iterations left, followed by the [return None] after the loop. *)
Fixpoint attempts (todo : nat) (attempt : nat) : res (option pystr) * list Event :=
  match todo with
  | O => (Ok None, [])
  | S todo' =>
      let continue := attempts todo' (S attempt) in
      let sleep_and_continue (seconds : Q) :=
        (continue.1, Sleep seconds :: continue.2) in
      (* [await asyncio.sleep(delay * (2 ** attempt))] and [continue] *)
      let back_off_and_continue :=
        match backoff attempt with
        | Ok seconds => sleep_and_continue seconds
        | Raise e => (Raise e, [])
        end in
      let '(r, tr) :=
        match server attempt with
        | HttpResponse status retry_after text =>
            if status =? 200 then (Ok (Some text), [])
            else if status =? 429 then
              (* the default of [headers.get] is computed first *)
              match backoff attempt with
              | Raise e => (Raise e, [])
              | Ok default_wait =>
                  match default (Some default_wait) retry_after with
                  | None => (Raise ValueError, [])
                  | Some wait_time =>
                      if Z.of_nat attempt <? max_retries
                      then sleep_and_continue wait_time
                      else (Raise RateLimitError, [])
                  end
              end
            else if status >=? 500 then
              if Z.of_nat attempt <? max_retries
              then back_off_and_continue
              else (Raise NetworkError, [])
            else if status =? 404 then (Ok None, [])
            else if status >=? 400 then (Ok None, [])
            else continue
        | ClientError | TimeoutError =>
            if Z.of_nat attempt <? max_retries
            then back_off_and_continue
            else (Raise NetworkError, [])
        | Uncaught e => (Raise e, [])
        end in
      (r, Request :: tr)
  end.

Definition safe_request : res (option pystr) * list Event :=
  attempts (Z.to_nat (max_retries + 1)) 0.

End safe_request.

(** Number of requests issued, and the sleeps in order. *)
Definition requests (tr : list Event) : nat :=
  length (List.filter (λ e, match e with Request => true | _ => false end) tr).

Definition sleeps (tr : list Event) : list Q :=
  omap (λ e, match e with Sleep q => Some q | _ => None end) tr.

End NetworkUtils.
Import NetworkUtils.

(* ================================================================== *)
(** * JSON values, as [response.json()] returns them *)
(* ================================================================== *)

Module Json.

(** A [dict] keeps its keys in insertion order: an association list. *)
#[warnings="-register-all"]
Inductive json : Type :=
| JNull
| JBool (b : bool)
| JInt (n : Z)
| JFloat (q : Q)
| JStr (s : pystr)
| JList (xs : list json)
| JDict (kvs : list (pystr * json)).

Definition pystr_eqb (a b : pystr) : bool := bool_decide (a = b).

Fixpoint assoc (key : pystr) (kvs : list (pystr * json)) : option json :=
  match kvs with
  | [] => None
  | (k, v) :: rest => if pystr_eqb k key then Some v else assoc key rest
  end.

(** [bool(x)] *)
Definition json_truthy (x : json) : bool :=
  match x with
  | JNull => false
  | JBool b => b
  | JInt n => negb (n =? 0)
  | JFloat q => negb (Qeq_bool q 0)
  | JStr s => truthy_str s
  | JList xs => match xs with [] => false | _ => true end
  | JDict kvs => match kvs with [] => false | _ => true end
  end.

(** [key in x] for a string [key]: key membership for a dict, element
    equality for a list, substring test for a string, [TypeError] for
    the values that are not containers. *)
Definition py_in (key : pystr) (x : json) : res bool :=
  match x with
  | JDict kvs => Ok (existsb (λ kv, pystr_eqb kv.1 key) kvs)
  | JList xs =>
      Ok (existsb (λ y, match y with JStr s => pystr_eqb s key | _ => false end) xs)
  | JStr s => Ok (contains s key)
  | _ => Raise TypeError
  end.

(** [x[key]] for a string [key] *)
Definition py_getitem (x : json) (key : pystr) : res json :=
  match x with
  | JDict kvs =>
      match assoc key kvs with
      | Some v => Ok v
      | None => Raise KeyError
      end
  | _ => Raise TypeError
  end.

(** The items [for item in x] visits. *)
Definition py_iter (x : json) : res (list json) :=
  match x with
  | JList xs => Ok xs
  | JDict kvs => Ok (List.map (λ kv, JStr kv.1) kvs)
  | JStr s => Ok (List.map (λ c, JStr [c]) s)
  | _ => Raise TypeError
  end.

End Json.
Import Json.

#[global] Instance res_ret : MRet res := λ A a, Ok a.
#[global] Instance res_bind : MBind res := λ A B k m, Py.bind m k.

(* ================================================================== *)
(** * The libraries the scrapers call *)
(* ================================================================== *)

Module Lib.

Inductive re_flags : Type := NoFlags | IGNORECASE.

(** A [bs4] tag, through the accessors the code uses. *)
Record Element : Type := {
  name : pystr;                    (* element.name *)
  get : pystr → option pystr;      (* element.get(attr) *)
  get_text_strip : pystr;          (* element.get_text(strip=True) *)
  string_ : option pystr;          (* element.string *)
}.

(** A parsed document, through the methods the code uses. *)
Record Soup : Type := {
  select_one : pystr → res (option Element);
  select : pystr → res (list Element);
  find_all : pystr → res (list Element);
  str_ : pystr;                    (* str(soup) *)
  get_text : pystr;                (* soup.get_text() *)
}.

(** Regular expressions, the Unicode-aware string methods and the HTML
    parser.  Patterns are passed as the source writes them. *)
Class Library : Type := {
  (* m.group(1) for m = re.search(pattern, text, flags), when m is not None *)
  re_search : re_flags → pystr → pystr → option pystr;
  (* re.findall(pattern, text, flags) for a pattern with one group *)
  re_findall : re_flags → pystr → pystr → list pystr;
  (* re.sub(pattern, repl, text) *)
  re_sub : pystr → pystr → pystr → pystr;
  str_lower : pystr → pystr;
  str_title : pystr → pystr;
  str_isupper : pystr → bool;
  str_isdigit : pystr → bool;
  (* (m.group(1), m.group(2)) for m = re.match(pattern, text, flags) *)
  re_match2 : re_flags → pystr → pystr → option (pystr * pystr);
  (* int(text) *)
  py_int : pystr → res Z;
  (* urljoin(base, url) *)
  urljoin : pystr → pystr → res pystr;
  (* BeautifulSoup(markup, 'html.parser') *)
  BeautifulSoup : pystr → res Soup;
}.

End Lib.
Import Lib.

(* ================================================================== *)
(** * [src/scraper/playlist_extractor.py] *)
(* ================================================================== *)

Module PlaylistExtractor.

Definition m3u8 : pystr := u ".m3u8".

(** [find_m3u8_recursive(obj)], the inner function of
    [get_playlist_from_api]; the [path] argument only feeds the log. *)
Fixpoint find_m3u8_recursive (obj : json) : option pystr :=
  match obj with
  | JDict kvs =>
      (fix items (kvs : list (pystr * json)) : option pystr :=
         match kvs with
         | [] => None
         | (key, value) :: rest =>
             match value with
             | JStr s => if endswith s m3u8 then Some s else items rest
             | JDict _ | JList _ =>
                 let result := find_m3u8_recursive value in
                 if truthy result then result else items rest
             | _ => items rest
             end
         end) kvs
  | JList xs =>
      (fix items (xs : list json) : option pystr :=
         match xs with
         | [] => None
         | item :: rest =>
             let result := find_m3u8_recursive item in
             if truthy result then result else items rest
         end) xs
  | _ => None
  end.

(** [if url and url.endswith('.m3u8'): return url] *)
Definition m3u8_url (url : json) : res (option pystr) :=
  if json_truthy url
  then match url with
       | JStr s => Ok (if endswith s m3u8 then Some s else None)
       | _ => Raise AttributeError
       end
  else Ok None.

(** [for result in data['validationResults']: ...] *)
Fixpoint validation_results (results : list json) : res (option pystr) :=
  match results with
  | [] => Ok None
  | result :: rest =>
      has_url ← py_in (u "url") result;
      if has_url : bool
      then url ← py_getitem result (u "url");
           found ← m3u8_url url;
           match found with
           | Some url => Ok (Some url)
           | None => validation_results rest
           end
      else validation_results rest
  end.

(** The search of the parsed response, lines 141 to 181: [Ok (Some url)]
    for each [return url], [Ok None] when the end is reached. *)
Definition search_response (data : json) : res (option pystr) :=
  has_url ← py_in (u "url") data;
  top ← (if has_url : bool
         then url ← py_getitem data (u "url"); m3u8_url url
         else Ok None);
  match top with
  | Some url => Ok (Some url)
  | None =>
      has_results ← py_in (u "validationResults") data;
      nested ← (if has_results : bool
                then results ← py_getitem data (u "validationResults");
                     items ← py_iter results;
                     validation_results items
                else Ok None);
      match nested with
      | Some url => Ok (Some url)
      | None =>
          let m3u8_url := find_m3u8_recursive data in
          if truthy m3u8_url then Ok m3u8_url else Ok None
      end
  end.

(** An HTTP response of the validation API: its status and what
    [response.json()] gives. *)
Record ApiResponse : Type := {
  status_code : Z;
  json_ : res json;
}.

(** [response.raise_for_status()] *)
Definition raise_for_status (response : ApiResponse) : res unit :=
  if (400 <=? status_code response) && (status_code response <? 600)
  then Raise RequestException
  else Ok ().

Section playlist_extractor.

Context `{Library}.

(** [self.session.get(self.api_base_url, params=api_params, timeout=10)]
    as a function of [idMedia], the one parameter that varies. *)
Variable session_get : pystr → res ApiResponse.

Definition quote_chars (c : N) : bool := ((c =? 34) || (c =? 39))%N.

Definition media_id_patterns : list pystr :=
  [ dq ++ u "mediaId" ++ dq ++ u "\s*:\s*" ++ dq ++ u "([^" ++ dq ++ u "]+)" ++ dq;
    dq ++ u "mediaId" ++ dq ++ u "\s*:\s*(\d+)";
    u "mediaId[" ++ dq ++ u "\']?\s*:\s*[" ++ dq ++ u "\']?([^" ++ dq ++ u ",\s}]+)";
    u "media-id[" ++ dq ++ u "\']?\s*:\s*[" ++ dq ++ u "\']?([^" ++ dq ++ u ",\s}]+)" ].

Definition data_selectors : list pystr :=
  [ u "[data-media-id]"; u "[data-mediaid]"; u "[data-id]";
    u ".media-player[data-id]"; u ".audio-player[data-id]";
    u ".listen-button[data-id]"; u ".play-button[data-id]" ].

Definition data_attrs : list pystr :=
  [ u "data-media-id"; u "data-mediaid"; u "data-id" ].

(** Method 1: the first pattern with a match gives the identifier. *)
Fixpoint media_id_by_pattern (html_content : pystr) (patterns : list pystr)
  : option pystr :=
  match patterns with
  | [] => None
  | pattern :: rest =>
      match re_findall IGNORECASE pattern html_content with
      | first :: _ => Some (strip_chars quote_chars first)
      | [] => media_id_by_pattern html_content rest
      end
  end.

(** Method 2, inside its [try]: the first all-digit value of a data
    attribute of an element some selector matches. *)
Fixpoint first_digit_attr (element : Element) (attrs : list pystr) : option pystr :=
  match attrs with
  | [] => None
  | attr :: rest =>
      match get element attr with
      | Some value =>
          if truthy_str value && str_isdigit value then Some value
          else first_digit_attr element rest
      | None => first_digit_attr element rest
      end
  end.

Fixpoint first_digit_element (elements : list Element) : option pystr :=
  match elements with
  | [] => None
  | element :: rest =>
      match first_digit_attr element data_attrs with
      | Some value => Some value
      | None => first_digit_element rest
      end
  end.

Fixpoint media_id_by_selector (soup : Soup) (selectors : list pystr)
  : res (option pystr) :=
  match selectors with
  | [] => Ok None
  | selector :: rest =>
      elements ← select soup selector;
      match first_digit_element elements with
      | Some value => Ok (Some value)
      | None => media_id_by_selector soup rest
      end
  end.

(** Method 3, inside its [try]: the first run of 7 or 8 digits in a
    script. *)
Fixpoint media_id_by_script (scripts : list Element) : option pystr :=
  match scripts with
  | [] => None
  | script :: rest =>
      match string_ script with
      | Some text =>
          if truthy_str text
          then match re_findall NoFlags (u "\b(\d{7,8})\b") text with
               | media_id :: _ => Some media_id
               | [] => media_id_by_script rest
               end
          else media_id_by_script rest
      | None => media_id_by_script rest
      end
  end.

Definition extract_media_id (html_content url : pystr) : res (option pystr) :=
  match media_id_by_pattern html_content media_id_patterns with
  | Some media_id => Ok (Some media_id)
  | None =>
      by_selector ← try_except
        (soup ← BeautifulSoup html_content;
         media_id_by_selector soup data_selectors)
        (λ _, Ok None);
      match by_selector with
      | Some value => Ok (Some value)
      | None =>
          by_script ← try_except
            (soup ← BeautifulSoup html_content;
             scripts ← find_all soup (u "script");
             Ok (media_id_by_script scripts))
            (λ _, Ok None);
          match by_script with
          | Some media_id => Ok (Some media_id)
          | None => Ok None
          end
      end
  end.

(** The [try] block of [get_playlist_from_api]. *)
Definition call_api (media_id : pystr) : res (option pystr) :=
  response ← session_get media_id;
  _ ← raise_for_status response;
  data ← json_ response;
  search_response data.

(** The three [except] clauses log and fall through to [return None]. *)
Definition get_playlist_from_api (media_id : pystr) : res (option pystr) :=
  try_except (call_api media_id) (λ _, Ok None).

Definition extract_playlist_url (html_content url : pystr) : res (option pystr) :=
  media_id ← extract_media_id html_content url;
  if truthy media_id
  then get_playlist_from_api (default [] media_id)
  else Ok None.

End playlist_extractor.

End PlaylistExtractor.
Import PlaylistExtractor.

(* ================================================================== *)
(** * [src/scraper/audiobook_scraper.py] *)
(* ================================================================== *)

Module AudiobookScraper.

Record AudiobookMetadata : Type := {
  title : pystr;
  author : pystr;
  url : pystr;
  playlist_url : option pystr;
  description : option pystr;
  duration : option pystr;
  publication_date : option pystr;
  genre : option pystr;
  language : pystr;
  thumbnail_url : option pystr;
  thumbnail_data : option (list N);
  isbn : option pystr;
  publisher : option pystr;
  narrator : option pystr;
  series : option pystr;
  series_number : option Z;
}.

Section audiobook_scraper.

Context `{Library}.

Variable session_get : pystr → res ApiResponse.
(** [_download_thumbnail], which catches every exception. *)
Variable _download_thumbnail : pystr → option (list N).
(** [safe_request(book_url, headers=..., max_retries=..., delay=...)] *)
Variable fetch_page : pystr → res (option pystr).

(** A selector between quotes inside brackets, as in
    [meta[property="og:title"]]. *)
Definition meta_selector (attribute value : string) : pystr :=
  u "meta[" ++ u attribute ++ u "=" ++ dq ++ u value ++ dq ++ u "]".

(** The loop over selectors that every extractor starts with: [pick] is
    the body of [if element:], which returns a value or goes on; an
    exception of [select_one] is logged and the next selector tried. *)
Fixpoint first_match {A} (soup : Soup) (pick : Element → option A)
    (selectors : list pystr) : option A :=
  match selectors with
  | [] => None
  | selector :: rest =>
      match select_one soup selector with
      | Ok (Some element) =>
          match pick element with
          | Some value => Some value
          | None => first_match soup pick rest
          end
      | Ok None | Raise _ => first_match soup pick rest
      end
  end.

(** The text a selector gives: the [content] attribute of a [meta]
    element, the stripped text of any other. *)
Definition element_value (element : Element) : option pystr :=
  if pystr_eqb (name element) (u "meta")
  then get element (u "content")
  else Some (get_text_strip element).

(** [if value: return value] *)
Definition non_empty (value : option pystr) : option pystr :=
  match value with
  | Some v => if truthy_str v then Some v else None
  | None => None
  end.

(** [a or b] for two optional strings. *)
Definition or_else (a b : option pystr) : option pystr :=
  if truthy a then a else b.

Definition title_selectors : list pystr :=
  [ u "h1"; u ".title"; u ".book-title"; u ".audiobook-title"; u "[data-title]";
    meta_selector "property" "og:title"; u "title" ].

Definition suffixes_to_remove : list pystr :=
  [ u " | ICI OHdio"; u " | Radio-Canada"; u " - OHdio"; u " - Radio-Canada";
    u " - Livre audio" ].

Definition _clean_title (title : pystr) : pystr :=
  strip (fold_left
           (λ title suffix,
              if endswith title suffix
              then slice_to title (- len suffix)
              else title)
           suffixes_to_remove title).

Definition prefixes_to_remove : list pystr :=
  [ u "par "; u "by "; u "de "; u "auteur: " ].

Fixpoint remove_first_prefix (author author_lower : pystr) (prefixes : list pystr)
  : pystr :=
  match prefixes with
  | [] => author
  | prefix :: rest =>
      if startswith author_lower prefix
      then slice_from author (length prefix)
      else remove_first_prefix author author_lower rest
  end.

Definition _clean_author (author : pystr) : pystr :=
  strip (remove_first_prefix author (str_lower author) prefixes_to_remove).

(** [if value and len(value) > min_len: value = clean(value);
     if value: return value] *)
Definition long_and_clean (min_len : Z) (clean : pystr → pystr) (element : Element)
  : option pystr :=
  match element_value element with
  | Some value =>
      if truthy_str value && (len value >? min_len)
      then non_empty (Some (clean value))
      else None
  | None => None
  end.

Definition _extract_title (soup : Soup) : option pystr :=
  first_match soup (long_and_clean 2 _clean_title) title_selectors.

Definition author_selectors : list pystr :=
  [ u ".author"; u ".book-author"; u ".by-author"; u "[data-author]";
    meta_selector "name" "author"; meta_selector "property" "book:author" ].

(** [([A-Z][a-zA-ZÀ-ÿ\s\-\']+?)] *)
Definition name_group : pystr :=
  u "([A-Z][a-zA-Z" ++ A_grave ++ u "-" ++ y_diaeresis ++ u "\s\-\']+?)".

Definition html_author_patterns : list pystr :=
  [ u ">" ++ E_acute ++ u "crit\s+par\s+" ++ name_group ++ u "<";
    u "class=" ++ dq ++ u "[^" ++ dq ++ u "]*animator[^" ++ dq ++ u "]*" ++ dq
      ++ u ">" ++ E_acute ++ u "crit\s+par\s+" ++ name_group ++ u "<" ].

Definition text_author_patterns : list pystr :=
  [ E_acute ++ u "crit\s+par\s+" ++ name_group ++ u "(?:\s|$)";
    u "auteur[:\s]+" ++ name_group ++ u "(?:\s|$)";
    u "by\s+" ++ name_group ++ u "(?:\s|$)";
    u "de\s+" ++ name_group ++ u "(?:\s|$)" ].

(** [[^\w\s\-\'À-ÿ]] *)
Definition junk_pattern : pystr :=
  u "[^\w\s\-\'" ++ A_grave ++ u "-" ++ y_diaeresis ++ u "]".

(** The clean-up both regular-expression stages apply to group 1. *)
Definition tidy_name (group1 : pystr) : pystr :=
  let author := strip group1 in
  let author := re_sub junk_pattern [] author in
  join (u " ") (split_ws author).

Definition plausible_name (author : pystr) : bool :=
  let words := split_ws author in
  (1 <=? Z.of_nat (length words)) && (Z.of_nat (length words) <=? 3)
  && (2 <=? len author) && (len author <=? 50).

(** [all(word[0].isupper() for word in words if word)] *)
Definition capitalised (author : pystr) : bool :=
  forallb (λ word, match word with
                   | [] => true
                   | c :: _ => str_isupper [c]
                   end) (split_ws author).

Fixpoint author_by_patterns (check_capitals : bool) (text : pystr)
    (patterns : list pystr) : option pystr :=
  match patterns with
  | [] => None
  | pattern :: rest =>
      match re_search IGNORECASE pattern text with
      | Some group1 =>
          let author := tidy_name group1 in
          if plausible_name author
             && (if check_capitals then capitalised author else true)
          then Some author
          else author_by_patterns check_capitals text rest
      | None => author_by_patterns check_capitals text rest
      end
  end.

Definition line_keywords : list pystr := [ u "par "; u "by "; u "auteur" ].
Definition split_keywords : list pystr := [ u "par "; u "by "; u "auteur: "; u "de " ].

(** The innermost loop of the fallback: the first keyword found in the
    lowered line after which at least one word follows. *)
Fixpoint author_after_keyword (lowered : pystr) (keywords : list pystr)
  : option pystr :=
  match keywords with
  | [] => None
  | keyword :: rest =>
      if contains lowered keyword
      then let author := strip (default [] (after_first lowered keyword)) in
           let words := take 3 (split_ws author) in
           if (1 <=? Z.of_nat (length words)) && (Z.of_nat (length words) <=? 3)
           then Some (join (u " ") (List.map str_title words))
           else author_after_keyword lowered rest
      else author_after_keyword lowered rest
  end.

Fixpoint author_by_lines (lines : list pystr) : option pystr :=
  match lines with
  | [] => None
  | line :: rest =>
      let line := strip line in
      if (len line >? 5) && (len line <? 50)
         && existsb (λ keyword, contains (str_lower line) keyword) line_keywords
      then match author_after_keyword (str_lower line) split_keywords with
           | Some author => Some author
           | None => author_by_lines rest
           end
      else author_by_lines rest
  end.

Definition _extract_author (soup : Soup) : option pystr :=
  match first_match soup (long_and_clean 1 _clean_author) author_selectors with
  | Some author => Some author
  | None =>
      match author_by_patterns false (str_ soup) html_author_patterns with
      | Some author => Some author
      | None =>
          let text_content := get_text soup in
          match author_by_patterns true text_content text_author_patterns with
          | Some author => Some author
          | None => author_by_lines (split_char 10 text_content)
          end
      end
  end.

Definition _extract_description (soup : Soup) : option pystr :=
  first_match soup (long_and_clean 20 (λ description, description))
    [ u ".description"; u ".summary"; u ".synopsis"; u ".excerpt";
      meta_selector "name" "description"; meta_selector "property" "og:description";
      u ".book-description"; u ".content-description" ].

(** [match.group(1).strip()] for the first pattern that matches. *)
Fixpoint first_group (text : pystr) (patterns : list pystr) : option pystr :=
  match patterns with
  | [] => None
  | pattern :: rest =>
      match re_search IGNORECASE pattern text with
      | Some group1 => Some (strip group1)
      | None => first_group text rest
      end
  end.

Definition duration_patterns : list pystr :=
  [ u "(\d+h\s*\d+min?)"; u "(\d+:\d+:\d+)"; u "(\d+\s*heures?\s*\d+\s*minutes?)";
    u "Dur" ++ [233%N] ++ u "e[:\s]*([^.]+)" ].

Definition _extract_duration (soup : Soup) : option pystr :=
  match first_match soup (λ element, non_empty (element_value element))
          [ u ".duration"; u ".length"; u ".runtime"; u "[data-duration]";
            meta_selector "property" "video:duration" ] with
  | Some duration => Some duration
  | None => first_group (get_text soup) duration_patterns
  end.

Definition _extract_publication_date (soup : Soup) : option pystr :=
  first_match soup
    (λ element,
       non_empty
         (if pystr_eqb (name element) (u "meta") then get element (u "content")
          else if pystr_eqb (name element) (u "time")
               then or_else (get element (u "datetime")) (Some (get_text_strip element))
               else Some (get_text_strip element)))
    [ u ".publication-date"; u ".publish-date"; u ".date";
      meta_selector "property" "book:release_date";
      meta_selector "name" "publication_date"; u "time[datetime]" ].

Definition _extract_genre (soup : Soup) : option pystr :=
  match first_match soup (λ element, non_empty (element_value element))
          [ u ".genre"; u ".category"; u ".book-genre";
            meta_selector "property" "book:genre"; meta_selector "name" "genre" ] with
  | Some genre => Some genre
  | None => Some (u "Jeunesse")
  end.

Definition _extract_thumbnail_url (soup : Soup) (base_url : pystr) : option pystr :=
  first_match soup
    (λ element,
       let url :=
         if pystr_eqb (name element) (u "meta") then get element (u "content")
         else or_else (get element (u "src")) (get element (u "data-src")) in
       match non_empty url with
       | Some url => match urljoin base_url url with
                     | Ok joined => Some joined
                     | Raise _ => None
                     end
       | None => None
       end)
    [ u ".book-cover img"; u ".cover img"; u ".thumbnail img";
      meta_selector "property" "og:image"; meta_selector "name" "twitter:image";
      u ".audiobook-cover img" ].

Definition _extract_isbn (soup : Soup) : option pystr :=
  first_match soup (λ element, non_empty (element_value element))
    [ meta_selector "property" "book:isbn"; meta_selector "name" "isbn"; u ".isbn" ].

Definition _extract_publisher (soup : Soup) : option pystr :=
  first_match soup (λ element, non_empty (element_value element))
    [ u ".publisher"; u ".book-publisher";
      meta_selector "property" "book:publisher"; meta_selector "name" "publisher" ].

Definition narrator_keywords : list pystr :=
  [ u "lu par"; u "narr" ++ [233%N] ++ u " par"; u "read by" ].
Definition narrator_split_keywords : list pystr :=
  [ u "lu par "; u "narr" ++ [233%N] ++ u " par "; u "read by " ].

Fixpoint narrator_after_keyword (lowered : pystr) (keywords : list pystr)
  : option pystr :=
  match keywords with
  | [] => None
  | keyword :: rest =>
      if contains lowered keyword
      then let narrator := strip (default [] (after_first lowered keyword)) in
           if truthy_str narrator then Some (str_title narrator)
           else narrator_after_keyword lowered rest
      else narrator_after_keyword lowered rest
  end.

Fixpoint narrator_by_lines (lines : list pystr) : option pystr :=
  match lines with
  | [] => None
  | line :: rest =>
      let line := strip line in
      if existsb (λ keyword, contains (str_lower line) keyword) narrator_keywords
      then match narrator_after_keyword (str_lower line) narrator_split_keywords with
           | Some narrator => Some narrator
           | None => narrator_by_lines rest
           end
      else narrator_by_lines rest
  end.

Definition _extract_narrator (soup : Soup) : option pystr :=
  match first_match soup (λ element, non_empty (Some (get_text_strip element)))
          [ u ".narrator"; u ".reader"; u ".voice-actor"; u ".read-by" ] with
  | Some narrator => Some narrator
  | None => narrator_by_lines (split_char 10 (get_text soup))
  end.

Definition series_patterns : list pystr :=
  [ u "(.+?)\s*#(\d+)"; u "(.+?),?\s*tome\s*(\d+)"; u "(.+?),?\s*volume\s*(\d+)" ].

(** The loop over the series patterns: [Ok (Some info)] for a match,
    [Ok None] when no pattern matches; [int] may raise. *)
Fixpoint series_by_patterns (text : pystr) (patterns : list pystr)
  : res (option (pystr * option Z)) :=
  match patterns with
  | [] => Ok None
  | pattern :: rest =>
      match re_match2 IGNORECASE pattern text with
      | Some (group1, group2) =>
          number ← py_int group2;
          Ok (Some (strip group1, Some number))
      | None => series_by_patterns text rest
      end
  end.

(** The series name and its number, for the dict with the keys [series]
    and [number]. *)
Definition _extract_series_info (soup : Soup) : option (pystr * option Z) :=
  first_match soup
    (λ element,
       let text := get_text_strip element in
       if truthy_str text
       then match series_by_patterns text series_patterns with
            | Ok (Some info) => Some info
            | Ok None => Some (text, None)
            | Raise _ => None
            end
       else None)
    [ u ".series"; u ".book-series"; u ".series-info" ].

Definition _extract_metadata (page_content page_url : pystr)
  : res (option AudiobookMetadata) :=
  soup ← BeautifulSoup page_content;
  let title := _extract_title soup in
  let author := _extract_author soup in
  if negb (truthy title) || negb (truthy author)
  then Ok None
  else
    playlist_url ← extract_playlist_url session_get page_content page_url;
    let description := _extract_description soup in
    let duration := _extract_duration soup in
    let publication_date := _extract_publication_date soup in
    let genre := _extract_genre soup in
    let thumbnail_url := _extract_thumbnail_url soup page_url in
    let isbn := _extract_isbn soup in
    let publisher := _extract_publisher soup in
    let narrator := _extract_narrator soup in
    let series_info := _extract_series_info soup in
    let thumbnail_data :=
      if truthy thumbnail_url
      then _download_thumbnail (default [] thumbnail_url)
      else None in
    Ok (Some {|
      title := default [] title;
      author := default [] author;
      url := page_url;
      playlist_url := playlist_url;
      description := description;
      duration := duration;
      publication_date := publication_date;
      genre := genre;
      language := u "fr";
      thumbnail_url := thumbnail_url;
      thumbnail_data := thumbnail_data;
      isbn := isbn;
      publisher := publisher;
      narrator := narrator;
      series := fst <$> series_info;
      series_number := series_info ≫= snd;
    |}).

Definition scrape_audiobook (book_url : pystr) : res (option AudiobookMetadata) :=
  page_content ← fetch_page book_url;
  if negb (truthy page_content)
  then Ok None
  else _extract_metadata (default [] page_content) book_url.

End audiobook_scraper.

End AudiobookScraper.
Import AudiobookScraper.

(* ================================================================== *)
(** * [src/scraper/category_scraper.py] (archived copy) *)
(* ================================================================== *)

Module CategoryScraper.

Record AudiobookInfo : Type := {
  info_title : pystr;
  info_author : pystr;
  info_url : pystr;
  info_thumbnail_url : option pystr;
  info_description : option pystr;
}.

(** A parsing strategy: [method(soup, base_url)]. *)
Definition Strategy : Type := Soup → pystr → res (list AudiobookInfo).

(** The first loop: every strategy runs; what it returns is appended,
    what it raises is logged. *)
Definition run_strategies (parsing_methods : list Strategy) (soup : Soup)
    (base_url : pystr) : list AudiobookInfo :=
  fold_left
    (λ audiobooks method,
       match method soup base_url with
       | Ok books => match books with
                     | [] => audiobooks
                     | _ => audiobooks ++ books
                     end
       | Raise _ => audiobooks
       end)
    parsing_methods [].

(** The second loop, on the pair [(seen_urls, unique_audiobooks)]. *)
Definition remove_duplicates (audiobooks : list AudiobookInfo)
  : gset pystr * list AudiobookInfo :=
  fold_left
    (λ '(seen_urls, unique_audiobooks) book,
       if decide (info_url book ∈ seen_urls)
       then (seen_urls, unique_audiobooks)
       else ({[info_url book]} ∪ seen_urls, unique_audiobooks ++ [book]))
    audiobooks (∅, []).

Section category_scraper.

Context `{Library}.

(** [_parse_index_grid_items], [_parse_book_items],
    [_parse_livre_audio_sections], [_parse_generic_links] *)
Variables _parse_index_grid_items _parse_book_items
          _parse_livre_audio_sections _parse_generic_links : Strategy.

Definition parsing_methods : list Strategy :=
  [ _parse_index_grid_items; _parse_book_items;
    _parse_livre_audio_sections; _parse_generic_links ].

Definition _parse_category_page (page_content base_url : pystr)
  : res (list AudiobookInfo) :=
  soup ← BeautifulSoup page_content;
  Ok (remove_duplicates (run_strategies parsing_methods soup base_url)).2.

End category_scraper.

End CategoryScraper.
Import CategoryScraper.

(* ================================================================== *)
(** * [src/main.py] *)
(* ================================================================== *)

Module Main.

(** The options of [Config] that [_process_single_audiobook] reads. *)
Record Config : Type := {
  output_directory : pystr;
  skip_existing : bool;
  embed_metadata : bool;
}.

(** Calls to the collaborators that act on the outside. *)
Inductive Call : Type :=
| DownloadAudiobook (playlist_url title author : pystr)
| EmbedMetadata (downloaded_file : pystr).

(** [self.stats] is a dict: a finite map from its keys to integers.
    [calls] records the collaborator calls, oldest first. *)
Record World : Type := {
  stats : gmap string Z;
  calls : list Call;
}.

(** [self.stats] as [__init__] creates it. *)
Definition initial_stats : gmap string Z :=
  <["discovered" := 0]> (<["processed" := 0]> (<["downloaded" := 0]>
    (<["failed" := 0]> (<["skipped" := 0]> ∅)))).

(** A statement: it changes the world and returns or raises; what it
    did before raising stays done. *)
Definition M (A : Type) : Type := World → res A * World.

Definition ret {A} (a : A) : M A := λ w, (Ok a, w).

Definition and_then {A B} (m : M A) (k : A → M B) : M B :=
  λ w, match m w with
       | (Ok a, w') => k a w'
       | (Raise e, w') => (Raise e, w')
       end.

Definition lift {A} (r : res A) : M A := λ w, (r, w).

(** [try: m  except Exception as e: h] *)
Definition try_catch {A} (m : M A) (h : exn → M A) : M A :=
  λ w, match m w with
       | (Ok a, w') => (Ok a, w')
       | (Raise e, w') => h e w'
       end.

(** [self.stats[key] += 1] *)
Definition incr (key : string) : M unit :=
  λ w, match stats w !! key with
       | Some n => (Ok (), {| stats := <[key := n + 1]> (stats w); calls := calls w |})
       | None => (Raise KeyError, w)
       end.

Definition call (c : Call) : M unit :=
  λ w, (Ok (), {| stats := stats w; calls := calls w ++ [c] |}).

Notation "x ←← m ; k" := (and_then m (λ x, k))
  (at level 20, m at level 100, k at level 200, only parsing, right associativity).
Notation "m ;; k" := (and_then m (λ _, k))
  (at level 100, k at level 200, only parsing, right associativity).

Section orchestrator.

Variable nfkd : pystr → pystr.
Variable config : Config.

(** [self.audiobook_scraper.scrape_audiobook(url)] *)
Variable scrape_audiobook : pystr → res (option AudiobookMetadata).
(** [(Path(directory) / filename).exists()], which may raise [OSError]. *)
Variable path_exists : pystr → pystr → res bool.
(** [self.downloader.download_audiobook(playlist_url, title, author, ...)] *)
Variable download_audiobook : pystr → pystr → pystr → res (option pystr).
(** The tagging done inside [MetadataManager.embed_metadata]. *)
Variable write_tags : pystr → AudiobookMetadata → res bool.

(** [MetadataManager.embed_metadata]: [True] at once when embedding is
    off, [False] for every exception. *)
Definition embed_metadata_ (audio_file_path : pystr) (metadata : AudiobookMetadata)
  : bool :=
  if negb (embed_metadata config) then true
  else match write_tags audio_file_path metadata with
       | Ok success => success
       | Raise _ => false
       end.

(** The [try] block of [_process_single_audiobook].  The
    [LoggingContext] around it and the log calls change no counter and
    call no collaborator. *)
Definition process_steps (audiobook : AudiobookInfo) : M bool :=
  incr "processed" ;;
  metadata ←← lift (scrape_audiobook (info_url audiobook));
  match metadata with
  | None => incr "failed" ;; ret false
  | Some metadata =>
      if negb (truthy (playlist_url metadata))
      then incr "failed" ;; ret false
      else
        let filename := _generate_filename nfkd (title metadata) (author metadata) in
        existing ←← (if skip_existing config
                     then lift (path_exists (output_directory config) filename)
                     else ret false);
        if existing : bool
        then incr "skipped" ;; ret true
        else
          call (DownloadAudiobook (default [] (playlist_url metadata))
                  (title metadata) (author metadata)) ;;
          downloaded_file ←← lift (download_audiobook
                                     (default [] (playlist_url metadata))
                                     (title metadata) (author metadata));
          if negb (truthy downloaded_file)
          then incr "failed" ;; ret false
          else
            (if embed_metadata config
             then call (EmbedMetadata (default [] downloaded_file)) ;;
                  let success :=
                    embed_metadata_ (default [] downloaded_file) metadata in
                  ret ()
             else ret ()) ;;
            incr "downloaded" ;;
            ret true
  end.

Definition _process_single_audiobook (audiobook : AudiobookInfo) : M bool :=
  try_catch (process_steps audiobook)
            (λ _, incr "failed" ;; ret false).

(** [_process_audiobooks]: one call for each audiobook, whatever a call
    returns or raises.  The calls of a run interleave only at their
    [await]s and each increment is a single step, so the counters at the
    end are those of the calls made one after the other. *)
Definition _process_audiobooks (audiobooks : list AudiobookInfo) (w : World) : World :=
  fold_left (λ w audiobook, (_process_single_audiobook audiobook w).2) audiobooks w.

End orchestrator.

Definition counter (key : string) (w : World) : Z := default 0 (stats w !! key).

Definition downloader_called (w : World) : bool :=
  existsb (λ c, match c with DownloadAudiobook _ _ _ => true | _ => false end) (calls w).

End Main.
Import Main.

(* ================================================================== *)
(** * The string methods on Latin-1 text *)
(* ================================================================== *)

(** What the Unicode-aware methods of [str] and the class of the author
    clean-up do on code points below 256; used by the sample runs. *)
Module Latin1.

Definition between (lo hi c : N) : bool := ((lo <=? c) && (c <=? hi))%N.

Definition is_upper (c : N) : bool :=
  between 65 90 c || between 192 214 c || between 216 222 c.

Definition is_lower (c : N) : bool :=
  (between 97 122 c || (c =? 170) || (c =? 181) || (c =? 186)
   || between 223 246 c || between 248 255 c)%N.

Definition is_cased (c : N) : bool := is_upper c || is_lower c.

Definition lower_char (c : N) : N := if is_upper c then (c + 32)%N else c.

(** The title-case form: U+00B5 becomes U+039C, U+00DF becomes [Ss] and
    U+00FF becomes U+0178. *)
Definition title_char (c : N) : pystr :=
  if between 97 122 c || between 224 246 c || between 248 254 c then [(c - 32)%N]
  else if (c =? 181)%N then [924%N]
  else if (c =? 223)%N then [83%N; 115%N]
  else if (c =? 255)%N then [376%N]
  else [c].

Definition lower (s : pystr) : pystr := List.map lower_char s.

Fixpoint title_from (previous_is_cased : bool) (s : pystr) : pystr :=
  match s with
  | [] => []
  | c :: r =>
      (if previous_is_cased then [lower_char c] else title_char c)
        ++ title_from (is_cased c) r
  end.

Definition title (s : pystr) : pystr := title_from false s.

Definition isupper (s : pystr) : bool :=
  existsb is_cased s && forallb (λ c, negb (is_lower c)) s.

Definition is_digit (c : N) : bool :=
  (between 48 57 c || (c =? 178) || (c =? 179) || (c =? 185))%N.

Definition isdigit (s : pystr) : bool :=
  truthy_str s && forallb is_digit s.

(** [\w]: the letters and numbers, and the underscore. *)
Definition is_word (c : N) : bool :=
  (between 48 57 c || between 65 90 c || (c =? 95) || between 97 122 c
   || (c =? 170) || (c =? 178) || (c =? 179) || (c =? 181) || (c =? 185)
   || (c =? 186) || between 188 190 c
   || between 192 214 c || between 216 246 c || between 248 255 c)%N.

(** A character the class [[^\w\s\-\'À-ÿ]] matches. *)
Definition is_junk (c : N) : bool :=
  negb (is_word c || is_space c || (c =? 45) || (c =? 39) || between 192 255 c)%N.

(** [int(text)] for ASCII digits. *)
Definition int (s : pystr) : res Z :=
  if truthy_str s && forallb (between 48 57) s
  then Ok (fold_left (λ n c, 10 * n + (Z.of_N c - 48)) s 0)
  else Raise ValueError.

End Latin1.

(* ================================================================== *)
(** * The resolver's search order, as the specification words it *)
(* ================================================================== *)

Module PlaylistSpec.

(** Every string of a response, in the order a depth-first traversal
    of the whole structure meets them. *)
Fixpoint strings_of (x : json) : list pystr :=
  match x with
  | JStr s => [s]
  | JList xs => flat_map strings_of xs
  | JDict kvs => flat_map (λ kv, strings_of kv.2) kvs
  | _ => []
  end.

(** The strings that are not the value of an object member: elements of
    a list, or the response itself. *)
Fixpoint loose_strings (x : json) : list pystr :=
  match x with
  | JStr s => [s]
  | JList xs => flat_map loose_strings xs
  | JDict kvs =>
      flat_map (λ kv, match kv.2 with
                      | JList _ | JDict _ => loose_strings kv.2
                      | _ => []
                      end) kvs
  | _ => []
  end.

Definition is_m3u8 (s : pystr) : bool := endswith s m3u8.

(** The [url] member of an object, when it is a string ending in
    [.m3u8]. *)
Definition url_member (x : json) : option pystr :=
  match x with
  | JDict kvs =>
      match assoc (u "url") kvs with
      | Some (JStr s) => if is_m3u8 s then Some s else None
      | _ => None
      end
  | _ => None
  end.

(** The first entry of the top-level [validationResults] list that has
    such a member. *)
Definition validation_results_url (x : json) : option pystr :=
  match x with
  | JDict kvs =>
      match assoc (u "validationResults") kvs with
      | Some (JList entries) => head (omap url_member entries)
      | _ => None
      end
  | _ => None
  end.

(** Top-level [url], then the [validationResults] entries, then the
    first qualifying string of the traversal. *)
Definition claimed_search (data : json) : option pystr :=
  match url_member data with
  | Some url => Some url
  | None =>
      match validation_results_url data with
      | Some url => Some url
      | None => List.find is_m3u8 (strings_of data)
      end
  end.

(** A response the search reads without surprise: an object whose [url]
    member, if any, is a string or a false value, and whose
    [validationResults] member, if any, is a list of such objects. *)
Definition url_value_ok (kvs : list (pystr * json)) : Prop :=
  match assoc (u "url") kvs with
  | None => True
  | Some v => json_truthy v = false ∨ ∃ s, v = JStr s
  end.

Definition entry_ok (entry : json) : Prop :=
  ∃ kvs, entry = JDict kvs ∧ url_value_ok kvs.

Definition well_typed (data : json) : Prop :=
  ∃ kvs, data = JDict kvs ∧ url_value_ok kvs ∧
    match assoc (u "validationResults") kvs with
    | None => True
    | Some v => ∃ entries, v = JList entries ∧ Forall entry_ok entries
    end.

(** The answers of the validation API that carry no manifest: the
    request raises, the status is one [raise_for_status] rejects, the
    body is not JSON, or the JSON holds no string ending in [.m3u8]. *)
Definition no_manifest (reply : res ApiResponse) : Prop :=
  match reply with
  | Raise _ => True
  | Ok response =>
      400 ≤ status_code response < 600
      ∨ match json_ response with
        | Raise _ => True
        | Ok data => Forall (λ s, is_m3u8 s = false) (strings_of data)
        end
  end.

End PlaylistSpec.
Import PlaylistSpec.

(* ================================================================== *)
(** * The happy-path page *)
(* ================================================================== *)

Module HappyPath.

Definition page_url : pystr := u "https://ici.radio-canada.ca/ohdio/livres-audio/1/title-x".

(** [<html><body><h1>Title X</h1><p>Écrit par Jane Doe</p>
     <script>{"mediaId":"1234567"}</script></body></html>] without the
    line break. *)
Definition page_content : pystr :=
  u "<html><body><h1>Title X</h1><p>" ++ E_acute ++ u "crit par Jane Doe</p><script>{"
    ++ dq ++ u "mediaId" ++ dq ++ u ":" ++ dq ++ u "1234567" ++ dq
    ++ u "}</script></body></html>".

Definition h1 : Element := {|
  name := u "h1";
  get := λ _, None;
  get_text_strip := u "Title X";
  string_ := Some (u "Title X");
|}.

Definition script : Element := {|
  name := u "script";
  get := λ _, None;
  get_text_strip := u "{" ++ dq ++ u "mediaId" ++ dq ++ u ":" ++ dq ++ u "1234567" ++ dq ++ u "}";
  string_ := Some (u "{" ++ dq ++ u "mediaId" ++ dq ++ u ":" ++ dq ++ u "1234567" ++ dq ++ u "}");
|}.

(** The parsed page: the only element a selector of the scrapers
    matches is the heading. *)
Definition soup : Soup := {|
  select_one selector :=
    if pystr_eqb selector (u "h1") then Ok (Some h1) else Ok None;
  select selector :=
    if pystr_eqb selector (u "h1") then Ok [h1] else Ok [];
  find_all tag :=
    if pystr_eqb tag (u "script") then Ok [script]
    else if pystr_eqb tag (u "h1") then Ok [h1] else Ok [];
  str_ := page_content;
  get_text :=
    u "Title X" ++ E_acute ++ u "crit par Jane Doe{"
      ++ dq ++ u "mediaId" ++ dq ++ u ":" ++ dq ++ u "1234567" ++ dq ++ u "}";
|}.

(** What the libraries answer on this page.  The first author pattern
    finds the name after the words of the author block, the first
    identifier pattern finds the quoted identifier, and no other pattern
    of the scrapers matches; [urljoin] and [re.match] are not consulted. *)
#[local] Instance library : Library := {|
  re_search flags pattern text :=
    match flags with
    | IGNORECASE =>
        if pystr_eqb pattern
             (u ">" ++ E_acute ++ u "crit\s+par\s+([A-Z][a-zA-Z" ++ A_grave ++ u "-"
                ++ y_diaeresis ++ u "\s\-\']+?)<")
           && pystr_eqb text page_content
        then Some (u "Jane Doe") else None
    | NoFlags => None
    end;
  re_findall flags pattern text :=
    match flags with
    | IGNORECASE =>
        if pystr_eqb pattern
             (dq ++ u "mediaId" ++ dq ++ u "\s*:\s*" ++ dq ++ u "([^" ++ dq ++ u "]+)" ++ dq)
           && pystr_eqb text page_content
        then [u "1234567"] else []
    | NoFlags => []
    end;
  re_sub pattern repl text :=
    if pystr_eqb pattern junk_pattern && pystr_eqb repl []
    then List.filter (λ c, negb (Latin1.is_junk c)) text
    else text;
  str_lower := Latin1.lower;
  str_title := Latin1.title;
  str_isupper := Latin1.isupper;
  str_isdigit := Latin1.isdigit;
  re_match2 _ _ _ := None;
  py_int := Latin1.int;
  urljoin _ url := Ok url;
  BeautifulSoup markup :=
    if pystr_eqb markup page_content then Ok soup else Raise OtherError;
|}.

(** The validation API answers [{"url":"https://x/master.m3u8"}]. *)
Definition session_get (media_id : pystr) : res ApiResponse :=
  if pystr_eqb media_id (u "1234567")
  then Ok {| status_code := 200;
             json_ := Ok (JDict [(u "url", JStr (u "https://x/master.m3u8"))]) |}
  else Raise RequestException.

End HappyPath.

(* ================================================================== *)
(** * Notions used to state the properties *)
(* ================================================================== *)

Module Notions.

(** ** File names *)

Definition valid_char (c : N) : Prop := invalid_char c = false.

Definition clean_char (c : N) : Prop :=
  invalid_char c = false ∧ control_char c = false ∧ c ≠ 32%N.

(** No space, and no underscore next to another; [prev] tells that an
    underscore comes just before. *)
Fixpoint settled (prev : bool) (s : pystr) : Prop :=
  match s with
  | [] => True
  | c :: r =>
      if space_or_underscore c
      then c = 95%N ∧ prev = false ∧ settled true r
      else settled false r
  end.

(** A name that every step of [sanitize_filename] leaves alone. *)
Record stable (nfkd : pystr → pystr) (s : pystr) : Prop := {
  stable_nfkd : nfkd s = s;
  stable_chars : Forall clean_char s;
  stable_runs : settled false s;
  stable_ends :
    ∃ c m d, s = c :: m ++ [d] ∧ space_or_dot c = false ∧ space_or_dot d = false;
  stable_len : len s ≤ 255;
}.

(** NFKD normalisation, by the facts of the Unicode standard on which
    the stability of a name rests: an ASCII character is a starter that does not
    decompose, so the text is normalised piece by piece on either side
    of it; normalising twice changes nothing more; a prefix of a
    normalised text is normalised; and no decomposition holds a control
    character. *)
Record normalisation (nfkd : pystr → pystr) : Prop := {
  nfkd_nil : nfkd [] = [];
  nfkd_ascii : ∀ s1 c s2, is_ascii c → nfkd (s1 ++ c :: s2) = nfkd s1 ++ c :: nfkd s2;
  nfkd_idempotent : ∀ s, nfkd (nfkd s) = nfkd s;
  nfkd_prefix : ∀ s k, nfkd s = s → nfkd (take k s) = take k s;
  nfkd_control : ∀ s, Forall (λ c, control_char c = false) s →
                      Forall (λ c, control_char c = false) (nfkd s);
}.

(** A title or an author that is ASCII, or that holds no control
    character. *)
Definition plain (s : pystr) : Prop :=
  Forall is_ascii s ∨ Forall (λ c, control_char c = false) s.

(** A text whose runs of combining marks are in canonical order: no
    mark is followed by a mark of a lower class. *)
Definition in_order (c : N) (r : pystr) : Prop :=
  match r with
  | [] => True
  | d :: _ => combining_class d = 0%N ∨ (combining_class c <= combining_class d)%N
  end.

Fixpoint ordered (s : pystr) : Prop :=
  match s with
  | [] => True
  | c :: r => (combining_class c = 0%N ∨ in_order c r) ∧ ordered r
  end.

(** ** Retries *)

(** One failed attempt that is retried: the request, then the sleep of
    [delay * 2^k] seconds. *)
Definition retry_round (delay : Q) (k : nat) : list Event :=
  [Request; Sleep (delay * inject_Z (2 ^ Z.of_nat k))%Q].

(** The waits of the attempts [0] to [n - 1] are finite floats: the
    last of them, which is the largest in absolute value, is within
    [float_max]. *)
Definition finite_waits (delay : Q) (n : Z) : Prop :=
  (- float_max <= delay * inject_Z (2 ^ (n - 1)))%Q
  ∧ (delay * inject_Z (2 ^ (n - 1)) <= float_max)%Q.

(** ** JSON *)

(** Induction on JSON values, with the hypothesis for every element of
    a list and every member of an object. *)
Section json_induction.
Variable P : json → Prop.
Hypothesis Hnull : P JNull.
Hypothesis Hbool : ∀ b, P (JBool b).
Hypothesis Hint : ∀ n, P (JInt n).
Hypothesis Hfloat : ∀ q, P (JFloat q).
Hypothesis Hstr : ∀ s, P (JStr s).
Hypothesis Hlist : ∀ xs, Forall P xs → P (JList xs).
Hypothesis Hdict : ∀ kvs, Forall (λ kv, P kv.2) kvs → P (JDict kvs).

Fixpoint json_induction (x : json) : P x :=
  match x with
  | JNull => Hnull
  | JBool b => Hbool b
  | JInt n => Hint n
  | JFloat q => Hfloat q
  | JStr s => Hstr s
  | JList xs =>
      Hlist xs ((fix all (xs : list json) : Forall P xs :=
                   match xs with
                   | [] => List.Forall_nil P
                   | y :: ys => List.Forall_cons P y ys (json_induction y) (all ys)
                   end) xs)
  | JDict kvs =>
      Hdict kvs ((fix all (kvs : list (pystr * json)) : Forall (λ kv, P kv.2) kvs :=
                    match kvs with
                    | [] => List.Forall_nil _
                    | kv :: rest =>
                        List.Forall_cons _ kv rest (json_induction kv.2) (all rest)
                    end) kvs)
  end.
End json_induction.

(** [if 'url' in x: url = x['url']; if url and url.endswith('.m3u8'):
    return url] as one step: the URL it returns, [None] when it goes on. *)
Definition url_step (x : json) : res (option pystr) :=
  has_url ← py_in (u "url") x;
  if has_url : bool
  then url ← py_getitem x (u "url"); m3u8_url url
  else Ok None.

(** ** The catalogue *)

(** What the de-duplication loop keeps of [books], given the URLs seen
    before. *)
Fixpoint kept (seen : gset pystr) (books : list AudiobookInfo) : list AudiobookInfo :=
  match books with
  | [] => []
  | book :: rest =>
      if decide (info_url book ∈ seen) then kept seen rest
      else book :: kept ({[info_url book]} ∪ seen) rest
  end.

Definition same_url (book other : AudiobookInfo) : bool :=
  bool_decide (info_url other = info_url book).

(** What a strategy contributes: nothing when it raises. *)
Definition contribution (soup : Soup) (base_url : pystr) (method : Strategy)
  : list AudiobookInfo :=
  match method soup base_url with
  | Ok books => books
  | Raise _ => []
  end.

(** ** Run statistics *)

Definition counter_keys : list string :=
  ["discovered"; "processed"; "downloaded"; "failed"; "skipped"].

(** The five keys of [__init__] are present. *)
Definition has_counters (w : World) : Prop :=
  ∀ key, key ∈ counter_keys → is_Some (stats w !! key).

(** The world after [self.stats[key] += 1]. *)
Definition bumped (key : string) (w : World) : World :=
  {| stats := <[key := counter key w + 1]> (stats w); calls := calls w |}.

(** How a call that ends in [key] leaves the world: the two increments,
    and the collaborator calls [cs] it made. *)
Definition ended (key : string) (cs : list Call) (w : World) : World :=
  {| stats := stats (bumped key (bumped "processed" w)); calls := calls w ++ cs |}.

(** [processed = downloaded + skipped + failed] *)
Definition balanced (w : World) : Prop :=
  counter "processed" w
  = counter "downloaded" w + counter "skipped" w + counter "failed" w.

(** The counters after a call that ended in [key]: [processed] and
    [key] one higher, every other counter as before. *)
Definition counted (key : string) (w w' : World) : Prop :=
  counter "processed" w' = counter "processed" w + 1
  ∧ counter key w' = counter key w + 1
  ∧ ∀ other, other ≠ "processed" → other ≠ key → counter other w' = counter other w.

End Notions.
Import Notions.

(* ================================================================== *)
(** * Sample runs *)
(* ================================================================== *)

Module Samples.

(** A server that always answers 500, and one that answers 403. *)
Definition always_500 : nat → Reply := λ _, HttpResponse 500 None [].
Definition forbidden : nat → Reply := λ _, HttpResponse 403 None [].

(** [{"validationResults":[{"other":1},{"url":"https://y/z.m3u8"}]}] *)
Definition nested_response : json :=
  JDict [(u "validationResults",
          JList [JDict [(u "other", JInt 1)];
                 JDict [(u "url", JStr (u "https://y/z.m3u8"))]])].

(** [{"url":1,"validationResults":[{"url":"https://y/z.m3u8"}]}] *)
Definition numeric_url_response : json :=
  JDict [(u "url", JInt 1);
         (u "validationResults",
          JList [JDict [(u "url", JStr (u "https://y/z.m3u8"))]])].

(** [{"streams":["https://y/z.m3u8"]}] *)
Definition listed_url_response : json :=
  JDict [(u "streams", JList [JStr (u "https://y/z.m3u8")])].

Definition answering (data : json) : pystr → res ApiResponse :=
  λ _, Ok {| status_code := 200; json_ := Ok data |}.

(** A validation API that answers 503 with a body that is not JSON. *)
Definition unavailable : pystr → res ApiResponse :=
  λ _, Ok {| status_code := 503; json_ := Raise JSONDecodeError |}.

(** A title with two combining marks kept apart by a control
    character: [a], U+0301, U+0001, U+0323. *)
Definition marked_title : pystr := [97; 769; 1; 803]%N.

(** A page on which nothing is found. *)
Definition blank_soup : Soup := {|
  select_one _ := Ok None;
  select _ := Ok [];
  find_all _ := Ok [];
  str_ := [];
  get_text := [];
|}.

Definition blank_library : Library := {|
  re_search _ _ _ := None;
  re_findall _ _ _ := [];
  re_sub _ _ text := text;
  str_lower := Latin1.lower;
  str_title := Latin1.title;
  str_isupper := Latin1.isupper;
  str_isdigit := Latin1.isdigit;
  re_match2 _ _ _ := None;
  py_int := Latin1.int;
  urljoin _ url := Ok url;
  BeautifulSoup _ := Ok blank_soup;
|}.

(** Three strategies that overlap, and one that raises. *)
Definition entry (title url : string) : AudiobookInfo := {|
  info_title := u title;
  info_author := u "Unknown Author";
  info_url := u url;
  info_thumbnail_url := None;
  info_description := None;
|}.

Definition grid : Strategy := λ _ _, Ok [entry "A" "/a"; entry "B" "/b"].
Definition items : Strategy := λ _ _, Raise OtherError.
Definition sections : Strategy := λ _ _, Ok [entry "A bis" "/a"].
Definition links : Strategy := λ _ _, Ok [entry "C" "/c"; entry "B bis" "/b"].

(** One item of a run: its page gives the happy-path record, and the
    file is already there. *)
Definition jane_doe : AudiobookMetadata := {|
  title := u "Title X";
  author := u "Jane Doe";
  url := HappyPath.page_url;
  playlist_url := Some (u "https://x/master.m3u8");
  description := None; duration := None; publication_date := None;
  genre := Some (u "Jeunesse"); language := u "fr";
  thumbnail_url := None; thumbnail_data := None; isbn := None;
  publisher := None; narrator := None; series := None; series_number := None;
|}.

Definition config : Config := {|
  output_directory := u "downloads";
  skip_existing := true;
  embed_metadata := true;
|}.

Definition item : AudiobookInfo := entry "Unknown" "https://ici.radio-canada.ca/ohdio/livres-audio/1/title-x".

Definition fresh : World := {| stats := initial_stats; calls := [] |}.

End Samples.

(* ================================================================== *)
(** * [src/utils/file_utils.py]: paths and extensions *)
(* ================================================================== *)

Module FilePaths.

(** [s.split(sep)[0]] and [s.split(sep)[-1]] for a one-character
    separator. *)
Definition first_part (sep : N) (s : pystr) : pystr :=
  default [] (head (split_char sep s)).
Definition last_part (sep : N) (s : pystr) : pystr :=
  default [] (last (split_char sep s)).

Section extract_extension_from_url.

Context `{Library}.
(** [str.isalnum] *)
Variable str_isalnum : pystr → bool.

Definition extract_extension_from_url (url : pystr) : option pystr :=
  let clean_url := first_part 35 (first_part 63 url) in
  let path := last_part 47 clean_url in
  if contains path (u ".")
  then
    let extension := str_lower (last_part 46 path) in
    if (len extension <=? 5) && str_isalnum extension
    then Some extension
    else None
  else None.

End extract_extension_from_url.

(** A file below a directory: the directory and the file name, for
    names that are one path component, as the generated names are. *)
Definition Path : Type := pystr * pystr.

Section get_safe_path.

(** The files that exist while the function runs. *)
Variable files : gset Path.
(** What [os.stat] raises for a path, the errors apart that
    [Path.exists] answers with [False] (no such file or directory):
    for instance the [OSError] for a name that is too long. *)
Variable stat_error : Path → option exn.
(** [base_path.mkdir(parents=True, exist_ok=True)] *)
Variable mkdir : pystr → res unit.
(** [Path.stem] and [Path.suffix] of a file name. *)
Variables stem suffix : pystr → pystr.

(** [file_path.exists()] *)
Definition exists_ (file_path : Path) : res bool :=
  match stat_error file_path with
  | Some e => Raise e
  | None => Ok (bool_decide (file_path ∈ files))
  end.

(** [f"{stem}_{counter}{suffix}"] *)
Definition new_name (filename : pystr) (counter : nat) : pystr :=
  stem filename ++ u "_" ++ u (pretty counter) ++ suffix filename.

(** [while file_path.exists(): ...], run for at most [fuel] tests;
    [None] stands for a loop that needs more. *)
Fixpoint while_exists (fuel : nat) (directory filename : pystr)
    (file_path : Path) (counter : nat) : res (option Path) :=
  match fuel with
  | O => Ok None
  | S fuel' =>
      found ← exists_ file_path;
      if found : bool
      then while_exists fuel' directory filename
             (directory, new_name filename counter) (S counter)
      else Ok (Some file_path)
  end.

Definition get_safe_path (fuel : nat) (directory filename : pystr)
  : res (option Path) :=
  _ ← mkdir directory;
  let file_path := (directory, filename) in
  found ← exists_ file_path;
  if found : bool
  then while_exists fuel directory filename file_path 1
  else Ok (Some file_path).

(** The paths the function tries, in order: the wanted name, then the
    names with the counters 1, 2, ... *)
Definition tried (directory filename : pystr) (k : nat) : Path :=
  (directory, match k with O => filename | S _ => new_name filename k end).

Definition ensure_directory_exists (directory : pystr) : res pystr :=
  _ ← mkdir directory;
  Ok directory.

End get_safe_path.

End FilePaths.
Import FilePaths.

(* ================================================================== *)
(** * [src/utils/network_utils.py]: [sync_request] and [RequestsSession] *)
(* ================================================================== *)

Module NetworkSessions.

(** What one [session.request] of [requests] produces for
    [sync_request]: a response, the exception the loop catches, or an
    exception it lets through.  The header is given as in [Reply]. *)
Inductive SyncReply : Type :=
| SyncResponse (status_code : Z) (retry_after : option (option Q)) (text : pystr)
| RequestFailed
| SyncUncaught (e : exn).

Section sync_request.

Variable server : nat → SyncReply.
Variable max_retries : Z.
Variable delay : Q.
(** The arguments that the clock type of [time.sleep] cannot hold (with
    a clock of 64 bits in nanoseconds, those beyond 2^63 nanoseconds). *)
Variable too_long : Q → bool.

(** [time.sleep(seconds)]: [OverflowError] for an argument the clock
    type cannot hold, [ValueError] for a negative one.  No [except]
    clause of [sync_request] catches either. *)
Definition time_sleep (seconds : Q) : res unit :=
  if too_long seconds then Raise OverflowError
  else if Qle_bool 0 seconds then Ok ()
  else Raise ValueError.

(** The body of [for attempt in range(max_retries + 1)] of
    [sync_request], with [todo] iterations left, followed by the
    [return None] after the loop. *)
Fixpoint sync_attempts (todo : nat) (attempt : nat) : res (option pystr) * list Event :=
  match todo with
  | O => (Ok None, [])
  | S todo' =>
      let continue := sync_attempts todo' (S attempt) in
      let sleep_and_continue (seconds : Q) :=
        match time_sleep seconds with
        | Ok _ => (continue.1, Sleep seconds :: continue.2)
        | Raise e => (Raise e, [])
        end in
      (* [time.sleep(delay * (2 ** attempt))] and [continue] *)
      let back_off_and_continue :=
        match backoff delay attempt with
        | Ok seconds => sleep_and_continue seconds
        | Raise e => (Raise e, [])
        end in
      let '(r, tr) :=
        match server attempt with
        | SyncResponse status_code retry_after text =>
            if status_code =? 200 then (Ok (Some text), [])
            else if status_code =? 429 then
              (* the default of [headers.get] is computed first *)
              match backoff delay attempt with
              | Raise e => (Raise e, [])
              | Ok default_wait =>
                  match default (Some default_wait) retry_after with
                  | None => (Raise ValueError, [])
                  | Some wait_time =>
                      if Z.of_nat attempt <? max_retries
                      then sleep_and_continue wait_time
                      else (Raise RateLimitError, [])
                  end
              end
            else if status_code >=? 500 then
              if Z.of_nat attempt <? max_retries
              then back_off_and_continue
              else (Raise NetworkError, [])
            else if status_code =? 404 then (Ok None, [])
            else if status_code >=? 400 then (Ok None, [])
            else continue
        | RequestFailed =>
            if Z.of_nat attempt <? max_retries
            then back_off_and_continue
            else (Raise NetworkError, [])
        | SyncUncaught e => (Raise e, [])
        end in
      (r, Request :: tr)
  end.

Definition sync_request : res (option pystr) * list Event :=
  sync_attempts (Z.to_nat (max_retries + 1)) 0.

End sync_request.

(** A [requests.Response], of which the callers read the status and the
    body. *)
Record Response : Type := {
  response_status : Z;
  response_text : pystr;
}.

(** What [self.session.request] produces for [RequestsSession]. *)
Inductive SessionReply : Type :=
| Responded (response : Response)
| SessionFailed
| SessionUncaught (e : exn).

Section requests_session.

Variable server : nat → SessionReply.
(** [self.max_retries] *)
Variable max_retries : Z.

(** [2 ** attempt] seconds. *)
Definition pause (attempt : nat) : Q := inject_Z (2 ^ Z.of_nat attempt).

(** The body of the loop of [RequestsSession._request], with [todo]
    iterations left, followed by the [return None] after the loop. *)
Fixpoint session_attempts (todo : nat) (attempt : nat)
  : res (option Response) * list Event :=
  match todo with
  | O => (Ok None, [])
  | S todo' =>
      let continue := session_attempts todo' (S attempt) in
      let sleep_and_continue :=
        (continue.1, Sleep (pause attempt) :: continue.2) in
      let '(r, tr) :=
        match server attempt with
        | Responded response =>
            if response_status response <? 400 then (Ok (Some response), [])
            else if (response_status response >=? 500)
                    && (Z.of_nat attempt <? max_retries)
            then sleep_and_continue
            else (Ok (Some response), [])
        | SessionFailed =>
            if Z.of_nat attempt <? max_retries
            then sleep_and_continue
            else (Ok None, [])
        | SessionUncaught e => (Raise e, [])
        end in
      (r, Request :: tr)
  end.

Definition _request : res (option Response) * list Event :=
  session_attempts (Z.to_nat (max_retries + 1)) 0.

End requests_session.

End NetworkSessions.
Import NetworkSessions.

(* ================================================================== *)
(** * [src/scraper/category_scraper.py]: [scrape_category] *)
(* ================================================================== *)

Module Catalogue.

Definition JEUNESSE_CATEGORY_URL : pystr :=
  u "https://ici.radio-canada.ca/ohdio/categories/1003592/jeunesse".

Section scrape_category.

Context `{Library}.

Variables _parse_index_grid_items _parse_book_items
          _parse_livre_audio_sections _parse_generic_links : Strategy.
(** [safe_request(category_url, headers=..., max_retries=..., delay=...)] *)
Variable fetch_page : pystr → res (option pystr).

Definition scrape_category (category_url : option pystr) : res (list AudiobookInfo) :=
  let category_url := default JEUNESSE_CATEGORY_URL category_url in
  page_content ← fetch_page category_url;
  if negb (truthy page_content)
  then Ok []
  else _parse_category_page _parse_index_grid_items _parse_book_items
         _parse_livre_audio_sections _parse_generic_links
         (default [] page_content) category_url.

Definition get_total_audiobook_count (category_url : option pystr) : res Z :=
  let category_url := default JEUNESSE_CATEGORY_URL category_url in
  audiobooks ← scrape_category (Some category_url);
  Ok (Z.of_nat (length audiobooks)).

End scrape_category.

End Catalogue.
Import Catalogue.

(* ================================================================== *)
(** * [src/main.py]: the runs of [OHdioDownloader] *)
(* ================================================================== *)

Module Application.

(** [self.stats[key] = value] *)
Definition set_stat (key : string) (value : Z) : M unit :=
  λ w, (Ok (), {| stats := <[key := value]> (stats w); calls := calls w |}).

(** [self.stats[key]] *)
Definition get_stat (key : string) : M Z :=
  λ w, match stats w !! key with
       | Some n => (Ok n, w)
       | None => (Raise KeyError, w)
       end.

Section application.

Variable nfkd : pystr → pystr.
Variable config : Config.
Variable scrape_audiobook : pystr → res (option AudiobookMetadata).
Variable path_exists : pystr → pystr → res bool.
Variable download_audiobook : pystr → pystr → pystr → res (option pystr).
Variable write_tags : pystr → AudiobookMetadata → res bool.
(** [self.category_scraper.scrape_category(category_url)] *)
Variable scrape_category : option pystr → res (list AudiobookInfo).

Definition download_single_audiobook (book_url : pystr) : M bool :=
  try_catch
    (let audiobook_info := {|
       info_title := u "Unknown";
       info_author := u "Unknown";
       info_url := book_url;
       info_thumbnail_url := None;
       info_description := None;
     |} in
     success ←← _process_single_audiobook nfkd config scrape_audiobook path_exists
                  download_audiobook write_tags audiobook_info;
     ret success)
    (λ _, ret false).

Definition _discover_audiobooks (category_url : option pystr)
  : M (list AudiobookInfo) :=
  audiobooks ←← lift (scrape_category category_url);
  set_stat "discovered" (Z.of_nat (length audiobooks)) ;;
  ret audiobooks.

(** The counters [_print_summary] reads, in the order it reads them;
    what it logs changes nothing. *)
Definition _print_summary : M unit :=
  get_stat "discovered" ;;
  get_stat "processed" ;;
  get_stat "downloaded" ;;
  get_stat "skipped" ;;
  get_stat "failed" ;;
  processed ←← get_stat "processed";
  (if processed >? 0
   then get_stat "downloaded" ;; get_stat "processed" ;; ret ()
   else ret ()).

(** [await self._process_audiobooks(audiobooks)], which gathers the
    tasks with [return_exceptions=True]. *)
Definition process_audiobooks (audiobooks : list AudiobookInfo) : M unit :=
  λ w, (Ok (), _process_audiobooks nfkd config scrape_audiobook path_exists
                 download_audiobook write_tags audiobooks w).

(** The [except] clause logs and raises again. *)
Definition download_all_audiobooks (category_url : option pystr) : M unit :=
  try_catch
    (audiobooks ←← _discover_audiobooks category_url;
     match audiobooks with
     | [] => ret ()
     | _ => process_audiobooks audiobooks ;; _print_summary
     end)
    (λ e, lift (Raise e)).

End application.

End Application.
Import Application.

(* ================================================================== *)
(** * [src/downloader/ytdlp_downloader.py]: [download_audiobook] *)
(* ================================================================== *)

Module Downloader.

Section download_audiobook.

Variable nfkd : pystr → pystr.
Variable config : Config.
Variable stat_error : Path → option exn.
Variable mkdir : pystr → res unit.
Variables stem suffix : pystr → pystr.
(** [self._download_with_ytdlp(playlist_url, output_path, ...)], which
    catches every exception: what it returns, and the files that exist
    when it is done. *)
Variable _download_with_ytdlp : gset Path → pystr → Path → bool * gset Path.

(** [self.config.skip_existing and output_path.exists()] *)
Definition skip_test (files : gset Path) (output_path : Path) : res bool :=
  if skip_existing config then exists_ files stat_error output_path else Ok false.

(** The [try] block: the download, then [success and output_path.exists()];
    the [except] clause answers every exception with [None]. *)
Definition download_and_check (files : gset Path) (playlist_url : pystr)
    (output_path : Path) : option Path * gset Path :=
  let '(success, files') := _download_with_ytdlp files playlist_url output_path in
  (if success
   then match exists_ files' stat_error output_path with
        | Ok true => Some output_path
        | Ok false | Raise _ => None
        end
   else None,
   files').

(** The result and the files that exist at the end; [None] stands for
    a loop of [get_safe_path] that needs more than [fuel] tests. *)
Definition download_audiobook (fuel : nat) (files : gset Path)
    (playlist_url title author : pystr) (output_directory : option pystr)
  : option (res (option Path) * gset Path) :=
  if negb (truthy_str playlist_url) then Some (Ok None, files)
  else
    let output_dir :=
      if truthy output_directory then default [] output_directory
      else Main.output_directory config in
    match ensure_directory_exists mkdir output_dir with
    | Raise e => Some (Raise e, files)
    | Ok _ =>
        let filename := _generate_filename nfkd title author in
        match get_safe_path files stat_error mkdir stem suffix fuel output_dir filename with
        | Raise e => Some (Raise e, files)
        | Ok None => None
        | Ok (Some output_path) =>
            match skip_test files output_path with
            | Raise e => Some (Raise e, files)
            | Ok true => Some (Ok (Some output_path), files)
            | Ok false =>
                let '(found, files') :=
                  download_and_check files playlist_url output_path in
                Some (Ok found, files')
            end
        end
    end.

End download_audiobook.

End Downloader.

(* ================================================================== *)
(** * [src/utils/config.py] *)
(* ================================================================== *)

Module Settings.

(** The dataclass [Config].  Python checks no annotation, so a field
    holds whatever value the caller or the configuration file gives;
    the values are those of JSON, [JFloat] for the finite floats. *)
Record Config : Type := {
  output_directory : json;
  max_concurrent_downloads : json;
  retry_attempts : json;
  delay_between_requests : json;
  audio_quality : json;
  embed_metadata : json;
  skip_existing : json;
  user_agent : json;
}.

(** The default values of the fields. *)
Definition defaults : Config := {|
  output_directory := JStr (u "downloads");
  max_concurrent_downloads := JInt 3;
  retry_attempts := JInt 3;
  delay_between_requests := JFloat 1;
  audio_quality := JStr (u "best");
  embed_metadata := JBool true;
  skip_existing := JBool true;
  user_agent :=
    JStr (u "Mozilla/5.0 (Macintosh; Intel Mac OS X 10_15_7) AppleWebKit/537.36");
|}.

(** [x < bound] for an integer [bound]: defined on numbers and on
    booleans, [TypeError] on the other values. *)
Definition less_than (x : json) (bound : Z) : res bool :=
  match x with
  | JInt n => Ok (n <? bound)
  | JBool b => Ok ((if b then 1 else 0) <? bound)
  | JFloat q => Ok (negb (Qle_bool (inject_Z bound) q))
  | _ => Raise TypeError
  end.

(** What [Path(directory).mkdir(parents=True, exist_ok=True)] does. *)
Inductive Mkdir : Type :=
| Made
| PermissionError
| MkdirRaised (e : exn).

Section config.

Variable mkdir : pystr → Mkdir.

Definition __post_init__ (self : Config) : res Config :=
  too_few ← less_than (max_concurrent_downloads self) 1;
  if too_few : bool then Raise ValueError
  else
    negative ← less_than (retry_attempts self) 0;
    if negative : bool then Raise ValueError
    else
      negative ← less_than (delay_between_requests self) 0;
      if negative : bool then Raise ValueError
      else
        match output_directory self with
        | JStr directory =>
            match mkdir directory with
            | Made => Ok self
            | PermissionError =>
                match mkdir (u "downloads") with
                | Made =>
                    Ok {| output_directory := JStr (u "downloads");
                          max_concurrent_downloads := max_concurrent_downloads self;
                          retry_attempts := retry_attempts self;
                          delay_between_requests := delay_between_requests self;
                          audio_quality := audio_quality self;
                          embed_metadata := embed_metadata self;
                          skip_existing := skip_existing self;
                          user_agent := user_agent self |}
                | PermissionError => Raise OtherError
                | MkdirRaised e => Raise e
                end
            | MkdirRaised e => Raise e
            end
        | _ => Raise TypeError
        end.

(** One keyword argument of the call of [cls] with the members of
    [data]: the field of that name is set; a name that is no field is a
    [TypeError]. *)
Definition with_field (self : Config) (key : pystr) (value : json) : res Config :=
  if pystr_eqb key (u "output_directory") then
    Ok {| output_directory := value;
          max_concurrent_downloads := max_concurrent_downloads self;
          retry_attempts := retry_attempts self;
          delay_between_requests := delay_between_requests self;
          audio_quality := audio_quality self;
          embed_metadata := embed_metadata self;
          skip_existing := skip_existing self;
          user_agent := user_agent self |}
  else if pystr_eqb key (u "max_concurrent_downloads") then
    Ok {| output_directory := output_directory self;
          max_concurrent_downloads := value;
          retry_attempts := retry_attempts self;
          delay_between_requests := delay_between_requests self;
          audio_quality := audio_quality self;
          embed_metadata := embed_metadata self;
          skip_existing := skip_existing self;
          user_agent := user_agent self |}
  else if pystr_eqb key (u "retry_attempts") then
    Ok {| output_directory := output_directory self;
          max_concurrent_downloads := max_concurrent_downloads self;
          retry_attempts := value;
          delay_between_requests := delay_between_requests self;
          audio_quality := audio_quality self;
          embed_metadata := embed_metadata self;
          skip_existing := skip_existing self;
          user_agent := user_agent self |}
  else if pystr_eqb key (u "delay_between_requests") then
    Ok {| output_directory := output_directory self;
          max_concurrent_downloads := max_concurrent_downloads self;
          retry_attempts := retry_attempts self;
          delay_between_requests := value;
          audio_quality := audio_quality self;
          embed_metadata := embed_metadata self;
          skip_existing := skip_existing self;
          user_agent := user_agent self |}
  else if pystr_eqb key (u "audio_quality") then
    Ok {| output_directory := output_directory self;
          max_concurrent_downloads := max_concurrent_downloads self;
          retry_attempts := retry_attempts self;
          delay_between_requests := delay_between_requests self;
          audio_quality := value;
          embed_metadata := embed_metadata self;
          skip_existing := skip_existing self;
          user_agent := user_agent self |}
  else if pystr_eqb key (u "embed_metadata") then
    Ok {| output_directory := output_directory self;
          max_concurrent_downloads := max_concurrent_downloads self;
          retry_attempts := retry_attempts self;
          delay_between_requests := delay_between_requests self;
          audio_quality := audio_quality self;
          embed_metadata := value;
          skip_existing := skip_existing self;
          user_agent := user_agent self |}
  else if pystr_eqb key (u "skip_existing") then
    Ok {| output_directory := output_directory self;
          max_concurrent_downloads := max_concurrent_downloads self;
          retry_attempts := retry_attempts self;
          delay_between_requests := delay_between_requests self;
          audio_quality := audio_quality self;
          embed_metadata := embed_metadata self;
          skip_existing := value;
          user_agent := user_agent self |}
  else if pystr_eqb key (u "user_agent") then
    Ok {| output_directory := output_directory self;
          max_concurrent_downloads := max_concurrent_downloads self;
          retry_attempts := retry_attempts self;
          delay_between_requests := delay_between_requests self;
          audio_quality := audio_quality self;
          embed_metadata := embed_metadata self;
          skip_existing := skip_existing self;
          user_agent := value |}
  else Raise TypeError.

Fixpoint with_fields (self : Config) (data : list (pystr * json)) : res Config :=
  match data with
  | [] => Ok self
  | (key, value) :: rest =>
      self ← with_field self key value;
      with_fields self rest
  end.

(** The call of [cls] with the members of [data] as keyword
    arguments: the fields are set, then [__post_init__] runs. *)
Definition init (data : list (pystr * json)) : res Config :=
  self ← with_fields defaults data;
  __post_init__ self.

(** The configuration file: missing, or what [json.load] gives for it. *)
Inductive ConfigFile : Type :=
| Missing
| Loaded (data : res json).

Definition from_file (config_file : ConfigFile) : res Config :=
  match config_file with
  | Missing => init []
  | Loaded loaded =>
      data ← loaded;
      match data with
      | JDict members => init members
      | _ => Raise TypeError
      end
  end.

End config.

(** The dict [save_to_file] hands to [json.dump]. *)
Definition save_to_file (self : Config) : json :=
  JDict [ (u "output_directory", output_directory self);
          (u "max_concurrent_downloads", max_concurrent_downloads self);
          (u "retry_attempts", retry_attempts self);
          (u "delay_between_requests", delay_between_requests self);
          (u "audio_quality", audio_quality self);
          (u "embed_metadata", embed_metadata self);
          (u "skip_existing", skip_existing self);
          (u "user_agent", user_agent self) ].

Definition field_names : list pystr :=
  [ u "output_directory"; u "max_concurrent_downloads"; u "retry_attempts";
    u "delay_between_requests"; u "audio_quality"; u "embed_metadata";
    u "skip_existing"; u "user_agent" ].

End Settings.

(* ================================================================== *)
(** * [src/downloader/metadata_manager.py]: the ID3 frames *)
(* ================================================================== *)

Module MetadataManager.

(** The frames the manager builds, all with [encoding=3]: the text
    frames by their identifier ([TIT2], [TPE1], ...) with the one string
    of their [text], and the three frames with further fields. *)
Inductive Frame : Type :=
| TextFrame (frame_id : string) (text : pystr)
| TXXX (desc : string) (text : pystr)
| COMM (lang desc : string) (text : pystr)
| APIC (mime : string) (type : Z) (desc : string) (data : list N).

(** The key under which a tag keeps a frame ([Frame.HashKey]). *)
Definition HashKey (frame : Frame) : string :=
  match frame with
  | TextFrame frame_id _ => frame_id
  | TXXX desc _ => "TXXX:" +:+ desc
  | COMM lang desc _ => "COMM:" +:+ desc +:+ ":" +:+ lang
  | APIC _ _ desc _ => "APIC:" +:+ desc
  end.

Section metadata_manager.

Context `{Library}.

(** [m.group()] for [m = re.search(r'\b(19|20)\d{2}\b', date_string)],
    when [m] is not [None]. *)
Variable year_search : pystr → option pystr.
(** [self._process_image(image_data)], which catches every exception. *)
Variable _process_image : list N → option (list N).

(** [int] raises [ValueError], which is caught; any other exception
    goes through. *)
Definition _extract_year (date_string : pystr) : res (option Z) :=
  match year_search date_string with
  | Some matched =>
      match py_int matched with
      | Ok year => Ok (Some year)
      | Raise ValueError => Ok None
      | Raise e => Raise e
      end
  | None => Ok None
  end.

(** The frames [_add_basic_tags] adds, in the order of its calls of
    [tags.add]. *)
Definition _add_basic_tags (metadata : AudiobookMetadata) : res (list Frame) :=
  let title_frame :=
    if truthy_str (title metadata) then [TextFrame "TIT2" (title metadata)] else [] in
  let artist_frame :=
    if truthy_str (author metadata) then [TextFrame "TPE1" (author metadata)] else [] in
  let album_name :=
    if truthy_str (title metadata) then title metadata else u "Unknown Audiobook" in
  date_frame ←
    (if truthy (publication_date metadata)
     then year ← _extract_year (default [] (publication_date metadata));
          match year with
          | Some year =>
              if year =? 0 then Ok [] else Ok [TextFrame "TDRC" (u (pretty year))]
          | None => Ok []
          end
     else Ok []);
  let genre_frame :=
    if truthy (genre metadata)
    then [TextFrame "TCON" (default [] (genre metadata))]
    else [TextFrame "TCON" (u "Audiobook")] in
  Ok (title_frame ++ artist_frame ++ [TextFrame "TALB" album_name]
        ++ date_frame ++ genre_frame).

Definition _add_custom_tags (metadata : AudiobookMetadata) : list Frame :=
  (if truthy (publisher metadata)
   then [TXXX "PUBLISHER" (default [] (publisher metadata))] else [])
  ++ (if truthy (isbn metadata) then [TXXX "ISBN" (default [] (isbn metadata))] else [])
  ++ (if truthy (duration metadata)
      then [TXXX "DURATION" (default [] (duration metadata))] else [])
  ++ (if truthy_str (url metadata) then [TXXX "SOURCE_URL" (url metadata)] else [])
  ++ (if truthy_str (language metadata)
      then [TXXX "LANGUAGE" (language metadata)] else [])
  ++ (if truthy (description metadata)
      then
        let text := default [] (description metadata) in
        let description := if len text >? 1000 then slice_to text 1000 else text in
        [COMM "fra" "Description" description]
      else []).

Definition _add_extended_tags (metadata : AudiobookMetadata) : list Frame :=
  (if truthy (narrator metadata)
   then [TextFrame "TPE3" (default [] (narrator metadata))] else [])
  ++ (if truthy (series metadata)
      then
        let series_text :=
          match series_number metadata with
          | Some number =>
              if number =? 0 then default [] (series metadata)
              else default [] (series metadata) ++ u " #" ++ u (pretty number)
          | None => default [] (series metadata)
          end in
        [TextFrame "TPOS" series_text]
      else [])
  ++ [TextFrame "TRCK" (u "1/1")]
  ++ _add_custom_tags metadata.

(** [_add_artwork], whose [try] catches what the image library raises. *)
Definition _add_artwork (image_data : list N) : list Frame :=
  match _process_image image_data with
  | Some processed_image =>
      match processed_image with
      | [] => []
      | _ => [APIC "image/jpeg" 3 "Cover" processed_image]
      end
  | None => []
  end.

(** The frames [embed_metadata] adds to the cleared tag before it
    saves the file. *)
Definition frames (metadata : AudiobookMetadata) : res (list Frame) :=
  basic ← _add_basic_tags metadata;
  let extended := _add_extended_tags metadata in
  let artwork :=
    match thumbnail_data metadata with
    | Some image_data =>
        match image_data with
        | [] => []
        | _ => _add_artwork image_data
        end
    | None => []
    end in
  Ok (basic ++ extended ++ artwork).

End metadata_manager.

End MetadataManager.

(* ================================================================== *)
(** * [src/scraper/category_scraper.py]: the parsing strategies *)
(* ================================================================== *)

Module CategoryLinks.

(** A [bs4] tag, through the calls the strategies make on it.  The type
    is inductive: the chain of the parents of a tag is finite. *)
#[warnings="-register-all"]
Inductive Tag : Type := MakeTag {
  tag_name : pystr;                          (* tag.name *)
  tag_get : pystr → option pystr;            (* tag.get(key) *)
  tag_text : pystr;                          (* tag.get_text(strip=True) *)
  find_span_text : option Tag;               (* tag.find('span', class_='text') *)
  tag_find : pystr → option Tag;             (* tag.find(name) *)
  find_all_a : list Tag;                     (* tag.find_all('a') *)
  find_all_blocks : list Tag;                (* tag.find_all(['p', 'span', 'div']) *)
  tag_select_one : pystr → res (option Tag); (* tag.select_one(selector) *)
  tag_parent : option Tag;                   (* tag.parent *)
}.

(** The parsed page, through the calls the strategies make on it. *)
Record Page : Type := {
  grid_items : list Tag;                     (* soup.find_all(class_='index-grid-item') *)
  page_select : pystr → res (list Tag);      (* soup.select(selector) *)
  page_strings : list (pystr * option Tag);  (* the strings of the page, each with its parent *)
  page_links : list Tag;                     (* soup.find_all('a') *)
}.

(** [lambda href: href and 'livres-audio' in href] on [tag.get('href')]. *)
Definition audiobook_link (link : Tag) : bool :=
  match tag_get link (u "href") with
  | Some href => truthy_str href && contains href (u "livres-audio")
  | None => false
  end.

(** [s.replace(sub, '')] for a [sub] that is not empty; [skip] counts
    the characters of an occurrence still to be dropped. *)
Fixpoint remove_all (sub : pystr) (skip : nat) (s : pystr) : pystr :=
  match s with
  | [] => []
  | c :: r =>
      match skip with
      | S skip' => remove_all sub skip' r
      | O =>
          if startswith s sub then remove_all sub (length sub - 1) r
          else c :: remove_all sub 0 r
      end
  end.

(** What a method of [_extract_title_from_link] gives: a tag or a
    string. *)
Inductive Found : Type :=
| FoundTag (tag : Tag)
| FoundStr (s : pystr).

(** [if result:] and the text taken from the result. *)
Definition found_truthy (result : Found) : bool :=
  match result with
  | FoundTag _ => true
  | FoundStr s => truthy_str s
  end.

Definition found_text (result : Found) : pystr :=
  match result with
  | FoundTag tag => tag_text tag
  | FoundStr s => s
  end.

Definition title_methods (link : Tag) : list (option Found) :=
  [ FoundTag <$> find_span_text link;
    FoundStr <$> tag_get link (u "title");
    Some (FoundStr (tag_text link));
    FoundTag <$> tag_find link (u "h1");
    FoundTag <$> tag_find link (u "h2");
    FoundTag <$> tag_find link (u "h3");
    FoundTag <$> tag_find link (u "h4");
    FoundTag <$> tag_find link (u ".title");
    FoundTag <$> tag_find link (u ".book-title") ].

(** [if text and len(text) > 2] *)
Definition long_text (text : pystr) : bool := truthy_str text && (len text >? 2).

Fixpoint first_title (results : list (option Found)) : option pystr :=
  match results with
  | [] => None
  | result :: rest =>
      match result with
      | Some found =>
          if found_truthy found && long_text (found_text found)
          then Some (found_text found)
          else first_title rest
      | None => first_title rest
      end
  end.

Fixpoint heading_title (parent : Tag) (tags : list pystr) : option pystr :=
  match tags with
  | [] => None
  | tag :: rest =>
      match tag_find parent tag with
      | Some heading =>
          if long_text (tag_text heading) then Some (tag_text heading)
          else heading_title parent rest
      | None => heading_title parent rest
      end
  end.

Definition _extract_title_from_link (link : Tag) : option pystr :=
  match first_title (title_methods link) with
  | Some text => Some text
  | None =>
      match tag_parent link with
      | Some parent => heading_title parent [u "h1"; u "h2"; u "h3"; u "h4"]
      | None => None
      end
  end.

Section strategies.

Context `{Library}.

Definition author_selectors : list pystr :=
  [ u ".author"; u ".book-author"; u ".by-author";
    u "p:contains(" ++ dq ++ u "par" ++ dq ++ u ")";
    u "span:contains(" ++ dq ++ u "par" ++ dq ++ u ")";
    u "[data-author]" ].

(** The loop over the author selectors, each in its [try]. *)
Fixpoint author_by_selector (element : Tag) (selectors : list pystr) : option pystr :=
  match selectors with
  | [] => None
  | selector :: rest =>
      match tag_select_one element selector with
      | Ok (Some author_elem) =>
          let text := tag_text author_elem in
          let text := strip (remove_all (u "by ") 0 (remove_all (u "par ") 0 text)) in
          if truthy_str text && (len text >? 1) then Some text
          else author_by_selector element rest
      | Ok None | Raise _ => author_by_selector element rest
      end
  end.

(** The innermost loop over the keywords of a sibling. *)
Fixpoint author_after (lowered : pystr) (keywords : list pystr) : option pystr :=
  match keywords with
  | [] => None
  | keyword :: rest =>
      if contains lowered keyword
      then let author := strip (default [] (after_first lowered keyword)) in
           if truthy_str author then Some (str_title author)
           else author_after lowered rest
      else author_after lowered rest
  end.

Fixpoint author_by_sibling (siblings : list Tag) : option pystr :=
  match siblings with
  | [] => None
  | sibling :: rest =>
      let text := tag_text sibling in
      if existsb (λ keyword, contains (str_lower text) keyword)
           [u "par "; u "by "; u "auteur"]
      then match author_after (str_lower text) [u "par "; u "by "; u "auteur: "] with
           | Some author => Some author
           | None => author_by_sibling rest
           end
      else author_by_sibling rest
  end.

(** The body of the loop over [search_elements]. *)
Definition author_in (element : Tag) : option pystr :=
  match author_by_selector element author_selectors with
  | Some text => Some text
  | None =>
      match tag_parent element with
      | Some parent => author_by_sibling (find_all_blocks parent)
      | None => None
      end
  end.

Definition search_elements (link : Tag) : list Tag :=
  match tag_parent link with
  | Some parent => [link; parent]
  | None => [link]
  end.

Fixpoint first_author (elements : list Tag) : option pystr :=
  match elements with
  | [] => None
  | element :: rest =>
      match author_in element with
      | Some author => Some author
      | None => first_author rest
      end
  end.

Definition _extract_author_from_link (link : Tag) : option pystr :=
  first_author (search_elements link).

Fixpoint first_thumbnail (elements : list Tag) (base_url : pystr)
  : res (option pystr) :=
  match elements with
  | [] => Ok None
  | element :: rest =>
      match tag_find element (u "img") with
      | Some img =>
          let src := or_else (tag_get img (u "src")) (tag_get img (u "data-src")) in
          if truthy src
          then joined ← urljoin base_url (default [] src); Ok (Some joined)
          else first_thumbnail rest base_url
      | None => first_thumbnail rest base_url
      end
  end.

Definition _extract_thumbnail_from_link (link : Tag) (base_url : pystr)
  : res (option pystr) :=
  first_thumbnail (search_elements link) base_url.

Fixpoint description_by_selector (element : Tag) (selectors : list pystr)
  : option pystr :=
  match selectors with
  | [] => None
  | selector :: rest =>
      match tag_select_one element selector with
      | Ok (Some desc_elem) =>
          let text := tag_text desc_elem in
          if truthy_str text && (len text >? 10) then Some text
          else description_by_selector element rest
      | Ok None | Raise _ => description_by_selector element rest
      end
  end.

Definition _extract_description_from_element (element : Tag) : option pystr :=
  description_by_selector element
    [ u ".description"; u ".summary"; u ".excerpt"; u "p.description";
      u "[data-description]" ].

(** [author = self._extract_author_from_link(link) or "Unknown Author"] *)
Definition author_or_unknown (link : Tag) : pystr :=
  let author := _extract_author_from_link link in
  if truthy author then default [] author else u "Unknown Author".

(** The body of the loops over links of [_parse_index_grid_items] and
    [_parse_generic_links]: the book to append, if any. *)
Definition book_of_link (link : Tag) (base_url : pystr) : res (option AudiobookInfo) :=
  let href := tag_get link (u "href") in
  if negb (truthy href) then Ok None
  else
    full_url ← urljoin base_url (default [] href);
    let title := _extract_title_from_link link in
    let author := author_or_unknown link in
    thumbnail_url ← _extract_thumbnail_from_link link base_url;
    if truthy title
    then Ok (Some {| info_title := default [] title;
                     info_author := author;
                     info_url := full_url;
                     info_thumbnail_url := thumbnail_url;
                     info_description := None |})
    else Ok None.

(** A loop that appends to [audiobooks] the books of [links]. *)
Fixpoint books_of_links (links : list Tag) (base_url : pystr)
    (audiobooks : list AudiobookInfo) : res (list AudiobookInfo) :=
  match links with
  | [] => Ok audiobooks
  | link :: rest =>
      book ← book_of_link link base_url;
      books_of_links rest base_url
        (match book with Some book => audiobooks ++ [book] | None => audiobooks end)
  end.

Fixpoint books_of_grid_items (items : list Tag) (base_url : pystr)
    (audiobooks : list AudiobookInfo) : res (list AudiobookInfo) :=
  match items with
  | [] => Ok audiobooks
  | item :: rest =>
      audiobooks ← books_of_links (List.filter audiobook_link (find_all_a item))
                     base_url audiobooks;
      books_of_grid_items rest base_url audiobooks
  end.

Definition _parse_index_grid_items (soup : Page) (base_url : pystr)
  : res (list AudiobookInfo) :=
  books_of_grid_items (grid_items soup) base_url [].

Definition _parse_generic_links (soup : Page) (base_url : pystr)
  : res (list AudiobookInfo) :=
  books_of_links (List.filter audiobook_link (page_links soup)) base_url [].

Definition _extract_book_info_from_element (element : Tag) (base_url : pystr)
  : res (option AudiobookInfo) :=
  match head (List.filter audiobook_link (find_all_a element)) with
  | None => Ok None
  | Some link =>
      let href := tag_get link (u "href") in
      if negb (truthy href) then Ok None
      else
        full_url ← urljoin base_url (default [] href);
        let title := _extract_title_from_link link in
        let author := author_or_unknown link in
        thumbnail_url ← _extract_thumbnail_from_link link base_url;
        let description := _extract_description_from_element element in
        if negb (truthy title) then Ok None
        else Ok (Some {| info_title := default [] title;
                         info_author := author;
                         info_url := full_url;
                         info_thumbnail_url := thumbnail_url;
                         info_description := description |})
  end.

(** The loop over the items of one selector: the list as the loop
    leaves it, and the exception that ended it, if one did. *)
Fixpoint books_of_items (items : list Tag) (base_url : pystr)
    (audiobooks : list AudiobookInfo) : list AudiobookInfo * option exn :=
  match items with
  | [] => (audiobooks, None)
  | item :: rest =>
      match _extract_book_info_from_element item base_url with
      | Ok book =>
          books_of_items rest base_url
            (match book with Some book => audiobooks ++ [book] | None => audiobooks end)
      | Raise e => (audiobooks, Some e)
      end
  end.

Definition item_selectors : list pystr :=
  [ u "article[data-type=" ++ dq ++ u "livres-audio" ++ dq ++ u "]";
    u ".livre-audio"; u ".audiobook-item";
    u "article:has(a[href*=" ++ dq ++ u "livres-audio" ++ dq ++ u "])";
    u "div:has(a[href*=" ++ dq ++ u "livres-audio" ++ dq ++ u "])" ].

(** The loop over the selectors: the first selector that matches items
    ends it, unless an exception sends it to the next selector with the
    books appended so far. *)
Fixpoint books_by_selector (soup : Page) (base_url : pystr) (selectors : list pystr)
    (audiobooks : list AudiobookInfo) : list AudiobookInfo :=
  match selectors with
  | [] => audiobooks
  | selector :: rest =>
      match page_select soup selector with
      | Ok [] | Raise _ => books_by_selector soup base_url rest audiobooks
      | Ok items =>
          match books_of_items items base_url audiobooks with
          | (audiobooks, None) => audiobooks
          | (audiobooks, Some _) => books_by_selector soup base_url rest audiobooks
          end
      end
  end.

Definition _parse_book_items (soup : Page) (base_url : pystr)
  : res (list AudiobookInfo) :=
  Ok (books_by_selector soup base_url item_selectors []).

Definition block_names : list pystr := [u "article"; u "div"; u "section"].
Definition container_names : list pystr := [u "div"; u "section"; u "article"].

Definition named (names : list pystr) (tag : Tag) : bool :=
  existsb (pystr_eqb (tag_name tag)) names.

(** [while parent and parent.name not in [...]: parent = parent.parent],
    entered with [parent]. *)
Fixpoint enclosing_block (parent : Tag) : option Tag :=
  if named block_names parent then Some parent
  else match parent with
       | MakeTag _ _ _ _ _ _ _ _ (Some above) => enclosing_block above
       | MakeTag _ _ _ _ _ _ _ _ None => None
       end.

(** The loop that widens the container while the parent is a block
    that holds a link with an [href]. *)
Fixpoint main_container (container : Tag) : Tag :=
  match container with
  | MakeTag _ _ _ _ _ _ _ _ (Some above) =>
      if named container_names above
      then
        if (0 <? Z.of_nat (length (List.filter (λ a, bool_decide (is_Some (tag_get a (u "href"))))
                                     (find_all_a above))))
        then main_container above
        else container
      else container
  | MakeTag _ _ _ _ _ _ _ _ None => container
  end.

Fixpoint books_of_strings (elements : list (pystr * option Tag)) (base_url : pystr)
    (audiobooks : list AudiobookInfo) : res (list AudiobookInfo) :=
  match elements with
  | [] => Ok audiobooks
  | (_, element_parent) :: rest =>
      match element_parent ≫= enclosing_block with
      | Some parent =>
          book ← _extract_book_info_from_element (main_container parent) base_url;
          books_of_strings rest base_url
            (match book with Some book => audiobooks ++ [book] | None => audiobooks end)
      | None => books_of_strings rest base_url audiobooks
      end
  end.

(** [lambda text: text and "Livre audio" in text] *)
Definition livre_audio_text (element : pystr * option Tag) : bool :=
  truthy_str element.1 && contains element.1 (u "Livre audio").

Definition _parse_livre_audio_sections (soup : Page) (base_url : pystr)
  : res (list AudiobookInfo) :=
  books_of_strings (List.filter livre_audio_text (page_strings soup)) base_url [].

End strategies.

End CategoryLinks.

(* ================================================================== *)
(** * [src/utils/network_utils.py]: [download_file] *)
(* ================================================================== *)

Module FileDownload.

(** What [session.get] produces for [download_file]: a response with
    its status, the value of [int(response.headers.get('Content-Length', 0))],
    the chunks [iter_chunked] yields and the exception that ends the
    stream, if one does; or an exception. *)
Inductive Connection : Type :=
| Answered (status : Z) (total_size : res Z) (chunks : list (list N))
    (broken : option exn)
| Refused (e : exn).

(** One call of the progress callback: the three arguments. *)
Definition Progress : Type := Q * Z * Z.

Section download_file.

(** [open(output_path, 'wb')] *)
Variable open_ : res unit.
(** [progress_callback], which is [None] or a function that may raise. *)
Variable progress_callback : option (Progress → res unit).

(** The body of the [async for] loop, chunk after chunk: the bytes
    written, the calls of the callback, and the exception that ended
    the loop, if one did. *)
Fixpoint write_chunks (chunks : list (list N)) (broken : option exn)
    (total_size downloaded : Z) (written : list N) (calls : list Progress)
  : list N * list Progress * option exn :=
  match chunks with
  | [] => (written, calls, broken)
  | chunk :: rest =>
      let written := written ++ chunk in
      let downloaded := downloaded + Z.of_nat (length chunk) in
      match progress_callback with
      | Some callback =>
          if total_size >? 0
          then
            let progress :=
              ((inject_Z downloaded / inject_Z total_size) * 100)%Q in
            let call := (progress, downloaded, total_size) in
            match callback call with
            | Ok _ => write_chunks rest broken total_size downloaded written
                        (calls ++ [call])
            | Raise e => (written, calls ++ [call], Some e)
            end
          else write_chunks rest broken total_size downloaded written calls
      | None => write_chunks rest broken total_size downloaded written calls
      end
  end.

(** What the function returns, the content of the file at
    [output_path] if the function opened it, and the calls of the
    callback. *)
Definition download_file (connection : Connection)
  : bool * option (list N) * list Progress :=
  match connection with
  | Refused _ => (false, None, [])
  | Answered status total_size chunks broken =>
      if negb (status =? 200) then (false, None, [])
      else
        match total_size with
        | Raise _ => (false, None, [])
        | Ok total_size =>
            match open_ with
            | Raise _ => (false, None, [])
            | Ok _ =>
                match write_chunks chunks broken total_size 0 [] [] with
                | (written, calls, None) => (true, Some written, calls)
                | (written, calls, Some _) => (false, Some written, calls)
                end
            end
        end
  end.

End download_file.

End FileDownload.

(* ================================================================== *)
(** * Further notions used to state the properties *)
(* ================================================================== *)

Module Behaviours.

(** The name [sanitize_filename] has made before it looks at the
    length. *)
Definition cleaned (nfkd : pystr → pystr) (filename : pystr) : pystr :=
  let filename :=
    strip_chars space_or_dot
      (collapse_runs false (remove_control (replace_invalid (nfkd filename)))) in
  if truthy_str filename then filename else u "untitled".

(** What holds of the trace of a run that made a request: it ends with
    a request and has fewer sleeps than requests. *)
Definition paced (tr : list Event) : Prop :=
  tr = [] ∨ (last tr = Some Request ∧ (length (sleeps tr) < requests tr)%nat).

(** A reply that [safe_request] answers with a back-off and another
    attempt: a status from 500 on, or one of the two exceptions it
    catches. *)
Definition transient (reply : Reply) : Prop :=
  match reply with
  | HttpResponse status _ _ => 500 ≤ status
  | ClientError | TimeoutError => True
  | Uncaught _ => False
  end.

(** The reply of [aiohttp] that corresponds to a reply of [requests]. *)
Definition as_async (reply : SyncReply) : Reply :=
  match reply with
  | SyncResponse status_code retry_after text => HttpResponse status_code retry_after text
  | RequestFailed => ClientError
  | SyncUncaught e => Uncaught e
  end.

(** The wait after a 429 answer: the [Retry-After] header when there is
    one, the back-off delay otherwise. *)
Definition wait_time (delay : Q) (retry_after : option Q) (attempt : nat) : Q :=
  default (delay * inject_Z (2 ^ Z.of_nat attempt))%Q retry_after.

(** One attempt of [RequestsSession._request] that is retried. *)
Definition session_round (attempt : nat) : list Event :=
  [Request; Sleep (inject_Z (2 ^ Z.of_nat attempt))].

(** The strings of a response that are the value of an object member,
    in the order a depth-first traversal meets them. *)
Fixpoint member_strings (x : json) : list pystr :=
  match x with
  | JList xs => flat_map member_strings xs
  | JDict kvs =>
      flat_map (λ kv, match kv.2 with
                      | JStr s => [s]
                      | JList _ | JDict _ => member_strings kv.2
                      | _ => []
                      end) kvs
  | _ => []
  end.

(** One step of the loop of [_clean_title]. *)
Definition remove_suffix (title suffix : pystr) : pystr :=
  if endswith title suffix then slice_to title (- len suffix) else title.

(** The collaborator calls a call of [_process_single_audiobook] may
    make, by the counter it ends in: none when the file is skipped; the
    download, followed by the tagging when [embed_metadata] is set, when
    the file is downloaded; none or the download alone when it fails. *)
Definition orderly (embed : bool) (key : string) (cs : list Call) : Prop :=
  if decide (key = "skipped") then cs = []
  else if decide (key = "downloaded")
  then ∃ playlist_url title author file,
         cs = DownloadAudiobook playlist_url title author
              :: (if embed then [EmbedMetadata file] else [])
  else cs = [] ∨ ∃ playlist_url title author,
                   cs = [DownloadAudiobook playlist_url title author].

(** The keys of the frames the metadata manager can add, in the order
    in which it adds them. *)
Definition frame_keys : list string :=
  [ "TIT2"; "TPE1"; "TALB"; "TDRC"; "TCON"; "TPE3"; "TPOS"; "TRCK";
    "TXXX:PUBLISHER"; "TXXX:ISBN"; "TXXX:DURATION"; "TXXX:SOURCE_URL";
    "TXXX:LANGUAGE"; "COMM:Description:fra"; "APIC:Cover" ].

(** What every entry of the catalogue is: a title of more than two
    characters, an author, and the URL that [urljoin] makes of the
    [href] of a link to an audiobook page. *)
Definition listed `{Library} (base_url : pystr) (book : AudiobookInfo) : Prop :=
  2 < len (info_title book)
  ∧ info_author book ≠ []
  ∧ ∃ href, href ≠ []
            ∧ contains href (u "livres-audio") = true
            ∧ urljoin base_url href = Ok (info_url book).

(** A call of the progress callback of [download_file] that reports, as
    the bytes downloaded, the size of the first chunks of the body. *)
Definition running_count (chunks : list (list N)) (call : FileDownload.Progress) : Prop :=
  ∃ k, call.1.2 = Z.of_nat (length (concat (take k chunks))).

End Behaviours.
Import Behaviours.

(* ================================================================== *)
(** * Further sample values *)
(* ================================================================== *)

Module Examples.

(** [str.isalnum] on Latin-1 text. *)
Definition isalnum (s : pystr) : bool :=
  truthy_str s && forallb (λ c, Latin1.is_word c && negb (c =? 95)%N) s.

(** [Path.stem] and [Path.suffix] of a file name: the name is cut at its
    last dot when that dot is neither its first nor its last character. *)
Definition suffix (name : pystr) : pystr :=
  match rsplit1 46 name with
  | Some (before, after) =>
      if truthy_str before && truthy_str after then u "." ++ after else []
  | None => []
  end.

Definition stem (name : pystr) : pystr :=
  match rsplit1 46 name with
  | Some (before, after) =>
      if truthy_str before && truthy_str after then before else name
  | None => name
  end.

(** A download directory that holds [a.mp3] and [a_1.mp3]. *)
Definition listing : gset Path :=
  {[ (u "downloads", u "a.mp3"); (u "downloads", u "a_1.mp3") ]}.

(** A file system whose names have at most 255 characters: [os.stat]
    raises [OSError] (file name too long) for a longer one. *)
Definition name_too_long (file_path : Path) : option exn :=
  if 255 <? len file_path.2 then Some OSError else None.

(** A server that fails twice, with a 503 and then a time-out, and
    then answers. *)
Definition flaky (attempt : nat) : Reply :=
  match attempt with
  | 0%nat => HttpResponse 503 None []
  | 1%nat => TimeoutError
  | _ => HttpResponse 200 None (u "page")
  end.

(** A server that always answers 429, the first time with the header
    [Retry-After: 5]. *)
Definition throttled_header (attempt : nat) : option Q :=
  match attempt with 0%nat => Some 5%Q | _ => None end.
Definition throttled (attempt : nat) : Reply :=
  HttpResponse 429 (Some <$> throttled_header attempt) [].

(** The same for [requests]: a 503, a failed request, then the page. *)
Definition flaky_sync (attempt : nat) : SyncReply :=
  match attempt with
  | 0%nat => SyncResponse 503 None []
  | 1%nat => RequestFailed
  | _ => SyncResponse 200 None (u "page")
  end.

(** A server that answers 429 with the header [Retry-After: -1]. *)
Definition hurried (attempt : nat) : SyncReply :=
  SyncResponse 429 (Some (Some (-1)%Q)) [].

(** The waits that a clock of 64 bits in nanoseconds cannot hold. *)
Definition beyond_clock (seconds : Q) : bool :=
  negb (Qle_bool (-inject_Z (2 ^ 63)) (seconds * 1000000000)
        && Qle_bool (seconds * 1000000000) (inject_Z (2 ^ 63))).

(** Sessions whose every request fails, and whose every request is
    answered 503. *)
Definition failing_session : nat → SessionReply := λ _, SessionFailed.
Definition unavailable_session : nat → SessionReply :=
  λ _, Responded {| response_status := 503; response_text := [] |}.

(** A page of the catalogue with one link, to an audiobook; nothing else
    is found on it. *)
Definition alice_link : CategoryLinks.Tag := {|
  CategoryLinks.tag_name := u "a";
  CategoryLinks.tag_get key :=
    if decide (key = u "href") then Some (u "/ohdio/livres-audio/1/alice") else None;
  CategoryLinks.tag_text := u "Alice";
  CategoryLinks.find_span_text := None;
  CategoryLinks.tag_find _ := None;
  CategoryLinks.find_all_a := [];
  CategoryLinks.find_all_blocks := [];
  CategoryLinks.tag_select_one _ := Ok None;
  CategoryLinks.tag_parent := None;
|}.

Definition catalogue : CategoryLinks.Page := {|
  CategoryLinks.grid_items := [];
  CategoryLinks.page_select _ := Ok [];
  CategoryLinks.page_strings := [];
  CategoryLinks.page_links := [alice_link];
|}.

Definition alice : AudiobookInfo := {|
  info_title := u "Alice";
  info_author := u "Unknown Author";
  info_url := u "/ohdio/livres-audio/1/alice";
  info_thumbnail_url := None;
  info_description := None;
|}.

End Examples.

(* ================================================================== *)
(** * File names: [sanitize_filename] and [format_audiobook_filename] *)
(* ================================================================== *)

Section sanitize_facts.

(** ** Stripping *)

Lemma lstrip_drop p s : ∃ k, lstrip p s = drop k s.
Proof.
  induction s as [|c r [k IH]]; simpl.
  - by exists 0%nat.
  - destruct (p c); [by exists (S k) | by exists 0%nat].
Qed.

Lemma rstrip_take p s : ∃ k, rstrip p s = take k s.
Proof.
  induction s as [|c r [k IH]]; simpl.
  - by exists 0%nat.
  - destruct (rstrip p r) as [|c' r'] eqn:E.
    + destruct (p c); [by exists 0%nat | by exists 1%nat; destruct r].
    + exists (S k). simpl. by rewrite <- IH.
Qed.

Lemma lstrip_head p s c r : lstrip p s = c :: r → p c = false.
Proof.
  induction s as [|a s IH]; simpl; [done|].
  destruct (p a) eqn:E; [done|]. intros [= -> _]. done.
Qed.

Lemma lstrip_id p c r : p c = false → lstrip p (c :: r) = c :: r.
Proof. intros Hc. simpl. by rewrite Hc. Qed.

Lemma lstrip_app p s t :
  Exists (λ c, p c = false) s → lstrip p (s ++ t) = lstrip p s ++ t.
Proof.
  induction 1 as [c r Hc | c r _ IH]; simpl.
  - by rewrite Hc.
  - destruct (p c); [done | done].
Qed.

Lemma lstrip_keeps p s :
  Exists (λ c, p c = false) s → lstrip p s ≠ [].
Proof.
  induction 1 as [c r Hc | c r _ IH]; simpl.
  - by rewrite Hc.
  - by destruct (p c).
Qed.

Lemma rstrip_snoc p s c : p c = false → rstrip p (s ++ [c]) = s ++ [c].
Proof.
  intros Hc. induction s as [|a s IH]; simpl.
  - by rewrite Hc.
  - rewrite IH. by destruct s.
Qed.

Lemma strip_chars_id p c s d :
  p c = false → p d = false → strip_chars p (c :: s ++ [d]) = c :: s ++ [d].
Proof.
  intros Hc Hd. unfold strip_chars. rewrite lstrip_id by done.
  by apply (rstrip_snoc p (c :: s) d).
Qed.

Lemma Forall_lstrip (P : N → Prop) p s : Forall P s → Forall P (lstrip p s).
Proof. destruct (lstrip_drop p s) as [k ->]. apply Forall_drop. Qed.

Lemma Forall_rstrip (P : N → Prop) p s : Forall P s → Forall P (rstrip p s).
Proof. destruct (rstrip_take p s) as [k ->]. apply Forall_take. Qed.

Lemma Forall_strip_chars (P : N → Prop) p s : Forall P s → Forall P (strip_chars p s).
Proof. intros. by apply Forall_rstrip, Forall_lstrip. Qed.

(** ** Splitting at the last dot *)

Lemma rsplit1_none sep s : sep ∉ s → rsplit1 sep s = None.
Proof.
  induction s as [|c r IH]; simpl; [done|].
  intros Hn. rewrite IH by set_solver.
  destruct (N.eqb_spec c sep); [set_solver | done].
Qed.

Lemma rsplit1_last sep a b : sep ∉ b → rsplit1 sep (a ++ sep :: b) = Some (a, b).
Proof.
  intros Hb. induction a as [|c a IH]; simpl.
  - rewrite rsplit1_none by done. by rewrite N.eqb_refl.
  - by rewrite IH.
Qed.

Lemma rsplit1_parts sep s a b :
  rsplit1 sep s = Some (a, b) → s = a ++ sep :: b.
Proof.
  revert a b. induction s as [|c r IH]; simpl; [done|].
  intros a b. destruct (rsplit1 sep r) as [[a' b']|] eqn:E.
  - intros [= <- <-]. by rewrite (IH a' b').
  - destruct (N.eqb_spec c sep); [|done]. by intros [= <- <-]; subst.
Qed.

(** ** The three substitutions *)

Lemma settled_weaken b s : settled b s → settled false s.
Proof.
  destruct s as [|c r]; simpl; [done|].
  destruct (space_or_underscore c); [|done]. intros (? & ? & ?); done.
Qed.

Lemma settled_collapse b s : settled b (collapse_runs b s).
Proof.
  revert b. induction s as [|c r IH]; intros b; simpl; [done|].
  destruct (space_or_underscore c) eqn:E.
  - destruct b; [apply IH|]. simpl. split_and!; [done..|apply IH].
  - simpl. rewrite E. apply IH.
Qed.

Lemma collapse_settled b s : settled b s → collapse_runs b s = s.
Proof.
  revert b. induction s as [|c r IH]; intros b; simpl; [done|].
  destruct (space_or_underscore c).
  - intros (-> & -> & Hr). by rewrite IH.
  - intros Hr. by rewrite IH.
Qed.

Lemma settled_take b n s : settled b s → settled b (take n s).
Proof.
  revert b n. induction s as [|c r IH]; intros b [|n]; simpl; try done.
  destruct (space_or_underscore c).
  - intros (? & ? & ?). split_and!; [done..|by apply IH].
  - apply IH.
Qed.

Lemma settled_drop b n s : settled b s → settled false (drop n s).
Proof.
  revert b n. induction s as [|c r IH]; intros b [|n]; simpl; try done.
  - apply (settled_weaken b (c :: r)).
  - destruct (space_or_underscore c).
    + intros (? & ? & ?). by eapply IH.
    + apply IH.
Qed.

Lemma settled_app b s c t :
  space_or_underscore c = false → settled b s → settled false t →
  settled b (s ++ c :: t).
Proof.
  intros Hc. revert b. induction s as [|a s IH]; intros b; simpl.
  - by rewrite Hc.
  - destruct (space_or_underscore a).
    + intros (? & ? & ?) ?. split_and!; [done..|by apply IH].
    + intros. by apply IH.
Qed.

Lemma collapse_app b s c t :
  space_or_underscore c = false →
  collapse_runs b (s ++ c :: t) = collapse_runs b s ++ c :: collapse_runs false t.
Proof.
  intros Hc. revert b. induction s as [|a s IH]; intros b; simpl.
  - by rewrite Hc.
  - destruct (space_or_underscore a); [destruct b|]; by rewrite IH.
Qed.

Lemma collapse_keeps b s c :
  space_or_underscore c = false → c ∈ s → c ∈ collapse_runs b s.
Proof.
  intros Hc. revert b. induction s as [|a s IH]; intros b; [by rewrite elem_of_nil|].
  rewrite elem_of_cons. simpl. intros [<- | Hin].
  - rewrite Hc. by left.
  - destruct (space_or_underscore a); [destruct b|]; set_solver.
Qed.

Lemma Forall_collapse (P : N → Prop) b s :
  P 95%N → Forall P s → Forall P (collapse_runs b s).
Proof.
  intros H95 Hs. revert b. induction Hs as [|c r Hc Hr IH]; intros b; simpl; [done|].
  destruct (space_or_underscore c); [destruct b|]; auto.
Qed.

Lemma collapse_no_space b s : Forall (λ c, c ≠ 32%N) (collapse_runs b s).
Proof.
  revert b. induction s as [|c r IH]; intros b; simpl; [done|].
  destruct (space_or_underscore c) eqn:E; [destruct b|]; auto.
  constructor; [|done]. intros ->. done.
Qed.

Lemma replace_invalid_valid s : Forall (λ c, invalid_char c = false) (replace_invalid s).
Proof.
  unfold replace_invalid. induction s as [|c r IH]; simpl; [done|].
  constructor; [|done]. by destruct (invalid_char c) eqn:E.
Qed.

Lemma replace_invalid_id s :
  Forall (λ c, invalid_char c = false) s → replace_invalid s = s.
Proof.
  unfold replace_invalid. induction 1 as [|c r Hc _ IH]; simpl; [done|].
  by rewrite Hc, IH.
Qed.

Lemma remove_control_id s :
  Forall (λ c, control_char c = false) s → remove_control s = s.
Proof.
  unfold remove_control. induction 1 as [|c r Hc _ IH]; simpl; [done|].
  by rewrite Hc, IH.
Qed.

Lemma Forall_remove_control (P : N → Prop) s : Forall P s → Forall P (remove_control s).
Proof.
  unfold remove_control. induction 1 as [|c r Hc _ IH]; simpl; [done|].
  destruct (control_char c); simpl; auto.
Qed.

Lemma remove_control_clean s : Forall (λ c, control_char c = false) (remove_control s).
Proof.
  unfold remove_control. induction s as [|c r IH]; simpl; [done|].
  destruct (control_char c) eqn:E; simpl; auto.
Qed.


(** ** [sanitize_filename] *)

Lemma Forall_slice_to (P : N → Prop) s k : Forall P s → Forall P (slice_to s k).
Proof. unfold slice_to. destruct (0 <=? k); apply Forall_take. Qed.

Lemma truncate_valid s ml : Forall valid_char s → Forall valid_char (truncate s ml).
Proof.
  intros Hs. unfold truncate.
  destruct (rsplit1 46 s) as [[name ext]|] eqn:E; [|by apply Forall_slice_to].
  destruct (len ext <=? 10); [|by apply Forall_slice_to].
  apply rsplit1_parts in E. subst s.
  apply Forall_app in Hs as [Hn He]. apply Forall_cons in He as [_ He].
  apply Forall_app. split; [by apply Forall_slice_to|].
  apply Forall_app. split; [|done]. vm_compute. by repeat constructor.
Qed.

Lemma sanitize_valid nfkd f ml : Forall valid_char (sanitize_filename nfkd f ml).
Proof.
  unfold sanitize_filename.
  set (c := strip_chars _ _).
  assert (Hc : Forall valid_char c).
  { apply Forall_strip_chars, Forall_collapse; [done|].
    apply Forall_remove_control, replace_invalid_valid. }
  assert (Hc' : Forall valid_char (if truthy_str c then c else u "untitled")).
  { destruct (truthy_str c); [done|]. vm_compute. by repeat constructor. }
  destruct (_ >? ml); [by apply truncate_valid | done].
Qed.

Lemma sanitize_stable nfkd s : stable nfkd s → sanitize_filename nfkd s 255 = s.
Proof.
  intros [Hn Hc Hr (c & m & d & Hs & Hhd & Hlast) Hl].
  unfold sanitize_filename. rewrite Hn.
  rewrite replace_invalid_id by (eapply Forall_impl; [done|]; by intros ? (? & ? & ?)).
  rewrite remove_control_id by (eapply Forall_impl; [done|]; by intros ? (? & ? & ?)).
  rewrite collapse_settled by done.
  assert (strip_chars space_or_dot s = s) as ->
    by (rewrite Hs; by apply strip_chars_id).
  replace (truthy_str s) with true by (by rewrite Hs).
  destruct (Z.gtb_spec (len s) 255); [lia | done].
Qed.


(** The substitutions and the strip on a name [body ++ ".mp3"] whose body
    holds a hyphen: the extension stays, and what is left of the body
    starts with a character the strip keeps. *)
Lemma core_shape body :
  45%N ∈ body →
  ∃ c m,
    strip_chars space_or_dot
      (collapse_runs false (remove_control (replace_invalid (body ++ u ".mp3"))))
    = (c :: m) ++ u ".mp3"
    ∧ space_or_dot c = false
    ∧ Forall clean_char (c :: m)
    ∧ settled false (c :: m)
    ∧ (∀ P : N → Prop, P 95%N → Forall P body → Forall P (c :: m)).
Proof.
  intros Hin.
  set (X := collapse_runs false (remove_control (replace_invalid body))).
  assert (HX : collapse_runs false (remove_control (replace_invalid (body ++ u ".mp3")))
               = X ++ u ".mp3").
  { unfold replace_invalid, remove_control. rewrite List.map_app, List.filter_app.
    change (List.filter _ (List.map _ (u ".mp3"))) with (46%N :: u "mp3").
    by rewrite collapse_app. }
  assert (H45 : 45%N ∈ X).
  { apply collapse_keeps; [done|]. unfold remove_control, replace_invalid.
    apply list_elem_of_In, List.filter_In. split; [|done].
    apply List.in_map_iff. exists 45%N. split; [done|]. by apply list_elem_of_In. }
  assert (HE : Exists (λ c, space_or_dot c = false) X).
  { apply Exists_exists. by exists 45%N. }
  destruct (lstrip space_or_dot X) as [|c m] eqn:EY.
  { by apply lstrip_keeps in HE. }
  exists c, m. rewrite HX. split_and!.
  - unfold strip_chars. rewrite lstrip_app, EY by done.
    replace ((c :: m) ++ u ".mp3") with (((c :: m) ++ u ".mp") ++ [51%N])
      by (by rewrite <- app_assoc).
    by apply rstrip_snoc.
  - by eapply lstrip_head.
  - rewrite <- EY. apply Forall_lstrip. unfold X.
    apply Forall_forall. intros x Hx. split_and!.
    + revert x Hx. apply Forall_forall, Forall_collapse; [done|].
      apply Forall_remove_control, replace_invalid_valid.
    + revert x Hx. apply Forall_forall, Forall_collapse; [done|].
      apply remove_control_clean.
    + revert x Hx. apply Forall_forall, collapse_no_space.
  - rewrite <- EY. destruct (lstrip_drop space_or_dot X) as [k ->].
    eapply settled_drop, settled_collapse.
  - intros P H95 Hb. rewrite <- EY. apply Forall_lstrip, Forall_collapse; [done|].
    apply Forall_remove_control. unfold replace_invalid.
    apply Forall_forall. intros x Hx. apply list_elem_of_In, List.in_map_iff in Hx.
    destruct Hx as (y & <- & Hy). destruct (invalid_char y); [done|].
    rewrite Forall_forall in Hb. by apply Hb, list_elem_of_In.
Qed.

Lemma truncate_mp3 Y :
  truncate (Y ++ u ".mp3") 255 = take 251 Y ++ u ".mp3".
Proof.
  unfold truncate. change (Y ++ u ".mp3") with (Y ++ 46%N :: u "mp3").
  rewrite rsplit1_last
    by (intros Hin%list_elem_of_In; vm_compute in Hin; intuition discriminate).
  done.
Qed.

Lemma ascii_strip s : Forall is_ascii s → Forall is_ascii (strip s).
Proof. apply Forall_strip_chars. Qed.

Lemma format_stable nfkd title author :
  (∀ s, Forall is_ascii s → nfkd s = s) →
  Forall is_ascii title → Forall is_ascii author →
  stable nfkd (format_audiobook_filename nfkd title author (u "mp3")).
Proof.
  intros Hn Ht Ha. unfold format_audiobook_filename.
  set (t := if truthy_str (strip title) then strip title else u "Unknown Title").
  set (a := if truthy_str (strip author) then strip author else u "Unknown Author").
  assert (Ht' : Forall is_ascii t).
  { unfold t. destruct (truthy_str (strip title)); [by apply ascii_strip|].
    vm_compute. by repeat constructor. }
  assert (Ha' : Forall is_ascii a).
  { unfold a. destruct (truthy_str (strip author)); [by apply ascii_strip|].
    vm_compute. by repeat constructor. }
  set (body := a ++ u " - " ++ t).
  assert (Hb : Forall is_ascii body).
  { unfold body. rewrite !Forall_app. split_and!; [done| |done].
    vm_compute. by repeat constructor. }
  replace (a ++ u " - " ++ t ++ u "." ++ u "mp3") with (body ++ u ".mp3")
    by (unfold body; by rewrite <- !app_assoc).
  assert (H45 : 45%N ∈ body).
  { unfold body. rewrite !elem_of_app. right; left. vm_compute. set_solver. }
  destruct (core_shape body H45) as (c & m & Hcore & Hc & Hclean & Hset & Hall).
  assert (HY : Forall is_ascii (c :: m)) by (by apply Hall).
  unfold sanitize_filename. rewrite Hn
    by (apply Forall_app; split; [done|]; vm_compute; by repeat constructor).
  rewrite Hcore. simpl truthy_str. cbv iota.
  assert (Hmp3 : ∀ Y, Forall is_ascii Y → Forall clean_char Y → settled false Y →
            ∀ c' m', Y = c' :: m' → space_or_dot c' = false → len (Y ++ u ".mp3") ≤ 255 →
            stable nfkd (Y ++ u ".mp3")).
  { intros Y HYa HYc HYs c' m' -> Hc' Hlen. split.
    - apply Hn, Forall_app. split; [done|]. vm_compute. by repeat constructor.
    - apply Forall_app. split; [done|]. vm_compute. by repeat constructor.
    - change (u ".mp3") with (46%N :: u "mp3"). apply settled_app; done.
    - exists c', (m' ++ u ".mp"), 51%N. split_and!; [|done..].
      by rewrite <- !app_assoc.
    - done. }
  destruct (Z.gtb_spec (len ((c :: m) ++ u ".mp3")) 255) as [Hgt|Hle].
  - rewrite truncate_mp3.
    unfold len in Hgt. rewrite length_app in Hgt.
    change (length (u ".mp3")) with 4%nat in Hgt.
    destruct (take 251 (c :: m)) as [|c' m'] eqn:ET; [done|].
    injection ET as <- <-.
    eapply (Hmp3 (c :: take 250 m)); [| | |done|done|].
    + by apply (Forall_take _ 251 (c :: m)).
    + by apply (Forall_take _ 251 (c :: m)).
    + by apply (settled_take false 251 (c :: m)).
    + unfold len. rewrite length_app. simpl length. rewrite length_take.
      simpl length in Hgt. lia.
  - by eapply Hmp3.
Qed.

End sanitize_facts.

(** ** Normalised names *)

Section normal_facts.

Variable nfkd : pystr → pystr.
Hypothesis Hnorm : normalisation nfkd.

Lemma nfkd_ascii_head c s : is_ascii c → nfkd (c :: s) = c :: nfkd s.
Proof.
  intros Hc. pose proof (nfkd_ascii nfkd Hnorm [] c s Hc) as Hsplit.
  by rewrite (nfkd_nil nfkd Hnorm) in Hsplit.
Qed.

Lemma nfkd_ascii_prefix m s : Forall is_ascii m → nfkd (m ++ s) = m ++ nfkd s.
Proof.
  induction 1 as [|c m Hc _ IH]; [done|]. cbn [app].
  by rewrite nfkd_ascii_head, IH.
Qed.

Lemma nfkd_ascii_string s : Forall is_ascii s → nfkd s = s.
Proof.
  intros Hs. rewrite <- (app_nil_r s) at 1.
  by rewrite nfkd_ascii_prefix, (nfkd_nil nfkd Hnorm), app_nil_r.
Qed.

Lemma normal_join s1 c s2 :
  is_ascii c → nfkd s1 = s1 → nfkd s2 = s2 → nfkd (s1 ++ c :: s2) = s1 ++ c :: s2.
Proof. intros Hc H1 H2. by rewrite (nfkd_ascii nfkd Hnorm), H1, H2. Qed.

Lemma normal_split s1 c s2 :
  is_ascii c → nfkd (s1 ++ c :: s2) = s1 ++ c :: s2 → nfkd s1 = s1 ∧ nfkd s2 = s2.
Proof.
  intros Hc Hn.
  assert (nfkd s1 = s1) as H1.
  { pose proof (nfkd_prefix nfkd Hnorm _ (length s1) Hn) as Hp.
    by rewrite take_app_length in Hp. }
  split; [done|].
  rewrite (nfkd_ascii nfkd Hnorm), H1 in Hn by done.
  apply app_inv_head in Hn. by injection Hn.
Qed.

Lemma normal_words s1 m s2 :
  Forall is_ascii m → m ≠ [] → nfkd s1 = s1 → nfkd s2 = s2 →
  nfkd (s1 ++ m ++ s2) = s1 ++ m ++ s2.
Proof.
  intros Hm Hne H1 H2. destruct m as [|c m]; [done|].
  apply Forall_cons in Hm as [Hc Hm]. cbn [app].
  apply normal_join; [done..|]. by rewrite nfkd_ascii_prefix, H2.
Qed.

Lemma invalid_char_ascii c : invalid_char c = true → is_ascii c.
Proof.
  unfold invalid_char, is_ascii. intros Hc.
  repeat (apply orb_true_iff in Hc as [Hc|Hc]);
    apply N.eqb_eq in Hc; subst c; by vm_compute.
Qed.

(** An operation that touches ASCII characters only keeps a normalised
    text normalised; [w] is the run of other characters just read. *)
Lemma replace_invalid_normal_aux s :
  ∀ w, Forall (λ c, ¬ is_ascii c) w →
       nfkd (w ++ s) = w ++ s → nfkd (w ++ replace_invalid s) = w ++ replace_invalid s.
Proof.
  induction s as [|c r IH]; intros w Hw Hn; [done|].
  cbn [replace_invalid List.map]. fold (replace_invalid r).
  destruct (decide (is_ascii c)) as [Hc|Hc].
  - apply normal_split in Hn as [H1 H2]; [|done].
    apply normal_join; [| done | by apply (IH [])].
    destruct (invalid_char c); [by vm_compute | done].
  - replace (invalid_char c) with false.
    + replace (w ++ c :: replace_invalid r) with ((w ++ [c]) ++ replace_invalid r)
        by (by rewrite <- app_assoc).
      apply IH; [apply Forall_app; split; [done | by apply Forall_singleton]|].
      by rewrite <- app_assoc.
    + destruct (invalid_char c) eqn:Hinv; [|done].
      by apply invalid_char_ascii in Hinv.
Qed.

Lemma replace_invalid_normal s : nfkd s = s → nfkd (replace_invalid s) = replace_invalid s.
Proof. apply (replace_invalid_normal_aux s []). constructor. Qed.

Lemma space_or_underscore_ascii c : space_or_underscore c = true → is_ascii c.
Proof.
  unfold space_or_underscore, is_ascii.
  destruct (N.eqb_spec c 32) as [->|_]; [by vm_compute|].
  destruct (N.eqb_spec c 95) as [->|_]; [by vm_compute | done].
Qed.

Lemma collapse_normal_aux s :
  ∀ b w, Forall (λ c, ¬ is_ascii c) w → (b = true → w = []) →
         nfkd (w ++ s) = w ++ s →
         nfkd (w ++ collapse_runs b s) = w ++ collapse_runs b s.
Proof.
  induction s as [|c r IH]; intros b w Hw Hb Hn; [done|].
  cbn [collapse_runs].
  destruct (space_or_underscore c) eqn:Hsu.
  - pose proof (space_or_underscore_ascii c Hsu) as Hc.
    apply normal_split in Hn as [H1 H2]; [|done].
    destruct b.
    + rewrite (Hb eq_refl). by apply (IH true []).
    + apply normal_join; [by vm_compute | done | by apply (IH true [])].
  - destruct (decide (is_ascii c)) as [Hc|Hc].
    + apply normal_split in Hn as [H1 H2]; [|done].
      apply normal_join; [done | done | by apply (IH false [])].
    + replace (w ++ c :: collapse_runs false r)
        with ((w ++ [c]) ++ collapse_runs false r) by (by rewrite <- app_assoc).
      apply IH; [apply Forall_app; split; [done | by apply Forall_singleton] | done |].
      by rewrite <- app_assoc.
Qed.

Lemma collapse_normal b s : nfkd s = s → nfkd (collapse_runs b s) = collapse_runs b s.
Proof.
  destruct b.
  - by apply (collapse_normal_aux s true []).
  - by apply (collapse_normal_aux s false []).
Qed.

Lemma space_or_dot_ascii c : space_or_dot c = true → is_ascii c.
Proof.
  unfold space_or_dot, is_ascii.
  destruct (N.eqb_spec c 32) as [->|_]; [by vm_compute|].
  destruct (N.eqb_spec c 46) as [->|_]; [by vm_compute | done].
Qed.

Lemma strip_normal s :
  nfkd s = s → nfkd (strip_chars space_or_dot s) = strip_chars space_or_dot s.
Proof.
  intros Hn. unfold strip_chars.
  destruct (rstrip_take space_or_dot (lstrip space_or_dot s)) as [k ->].
  apply (nfkd_prefix nfkd Hnorm). clear k.
  induction s as [|c r IH]; [done|]. cbn [lstrip].
  destruct (space_or_dot c) eqn:Hc; [|done].
  apply IH. apply (normal_split [] c r); [by apply space_or_dot_ascii | done].
Qed.

Lemma remove_control_app s t :
  remove_control (s ++ t) = remove_control s ++ remove_control t.
Proof. unfold remove_control. apply List.filter_app. Qed.

Lemma replace_invalid_app s t :
  replace_invalid (s ++ t) = replace_invalid s ++ replace_invalid t.
Proof. unfold replace_invalid. apply List.map_app. Qed.

Lemma replace_invalid_no_control s :
  Forall (λ c, control_char c = false) s →
  Forall (λ c, control_char c = false) (replace_invalid s).
Proof.
  unfold replace_invalid. induction 1 as [|c r Hc _ IH]; [done|]. cbn [List.map].
  constructor; [|done]. by destruct (invalid_char c).
Qed.

Lemma replace_invalid_ascii s :
  Forall is_ascii s → Forall is_ascii (replace_invalid s).
Proof.
  unfold replace_invalid. induction 1 as [|c r Hc _ IH]; [done|]. cbn [List.map].
  constructor; [|done]. destruct (invalid_char c); [by vm_compute | done].
Qed.

(** The title and the author, once the invalid characters are replaced
    and the control characters deleted. *)
Lemma plain_part s :
  plain s → nfkd (remove_control (replace_invalid (nfkd s)))
            = remove_control (replace_invalid (nfkd s)).
Proof.
  intros [Hascii | Hclean].
  - rewrite (nfkd_ascii_string s) by done.
    by apply nfkd_ascii_string, Forall_remove_control, replace_invalid_ascii.
  - rewrite remove_control_id.
    + apply replace_invalid_normal, (nfkd_idempotent nfkd Hnorm).
    + by apply replace_invalid_no_control, (nfkd_control nfkd Hnorm).
Qed.

Lemma nfkd_words s1 m s2 :
  Forall is_ascii m → m ≠ [] → nfkd (s1 ++ m ++ s2) = nfkd s1 ++ m ++ nfkd s2.
Proof.
  intros Hm Hne. destruct m as [|c m]; [done|].
  apply Forall_cons in Hm as [Hc Hm]. cbn [app].
  by rewrite (nfkd_ascii nfkd Hnorm), nfkd_ascii_prefix.
Qed.

(** The text [sanitize_filename] normalises first, for the name that
    [format_audiobook_filename] builds. *)
Lemma nfkd_filename a t :
  nfkd (a ++ u " - " ++ t ++ u "." ++ u "mp3")
  = (nfkd a ++ u " - " ++ nfkd t) ++ u ".mp3".
Proof.
  rewrite (nfkd_words a (u " - ")) by (vm_compute; by repeat constructor).
  rewrite (nfkd_words t (u ".") (u "mp3")) by (vm_compute; by repeat constructor).
  rewrite (nfkd_ascii_string (u "mp3")) by (vm_compute; by repeat constructor).
  by rewrite <- !app_assoc.
Qed.

(** The name is normalised when deleting the control characters leaves
    a normalised text. *)
Lemma sanitized_normal filename body :
  nfkd filename = body ++ u ".mp3" →
  45%N ∈ body →
  nfkd (remove_control (replace_invalid (body ++ u ".mp3")))
  = remove_control (replace_invalid (body ++ u ".mp3")) →
  nfkd (sanitize_filename nfkd filename 255) = sanitize_filename nfkd filename 255.
Proof.
  intros Hfile H45 Hn. unfold sanitize_filename. rewrite Hfile.
  apply (collapse_normal false), strip_normal in Hn.
  destruct (core_shape body H45) as (c & m & Hcore & _).
  rewrite Hcore in *. simpl truthy_str. cbv iota.
  destruct (Z.gtb_spec (len ((c :: m) ++ u ".mp3")) 255) as [Hgt|Hle]; [|done].
  rewrite truncate_mp3.
  unfold len in Hgt. rewrite length_app in Hgt.
  change (length (u ".mp3")) with 4%nat in Hgt.
  assert (nfkd (take 251 (c :: m)) = take 251 (c :: m)) as Hshort.
  { rewrite <- (take_app_le (c :: m) (u ".mp3") 251) by lia.
    by apply (nfkd_prefix nfkd Hnorm). }
  rewrite <- (app_nil_r (u ".mp3")).
  apply normal_words; [vm_compute; by repeat constructor | done | done |].
  apply (nfkd_nil nfkd Hnorm).
Qed.

Lemma plain_strip (default : pystr) s :
  Forall is_ascii default → plain s →
  plain (if truthy_str (strip s) then strip s else default).
Proof.
  intros Hd Hs. destruct (truthy_str (strip s)); [|by left].
  destruct Hs as [Hs|Hs]; [left | right]; by apply Forall_strip_chars.
Qed.

(** The name that [format_audiobook_filename] returns is normalised
    when the title and the author are plain. *)
Lemma format_normal title author :
  plain title → plain author →
  nfkd (format_audiobook_filename nfkd title author (u "mp3"))
  = format_audiobook_filename nfkd title author (u "mp3").
Proof.
  intros Ht Ha. unfold format_audiobook_filename.
  set (t := if truthy_str (strip title) then strip title else u "Unknown Title").
  set (a := if truthy_str (strip author) then strip author else u "Unknown Author").
  assert (plain t) as Ht'
    by (apply plain_strip; [vm_compute; by repeat constructor | done]).
  assert (plain a) as Ha'
    by (apply plain_strip; [vm_compute; by repeat constructor | done]).
  apply (sanitized_normal _ (nfkd a ++ u " - " ++ nfkd t)).
  - apply nfkd_filename.
  - rewrite !elem_of_app. right; left. vm_compute. set_solver.
  - rewrite <- !app_assoc.
    rewrite !replace_invalid_app, !remove_control_app.
    change (remove_control (replace_invalid (u " - "))) with (u " - ").
    change (remove_control (replace_invalid (u ".mp3"))) with (u ".mp3").
    apply normal_words; [vm_compute; by repeat constructor | done | by apply plain_part|].
    rewrite <- (app_nil_r (u ".mp3")).
    apply normal_words;
      [vm_compute; by repeat constructor | done | by apply plain_part|].
    apply (nfkd_nil nfkd Hnorm).
Qed.

End normal_facts.

(** A normalised name that [sanitize_filename] has made of a text with
    a hyphen and the extension [.mp3] is one that it leaves alone. *)
Lemma sanitized_stable nfkd filename body :
  nfkd filename = body ++ u ".mp3" →
  45%N ∈ body →
  nfkd (sanitize_filename nfkd filename 255) = sanitize_filename nfkd filename 255 →
  stable nfkd (sanitize_filename nfkd filename 255).
Proof.
  intros Hfile H45. unfold sanitize_filename. rewrite Hfile.
  destruct (core_shape body H45) as (c & m & Hcore & Hc & Hclean & Hset & _).
  rewrite Hcore. simpl truthy_str. cbv iota.
  assert (Hmp3 : ∀ Y, Forall clean_char Y → settled false Y →
            ∀ c' m', Y = c' :: m' → space_or_dot c' = false → len (Y ++ u ".mp3") ≤ 255 →
            nfkd (Y ++ u ".mp3") = Y ++ u ".mp3" →
            stable nfkd (Y ++ u ".mp3")).
  { intros Y HYc HYs c' m' -> Hc' Hlen Hn. split.
    - done.
    - apply Forall_app. split; [done|]. vm_compute. by repeat constructor.
    - change (u ".mp3") with (46%N :: u "mp3"). apply settled_app; done.
    - exists c', (m' ++ u ".mp"), 51%N. split_and!; [|done..].
      by rewrite <- !app_assoc.
    - done. }
  destruct (Z.gtb_spec (len ((c :: m) ++ u ".mp3")) 255) as [Hgt|Hle].
  - rewrite truncate_mp3.
    unfold len in Hgt. rewrite length_app in Hgt.
    change (length (u ".mp3")) with 4%nat in Hgt.
    destruct (take 251 (c :: m)) as [|c' m'] eqn:ET; [done|].
    injection ET as <- <-. intros Hn.
    apply (Hmp3 (c :: take 250 m) (Forall_take _ 251 (c :: m) Hclean)
             (settled_take false 251 (c :: m) Hset) c (take 250 m) eq_refl Hc);
      [|done].
    unfold len. rewrite length_app. simpl length. rewrite length_take.
    simpl length in Hgt. lia.
  - intros Hn. by apply (Hmp3 (c :: m) Hclean Hset c m eq_refl Hc).
Qed.

Lemma format_normal_stable nfkd title author :
  normalisation nfkd →
  nfkd (format_audiobook_filename nfkd title author (u "mp3"))
  = format_audiobook_filename nfkd title author (u "mp3") →
  stable nfkd (format_audiobook_filename nfkd title author (u "mp3")).
Proof.
  intros Hnorm. unfold format_audiobook_filename.
  set (t := if truthy_str (strip title) then strip title else u "Unknown Title").
  set (a := if truthy_str (strip author) then strip author else u "Unknown Author").
  apply (sanitized_stable nfkd _ (nfkd a ++ u " - " ++ nfkd t)).
  - by apply nfkd_filename.
  - rewrite !elem_of_app. right; left. vm_compute. set_solver.
Qed.

Section marks_facts.

Lemma insert_mark_in_order m run : in_order m run → insert_mark m run = m :: run.
Proof.
  destruct run as [|d r]; [done|]. cbn [in_order insert_mark].
  intros [Hd | Hle].
  - by rewrite Hd.
  - destruct (combining_class d =? 0)%N; [done|].
    by rewrite (proj2 (N.leb_le _ _) Hle).
Qed.

Lemma insert_mark_ordered m run :
  combining_class m ≠ 0%N → ordered run → ordered (insert_mark m run).
Proof.
  intros Hm. induction run as [|d r IH]; intros Hrun; [split; [by right | done]|].
  cbn [insert_mark].
  destruct (N.eqb_spec (combining_class d) 0) as [Hd|Hd].
  { split; [|done]. right. by left. }
  destruct (N.leb_spec (combining_class m) (combining_class d)) as [Hle|Hgt].
  { split; [|done]. right. by right. }
  destruct Hrun as [[Hzero | Horder] Hr]; [done|].
  split; [|by apply IH]. right.
  destruct r as [|e r']; cbn [insert_mark].
  - right. lia.
  - cbn [in_order] in Horder.
    destruct (N.eqb_spec (combining_class e) 0) as [He|He]; [right; lia|].
    destruct Horder as [He'|Hde]; [done|].
    destruct (N.leb_spec (combining_class m) (combining_class e));
      cbn [in_order]; right; lia.
Qed.

Lemma nfkd_marks_ordered s : ordered (nfkd_marks s).
Proof.
  induction s as [|c r IH]; [done|]. cbn [nfkd_marks].
  destruct (N.eqb_spec (combining_class c) 0) as [Hc|Hc].
  - split; [by left | done].
  - by apply insert_mark_ordered.
Qed.

Lemma ordered_nfkd_marks s : ordered s → nfkd_marks s = s.
Proof.
  induction s as [|c r IH]; [done|]. intros [Hc Hr]. cbn [nfkd_marks].
  rewrite (IH Hr).
  destruct (N.eqb_spec (combining_class c) 0) as [Hzero|Hmark]; [done|].
  destruct Hc as [Hzero | Horder]; [done|]. by apply insert_mark_in_order.
Qed.

Lemma ordered_take k s : ordered s → ordered (take k s).
Proof.
  revert k. induction s as [|c r IH]; intros [|k] Hs; try done.
  destruct Hs as [Hc Hr]. cbn [take]. split; [|by apply IH].
  destruct Hc as [Hzero | Horder]; [by left|]. right.
  destruct r as [|d r']; [by destruct k|]. by destruct k.
Qed.

Lemma insert_mark_app m run c rest :
  combining_class c = 0%N →
  insert_mark m (run ++ c :: rest) = insert_mark m run ++ c :: rest.
Proof.
  intros Hc. induction run as [|d r IH]; cbn [insert_mark app].
  - by rewrite Hc.
  - destruct (combining_class d =? 0)%N; [done|].
    destruct (combining_class m <=? combining_class d)%N; [done|]. by rewrite IH.
Qed.

Lemma Forall_insert_mark (P : N → Prop) m run :
  P m → Forall P run → Forall P (insert_mark m run).
Proof.
  intros Hm. induction 1 as [|d r Hd Hr IH]; cbn [insert_mark]; [by repeat constructor|].
  destruct (combining_class d =? 0)%N; [by repeat constructor|].
  destruct (combining_class m <=? combining_class d)%N; by repeat constructor.
Qed.

Lemma Forall_nfkd_marks (P : N → Prop) s : Forall P s → Forall P (nfkd_marks s).
Proof.
  induction 1 as [|c r Hc Hr IH]; [done|]. cbn [nfkd_marks].
  destruct (combining_class c =? 0)%N; [by constructor | by apply Forall_insert_mark].
Qed.

Lemma ascii_starter c : is_ascii c → combining_class c = 0%N.
Proof.
  unfold is_ascii, combining_class. intros Hc.
  destruct (N.eqb_spec c 769); [lia|]. destruct (N.eqb_spec c 803); [lia|]. done.
Qed.

Lemma nfkd_marks_normalisation : normalisation nfkd_marks.
Proof.
  split.
  - done.
  - intros s1 c s2 Hc%ascii_starter. induction s1 as [|d r IH]; cbn [nfkd_marks app].
    + by rewrite Hc.
    + rewrite IH. destruct (combining_class d =? 0)%N; [done|].
      by apply insert_mark_app.
  - intros s. apply ordered_nfkd_marks, nfkd_marks_ordered.
  - intros s k Hs. apply ordered_nfkd_marks, ordered_take.
    rewrite <- Hs. apply nfkd_marks_ordered.
  - intros s. apply Forall_nfkd_marks.
Qed.

End marks_facts.

(* ================================================================== *)
(** * Retries: [safe_request] *)
(* ================================================================== *)

Section retry_facts.

Variable server : nat → Reply.
Variable max_retries : Z.
Variable delay : Q.

Lemma backoff_ok attempt :
  (attempt < 1024)%nat →
  backoff delay attempt = Ok (delay * inject_Z (2 ^ Z.of_nat attempt))%Q.
Proof.
  intros Hlt. unfold backoff.
  destruct (Z.ltb_spec (Z.of_nat attempt) 1024); [done | lia].
Qed.

Lemma backoff_overflow attempt :
  (1024 ≤ attempt)%nat → backoff delay attempt = Raise OverflowError.
Proof.
  intros Hge. unfold backoff.
  destruct (Z.ltb_spec (Z.of_nat attempt) 1024); [lia | done].
Qed.

Lemma attempts_server_error todo attempt status ra text :
  server attempt = HttpResponse status ra text →
  500 ≤ status →
  attempts server max_retries delay (S todo) attempt
  = if Z.of_nat attempt <? max_retries
    then match backoff delay attempt with
         | Ok seconds =>
             ((attempts server max_retries delay todo (S attempt)).1,
              Request :: Sleep seconds
                :: (attempts server max_retries delay todo (S attempt)).2)
         | Raise e => (Raise e, [Request])
         end
    else (Raise NetworkError, [Request]).
Proof.
  intros Hs Hge. cbn [attempts]. rewrite Hs.
  destruct (Z.eqb_spec status 200); [lia|].
  destruct (Z.eqb_spec status 429); [lia|].
  destruct (Z.geb_spec status 500); [|lia].
  destruct (Z.of_nat attempt <? max_retries); [|done].
  by destruct (backoff delay attempt).
Qed.

Lemma attempts_client_error todo attempt status ra text :
  server attempt = HttpResponse status ra text →
  400 ≤ status < 500 → status ≠ 429 →
  attempts server max_retries delay (S todo) attempt = (Ok None, [Request]).
Proof.
  intros Hs Hr Hn. cbn [attempts]. rewrite Hs.
  destruct (Z.eqb_spec status 200); [lia|].
  destruct (Z.eqb_spec status 429); [lia|].
  destruct (Z.geb_spec status 500); [lia|].
  destruct (Z.eqb_spec status 404); [done|].
  destruct (Z.geb_spec status 400); [done|lia].
Qed.

Lemma attempts_all_500 todo attempt :
  (∀ k, ∃ ra text, server k = HttpResponse 500 ra text) →
  Z.of_nat attempt + Z.of_nat todo = max_retries →
  max_retries ≤ 1024 →
  attempts server max_retries delay (S todo) attempt
  = (Raise NetworkError, flat_map (retry_round delay) (seq attempt todo) ++ [Request]).
Proof.
  intros H500. revert attempt. induction todo as [|todo IH]; intros attempt Hsum Hmax;
    destruct (H500 attempt) as (ra & text & Hs);
    rewrite (attempts_server_error _ _ _ _ _ Hs) by lia.
  - destruct (Z.ltb_spec (Z.of_nat attempt) max_retries); [lia | done].
  - destruct (Z.ltb_spec (Z.of_nat attempt) max_retries); [|lia].
    rewrite backoff_ok by lia. rewrite IH by lia. done.
Qed.

(** With more than 1024 retries the product overflows at attempt 1024. *)
Lemma attempts_all_500_overflow todo attempt :
  (∀ k, ∃ ra text, server k = HttpResponse 500 ra text) →
  (attempt ≤ 1024)%nat →
  (1024 < attempt + todo)%nat →
  Z.of_nat attempt + Z.of_nat todo ≤ max_retries →
  attempts server max_retries delay (S todo) attempt
  = (Raise OverflowError,
     flat_map (retry_round delay) (seq attempt (1024 - attempt)) ++ [Request]).
Proof.
  intros H500. revert attempt. induction todo as [|todo IH]; intros attempt Hle Hgt Hmax;
    [lia|].
  destruct (H500 attempt) as (ra & text & Hs).
  rewrite (attempts_server_error _ _ _ _ _ Hs) by lia.
  destruct (Z.ltb_spec (Z.of_nat attempt) max_retries); [|lia].
  destruct (decide (attempt = 1024%nat)) as [->|Hne].
  - by rewrite backoff_overflow.
  - rewrite backoff_ok by lia. rewrite IH by lia.
    replace (1024 - attempt)%nat with (S (1024 - S attempt)) by lia. done.
Qed.

Lemma requests_rounds ks : requests (flat_map (retry_round delay) ks ++ [Request]) = S (length ks).
Proof.
  unfold requests. induction ks as [|k ks IH]; simpl; [done|]. by rewrite IH.
Qed.

Lemma sleeps_rounds ks :
  sleeps (flat_map (retry_round delay) ks ++ [Request])
  = List.map (λ k, (delay * inject_Z (2 ^ Z.of_nat k))%Q) ks.
Proof.
  unfold sleeps. induction ks as [|k ks IH]; simpl; [done|]. f_equal. apply IH.
Qed.

Lemma backoff_monotone i j :
  (0 <= delay)%Q → (i ≤ j)%nat →
  (delay * inject_Z (2 ^ Z.of_nat i) <= delay * inject_Z (2 ^ Z.of_nat j))%Q.
Proof.
  intros Hd Hij.
  apply Qmult_le_compat_nonneg.
  - split; [done | apply Qle_refl].
  - split.
    + change 0%Q with (inject_Z 0). rewrite <- Zle_Qle. apply Z.pow_nonneg. lia.
    + rewrite <- Zle_Qle. apply Z.pow_le_mono_r; lia.
Qed.
End retry_facts.

(* ================================================================== *)
(** * The validation API: [get_playlist_from_api] *)
(* ================================================================== *)

Lemma m3u8_truthy s : is_m3u8 s = true → truthy_str s = true.
Proof. by destruct s. Qed.

Lemma find_app_first {A} (f : A → bool) l1 l2 :
  List.find f (l1 ++ l2)
  = match List.find f l1 with Some x => Some x | None => List.find f l2 end.
Proof. induction l1 as [|a l1 IH]; simpl; [done|]. by destruct (f a). Qed.

Lemma find_is_m3u8 l s : List.find is_m3u8 l = Some s → is_m3u8 s = true.
Proof. intros Hf. by apply List.find_some in Hf as [_ ?]. Qed.

Lemma truthy_find l (o : option pystr) :
  (if truthy (List.find is_m3u8 l) then List.find is_m3u8 l else o)
  = match List.find is_m3u8 l with Some x => Some x | None => o end.
Proof.
  destruct (List.find is_m3u8 l) as [s|] eqn:E; [|done].
  simpl. by rewrite (m3u8_truthy s (find_is_m3u8 _ _ E)).
Qed.

Lemma find_list_cons y ys :
  find_m3u8_recursive (JList (y :: ys))
  = if truthy (find_m3u8_recursive y) then find_m3u8_recursive y
    else find_m3u8_recursive (JList ys).
Proof. done. Qed.

Lemma find_dict_cons k v rest :
  find_m3u8_recursive (JDict ((k, v) :: rest))
  = match v with
    | JStr s => if endswith s m3u8 then Some s else find_m3u8_recursive (JDict rest)
    | JDict _ | JList _ =>
        if truthy (find_m3u8_recursive v) then find_m3u8_recursive v
        else find_m3u8_recursive (JDict rest)
    | _ => find_m3u8_recursive (JDict rest)
    end.
Proof. by destruct v. Qed.

Lemma strings_list_cons y ys :
  strings_of (JList (y :: ys)) = strings_of y ++ strings_of (JList ys).
Proof. done. Qed.

Lemma strings_dict_cons k v rest :
  strings_of (JDict ((k, v) :: rest)) = strings_of v ++ strings_of (JDict rest).
Proof. done. Qed.

Lemma loose_list_cons y ys :
  loose_strings (JList (y :: ys)) = loose_strings y ++ loose_strings (JList ys).
Proof. done. Qed.

Lemma loose_dict_cons k v rest :
  loose_strings (JDict ((k, v) :: rest))
  = match v with JList _ | JDict _ => loose_strings v | _ => [] end
    ++ loose_strings (JDict rest).
Proof. done. Qed.

(** The recursive search finds the first qualifying string of the
    traversal, provided none of the loose strings qualifies. *)
Lemma find_m3u8_recursive_first x :
  Forall (λ s, is_m3u8 s = false) (loose_strings x) →
  find_m3u8_recursive x = List.find is_m3u8 (strings_of x).
Proof.
  induction x as [| | | |s|xs IH|kvs IH] using json_induction; try done.
  - simpl. intros Hs. apply Forall_cons in Hs as [-> _]. done.
  - induction IH as [|y ys Hy _ IHys]; [done|].
    rewrite find_list_cons, strings_list_cons, loose_list_cons, Forall_app.
    intros [Hly Hlys]. rewrite find_app_first, IHys, Hy by done.
    apply truthy_find.
  - induction IH as [|[k v] rest Hv _ IHrest]; [done|].
    rewrite find_dict_cons, strings_dict_cons, loose_dict_cons, Forall_app.
    intros [Hlv Hlrest]. rewrite find_app_first, IHrest by done. simpl in Hv.
    destruct v; try done.
    + simpl. unfold is_m3u8. by destruct (endswith s m3u8).
    + rewrite Hv by done.
      apply truthy_find.
    + rewrite Hv by done.
      apply truthy_find.
Qed.

(** Whatever the recursive search returns ends in [.m3u8]. *)
Lemma find_m3u8_recursive_m3u8 x s :
  find_m3u8_recursive x = Some s → is_m3u8 s = true.
Proof.
  revert s. induction x as [| | | |s'|xs IH|kvs IH] using json_induction; try done.
  - induction IH as [|y ys Hy _ IHys]; [done|]. intros s.
    rewrite find_list_cons. destruct (truthy _); [apply Hy | apply IHys].
  - induction IH as [|[k v] rest Hv _ IHrest]; [done|]. intros s.
    rewrite find_dict_cons. simpl in Hv. destruct v; try apply IHrest.
    + unfold is_m3u8. destruct (endswith s0 m3u8) eqn:E; [by intros [= <-] | apply IHrest].
    + destruct (truthy _); [apply Hv | apply IHrest].
    + destruct (truthy _); [apply Hv | apply IHrest].
Qed.

(** ** The two keyed phases *)

Lemma existsb_assoc key kvs :
  existsb (λ kv : pystr * json, pystr_eqb kv.1 key) kvs
  = match assoc key kvs with Some _ => true | None => false end.
Proof.
  induction kvs as [|[k v] rest IH]; simpl; [done|].
  by destruct (pystr_eqb k key).
Qed.

Lemma url_step_member x r : url_step x = Ok r → r = url_member x.
Proof.
  unfold url_step. destruct x as [| | | |s|xs|kvs]; simpl; try done.
  - destruct (contains _ _); congruence.
  - destruct (existsb _ xs); congruence.
  - rewrite existsb_assoc. destruct (assoc (u "url") kvs) as [v|]; simpl; [|by intros [= <-]].
    unfold m3u8_url, is_m3u8. destruct v as [| | | |s| |]; simpl;
      repeat case_match; try congruence.
    by destruct s.
Qed.

Lemma url_step_ok kvs : url_value_ok kvs → ∃ r, url_step (JDict kvs) = Ok r.
Proof.
  unfold url_value_ok, url_step. simpl. rewrite existsb_assoc.
  destruct (assoc (u "url") kvs) as [v|]; simpl; [|by eexists].
  unfold m3u8_url. intros [-> | [s ->]]; [by eexists|].
  destruct (json_truthy (JStr s)); by eexists.
Qed.

Lemma validation_results_cons result rest :
  validation_results (result :: rest)
  = found ← url_step result;
    match found with
    | Some url => Ok (Some url)
    | None => validation_results rest
    end.
Proof.
  unfold url_step. simpl. destruct (py_in (u "url") result) as [[|]|]; simpl; try done.
  by destruct (py_getitem result (u "url")).
Qed.

Lemma validation_results_first results r :
  validation_results results = Ok r → r = head (omap url_member results).
Proof.
  induction results as [|result rest IH]; [by intros [= <-]|].
  rewrite validation_results_cons.
  destruct (url_step result) as [found|] eqn:E; simpl; [|done].
  apply url_step_member in E. subst found. cbn [omap list_omap].
  destruct (url_member result); [by intros [= <-] | apply IH].
Qed.

Lemma validation_results_ok results :
  Forall entry_ok results → ∃ r, validation_results results = Ok r.
Proof.
  induction 1 as [|result rest (kvs & -> & Hok) _ [r IH]]; [by eexists|].
  rewrite validation_results_cons.
  destruct (url_step_ok kvs Hok) as [found ->]. simpl.
  destruct found; by eexists.
Qed.

Lemma omap_url_member_strings {A} (f : A → pystr) (l : list A) :
  omap url_member (List.map (λ k, JStr (f k)) l) = [].
Proof. induction l as [|k l IH]; [done|]. simpl. apply IH. Qed.

Lemma search_response_unfold data :
  search_response data
  = top ← url_step data;
    match top with
    | Some url => Ok (Some url)
    | None =>
        has_results ← py_in (u "validationResults") data;
        nested ← (if has_results : bool
                  then results ← py_getitem data (u "validationResults");
                       items ← py_iter results;
                       validation_results items
                  else Ok None);
        match nested with
        | Some url => Ok (Some url)
        | None =>
            let m3u8_url := find_m3u8_recursive data in
            if truthy m3u8_url then Ok m3u8_url else Ok None
        end
    end.
Proof.
  unfold search_response, url_step.
  destruct (py_in (u "url") data) as [[|]|]; try done.
Qed.

Lemma find_result data :
  Forall (λ s, is_m3u8 s = false) (loose_strings data) →
  (if truthy (find_m3u8_recursive data)
   then Ok (find_m3u8_recursive data) else Ok None)
  = Ok (List.find is_m3u8 (strings_of data)).
Proof.
  intros Hl. rewrite (find_m3u8_recursive_first data Hl).
  destruct (List.find is_m3u8 (strings_of data)) as [s|] eqn:E; [|reflexivity].
  cbn [truthy]. by rewrite (m3u8_truthy s (find_is_m3u8 _ _ E)).
Qed.

Ltac run_bind H := cbn [mbind res_bind Py.bind] in H.

(** Whenever no lookup raises, the search returns what the three phases
    of the specification give. *)
Lemma search_response_claimed data r :
  search_response data = Ok r →
  Forall (λ s, is_m3u8 s = false) (loose_strings data) →
  r = claimed_search data.
Proof.
  rewrite search_response_unfold. cbv zeta. intros Hrun Hloose. unfold claimed_search.
  rewrite (find_result data Hloose) in Hrun.
  destruct (url_step data) as [top|] eqn:Etop; [|done].
  apply url_step_member in Etop. subst top. run_bind Hrun.
  destruct (url_member data) as [url|]; [by injection Hrun as <-|].
  destruct data as [| | | |s|xs|kvs]; try done.
  - cbn [py_in] in Hrun. destruct (contains s _); run_bind Hrun; [done|].
    by injection Hrun as <-.
  - cbn [py_in] in Hrun. destruct (existsb _ xs); run_bind Hrun; [done|].
    by injection Hrun as <-.
  - cbn [py_in py_getitem] in Hrun. rewrite existsb_assoc in Hrun.
    run_bind Hrun. cbn [validation_results_url].
    destruct (assoc (u "validationResults") kvs) as [v|]; run_bind Hrun;
      [|by injection Hrun as <-].
    destruct (py_iter v) as [items|] eqn:Eit; run_bind Hrun; [|done].
    destruct (validation_results items) as [nested|] eqn:Evr; run_bind Hrun; [|done].
    apply validation_results_first in Evr.
    assert (nested = match v with
                     | JList entries => head (omap url_member entries)
                     | _ => None
                     end) as ->.
    { destruct v; try done; simpl in Eit; injection Eit as <-; [|done|].
      - by rewrite (omap_url_member_strings (λ c, [c])) in Evr.
      - rewrite <- (List.map_map fst (λ k, JStr k)) in Evr.
        by rewrite (omap_url_member_strings (λ k, k)) in Evr. }
    destruct v; try (by injection Hrun as <-).
    destruct (head _); by injection Hrun as <-.
Qed.

Lemma search_response_ok data : well_typed data → ∃ r, search_response data = Ok r.
Proof.
  intros (kvs & -> & Hurl & Hres). rewrite search_response_unfold.
  destruct (url_step_ok kvs Hurl) as [top ->]. simpl.
  destruct top; [by eexists|]. rewrite existsb_assoc.
  destruct (assoc (u "validationResults") kvs) as [v|]; simpl.
  - destruct Hres as (entries & -> & Hentries). simpl.
    destruct (validation_results_ok entries Hentries) as [nested ->]. simpl.
    destruct nested; [by eexists|]. destruct (truthy _); by eexists.
  - destruct (truthy _); by eexists.
Qed.

Lemma url_member_m3u8 x s : url_member x = Some s → is_m3u8 s = true.
Proof.
  unfold url_member. repeat case_match; try done. by intros [= <-].
Qed.

Lemma search_response_m3u8 data s :
  search_response data = Ok (Some s) → is_m3u8 s = true.
Proof.
  rewrite search_response_unfold. cbv zeta. intros Hrun.
  destruct (url_step data) as [top|] eqn:Etop; [|done].
  apply url_step_member in Etop. run_bind Hrun.
  destruct top as [url|].
  { injection Hrun as ->. by eapply url_member_m3u8. }
  destruct (py_in (u "validationResults") data) as [has|]; run_bind Hrun; [|done].
  destruct (if has then _ else _) as [nested|] eqn:En; run_bind Hrun; [|done].
  destruct nested as [url|].
  { injection Hrun as ->. destruct has; [|done].
    destruct (py_getitem data _) as [results|]; run_bind En; [|done].
    destruct (py_iter results) as [items|]; run_bind En; [|done].
    apply validation_results_first in En.
    symmetry in En. apply head_Some_elem_of, list_elem_of_omap in En as (x & _ & Hx).
    by eapply url_member_m3u8. }
  destruct (truthy _); [|done]. injection Hrun as Hrun.
  by eapply find_m3u8_recursive_m3u8.
Qed.

Lemma find_m3u8_recursive_elem x s :
  find_m3u8_recursive x = Some s → s ∈ strings_of x.
Proof.
  revert s. induction x as [| | | |s'|xs IH|kvs IH] using json_induction; try done.
  - induction IH as [|y ys Hy _ IHys]; [done|]. intros s.
    rewrite find_list_cons, strings_list_cons, elem_of_app.
    destruct (truthy _); [left; by apply Hy | right; by apply IHys].
  - induction IH as [|[k v] rest Hv _ IHrest]; [done|]. intros s.
    rewrite find_dict_cons, strings_dict_cons, elem_of_app. simpl in Hv.
    destruct v; try (right; by apply IHrest).
    + destruct (endswith s0 m3u8); [|right; by apply IHrest].
      intros [= <-]. left. simpl. by left.
    + destruct (truthy _); [left; by apply Hv | right; by apply IHrest].
    + destruct (truthy _); [left; by apply Hv | right; by apply IHrest].
Qed.

Lemma assoc_strings key kvs v s :
  assoc key kvs = Some v → s ∈ strings_of v → s ∈ strings_of (JDict kvs).
Proof.
  induction kvs as [|[k w] rest IH]; [done|].
  rewrite strings_dict_cons, elem_of_app. simpl.
  destruct (pystr_eqb k key); [intros [= ->]; by left | right; by apply IH].
Qed.

Lemma url_member_elem x s : url_member x = Some s → s ∈ strings_of x.
Proof.
  destruct x as [| | | | | |kvs]; try done. unfold url_member.
  destruct (assoc (u "url") kvs) as [[| | | |s'| |]|] eqn:E; try done.
  destruct (is_m3u8 s'); [|done]. intros [= <-].
  eapply assoc_strings; [exact E|]. simpl. by left.
Qed.

Lemma list_strings y ys s :
  y ∈ ys → s ∈ strings_of y → s ∈ strings_of (JList ys).
Proof.
  induction 1 as [y ys|y z ys _ IH]; rewrite strings_list_cons, elem_of_app;
    [by left | right; by apply IH].
Qed.

(** What the search returns is one of the strings of the response. *)
Lemma search_response_elem data s :
  search_response data = Ok (Some s) → s ∈ strings_of data.
Proof.
  rewrite search_response_unfold. cbv zeta. intros Hrun.
  destruct (url_step data) as [top|] eqn:Etop; [|done].
  apply url_step_member in Etop. run_bind Hrun.
  destruct top as [url|].
  { injection Hrun as ->. by apply url_member_elem. }
  destruct (py_in (u "validationResults") data) as [has|]; run_bind Hrun; [|done].
  destruct (if has then _ else _) as [nested|] eqn:En; run_bind Hrun; [|done].
  destruct nested as [url|].
  { injection Hrun as ->. destruct has; [|done].
    destruct data as [| | | | | |kvs]; try done. cbn [py_getitem] in En.
    destruct (assoc (u "validationResults") kvs) as [results|] eqn:Eres;
      run_bind En; [|done].
    destruct (py_iter results) as [items|] eqn:Eit; run_bind En; [|done].
    apply validation_results_first in En.
    symmetry in En. apply head_Some_elem_of, list_elem_of_omap in En as (x & Hin & Hx).
    destruct results as [| | | |c|entries|members]; try done;
      simpl in Eit; injection Eit as <-.
    - apply list_elem_of_fmap in Hin as (? & -> & _). done.
    - eapply assoc_strings; [exact Eres|].
      eapply list_strings; [exact Hin | by apply url_member_elem].
    - apply list_elem_of_fmap in Hin as (? & -> & _). done. }
  destruct (truthy _); [|done]. injection Hrun as Hrun.
  by apply find_m3u8_recursive_elem.
Qed.

Section totality.
Context `{Library}.
Variable session_get : pystr → res ApiResponse.

Lemma get_playlist_from_api_total media_id :
  ∃ r, get_playlist_from_api session_get media_id = Ok r
       ∧ (∀ s, r = Some s → is_m3u8 s = true).
Proof.
  unfold get_playlist_from_api, call_api.
  destruct (session_get media_id) as [response|]; cbn; [|by eexists].
  destruct (raise_for_status response); cbn; [|by eexists].
  destruct (json_ response) as [data|]; cbn; [|by eexists].
  destruct (search_response data) as [r|] eqn:E; cbn; [|by eexists].
  exists r. split; [done|]. intros s ->. by eapply search_response_m3u8.
Qed.

Lemma extract_media_id_total html_content url :
  ∃ r, extract_media_id html_content url = Ok r.
Proof.
  unfold extract_media_id, try_except, mbind, res_bind, Py.bind.
  repeat case_match; by eexists.
Qed.

Lemma extract_playlist_url_total_aux html_content url :
  ∃ r, extract_playlist_url session_get html_content url = Ok r
       ∧ (∀ s, r = Some s → is_m3u8 s = true).
Proof.
  unfold extract_playlist_url.
  destruct (extract_media_id_total html_content url) as [media_id ->]. cbn.
  destruct (truthy media_id); [apply get_playlist_from_api_total|].
  by exists None.
Qed.

Lemma get_playlist_from_api_none media_id :
  no_manifest (session_get media_id) →
  get_playlist_from_api session_get media_id = Ok None.
Proof.
  unfold get_playlist_from_api, call_api, no_manifest, raise_for_status.
  destruct (session_get media_id) as [response|]; cbn; [|done].
  intros [Hstatus|Hbody].
  - replace (400 <=? status_code response) with true by lia.
    by replace (status_code response <? 600) with true by lia.
  - destruct (_ && _); cbn; [done|].
    destruct (json_ response) as [data|]; cbn; [|done].
    destruct (search_response data) as [[s|]|] eqn:E; cbn; try done.
    pose proof (search_response_m3u8 data s E) as Hm3u8.
    apply search_response_elem in E.
    rewrite Forall_forall in Hbody. by rewrite (Hbody s E) in Hm3u8.
Qed.

Lemma extract_playlist_url_none html_content url :
  (∀ media_id, no_manifest (session_get media_id)) →
  extract_playlist_url session_get html_content url = Ok None.
Proof.
  intros Hapi. unfold extract_playlist_url.
  destruct (extract_media_id_total html_content url) as [media_id ->]. cbn.
  destruct (truthy media_id); [by apply get_playlist_from_api_none | done].
Qed.
End totality.

(* ================================================================== *)
(** * The catalogue: [_parse_category_page] *)
(* ================================================================== *)

Section dedup_facts.

Lemma dedup_loop books seen unique :
  (fold_left
     (λ '(seen_urls, unique_audiobooks) book,
        if decide (info_url book ∈ seen_urls)
        then (seen_urls, unique_audiobooks)
        else ({[info_url book]} ∪ seen_urls, unique_audiobooks ++ [book]))
     books (seen, unique)).2
  = unique ++ kept seen books.
Proof.
  revert seen unique. induction books as [|book rest IH]; intros seen unique; simpl.
  - by rewrite app_nil_r.
  - destruct (decide (info_url book ∈ seen)) as [Hin|Hout]; rewrite IH; [done|].
    by rewrite <- app_assoc.
Qed.

Lemma remove_duplicates_kept books : (remove_duplicates books).2 = kept ∅ books.
Proof. unfold remove_duplicates. by rewrite dedup_loop. Qed.

Lemma run_strategies_loop methods soup base_url acc :
  fold_left
    (λ audiobooks method,
       match method soup base_url with
       | Ok books => match books with
                     | [] => audiobooks
                     | _ => audiobooks ++ books
                     end
       | Raise _ => audiobooks
       end)
    methods acc
  = acc ++ concat (contribution soup base_url <$> methods).
Proof.
  revert acc. induction methods as [|method rest IH]; intros acc; simpl.
  - by rewrite app_nil_r.
  - rewrite IH. unfold contribution at 2.
    destruct (method soup base_url) as [[|b bs]|]; by rewrite <- ?app_assoc.
Qed.

Lemma run_strategies_concat methods soup base_url :
  run_strategies methods soup base_url = concat (contribution soup base_url <$> methods).
Proof. unfold run_strategies. by rewrite run_strategies_loop. Qed.

Lemma kept_elem seen books book :
  book ∈ kept seen books → book ∈ books ∧ info_url book ∉ seen.
Proof.
  revert seen. induction books as [|b rest IH]; intros seen; cbn [kept].
  - by intros ?%elem_of_nil.
  - destruct (decide (info_url b ∈ seen)) as [Hin|Hout].
    + intros [? ?]%IH. split; [by right | done].
    + rewrite elem_of_cons. intros [-> | [? Hn]%IH]; [split; [by left | done]|].
      apply not_elem_of_union in Hn as [_ ?]. split; [by right | done].
Qed.

Lemma kept_NoDup seen books : NoDup (info_url <$> kept seen books).
Proof.
  revert seen. induction books as [|b rest IH]; intros seen; cbn [kept].
  - constructor.
  - destruct (decide (info_url b ∈ seen)) as [Hin|Hout]; [apply IH|].
    rewrite fmap_cons. constructor; [|apply IH].
    intros (book & Hurl & [_ Hseen]%kept_elem)%list_elem_of_fmap.
    apply Hseen, elem_of_union_l, elem_of_singleton. done.
Qed.

Lemma kept_urls seen books url :
  url ∈ info_url <$> kept seen books ↔ url ∈ info_url <$> books ∧ url ∉ seen.
Proof.
  revert seen. induction books as [|b rest IH]; intros seen; cbn [kept].
  - split; [by intros ?%elem_of_nil | by intros [?%elem_of_nil _]].
  - destruct (decide (info_url b ∈ seen)) as [Hin|Hout].
    + rewrite IH, fmap_cons, elem_of_cons. split; [tauto|].
      intros [[-> | ?] ?]; [done | tauto].
    + rewrite !fmap_cons, !elem_of_cons, IH, not_elem_of_union, elem_of_singleton.
      destruct (decide (url = info_url b)) as [->|Hne]; tauto.
Qed.

Lemma kept_sublist seen books : sublist (kept seen books) books.
Proof.
  revert seen. induction books as [|b rest IH]; intros seen; simpl.
  - constructor.
  - destruct (decide (info_url b ∈ seen)); [by apply sublist_cons | by apply sublist_skip].
Qed.

Lemma kept_first seen books book :
  book ∈ kept seen books → List.find (same_url book) books = Some book.
Proof.
  revert seen. induction books as [|b rest IH]; intros seen; simpl.
  - by rewrite elem_of_nil.
  - unfold same_url at 1. destruct (decide (info_url b ∈ seen)) as [Hin|Hout].
    + intros Hk. destruct (kept_elem _ _ _ Hk) as [_ Hseen].
      rewrite bool_decide_false by (intros E; by rewrite E in Hin). by eapply IH.
    + rewrite elem_of_cons. intros [-> | Hk]; [by rewrite bool_decide_true|].
      destruct (kept_elem _ _ _ Hk) as [_ Hseen].
      rewrite bool_decide_false; [by eapply IH|].
      intros E. apply Hseen, elem_of_union_l, elem_of_singleton. done.
Qed.

(** The order of the entries kept: an entry that comes before another
    in the result stands in [books] before every entry that has the URL
    of the other. *)
Lemma kept_order seen books k1 k2 a b :
  (k1 < k2)%nat →
  kept seen books !! k1 = Some a →
  kept seen books !! k2 = Some b →
  ∃ i, books !! i = Some a
       ∧ ∀ j other, books !! j = Some other → info_url other = info_url b → (i < j)%nat.
Proof.
  revert seen k1 k2. induction books as [|h rest IH]; intros seen k1 k2 Hlt Ha Hb;
    cbn [kept] in Ha, Hb; [done|].
  destruct (decide (info_url h ∈ seen)) as [Hin|Hout].
  - destruct (IH seen k1 k2 Hlt Ha Hb) as (i & Hi & Hfirst).
    exists (S i). split; [done|]. intros [|j] other Hj Hurl; [|].
    + injection Hj as ->.
      apply list_elem_of_lookup_2, kept_elem in Hb as [_ Hseen].
      by rewrite <- Hurl in Hseen.
    + apply (Hfirst j other) in Hurl; [lia | done].
  - destruct k2 as [|k2]; [lia|]. cbn in Hb.
    assert (info_url h ≠ info_url b) as Hne.
    { apply list_elem_of_lookup_2, kept_elem in Hb as [_ Hseen].
      intros Heq. apply Hseen, elem_of_union_l, elem_of_singleton. done. }
    destruct k1 as [|k1]; cbn in Ha.
    + injection Ha as ->. exists 0%nat. split; [done|].
      intros [|j] other Hj Hurl; [|lia]. by injection Hj as ->.
    + destruct (IH _ k1 k2 ltac:(lia) Ha Hb) as (i & Hi & Hfirst).
      exists (S i). split; [done|]. intros [|j] other Hj Hurl.
      * by injection Hj as ->.
      * apply (Hfirst j other) in Hurl; [lia | done].
Qed.

Lemma find_none_not_elem book books :
  info_url book ∉ info_url <$> books → List.find (same_url book) books = None.
Proof.
  induction books as [|b rest IH]; simpl; [done|].
  rewrite not_elem_of_cons. intros [Hne Hrest].
  unfold same_url at 1. rewrite bool_decide_false by done. by apply IH.
Qed.

(** The entry found first in the concatenation comes from the first list
    that holds its URL. *)
Lemma first_in_earliest book (outputs : list (list AudiobookInfo)) i out :
  List.find (same_url book) (concat outputs) = Some book →
  outputs !! i = Some out →
  info_url book ∈ info_url <$> out →
  (∀ j earlier, (j < i)%nat → outputs !! j = Some earlier →
                info_url book ∉ info_url <$> earlier) →
  List.find (same_url book) out = Some book.
Proof.
  revert i. induction outputs as [|o rest IH]; intros i; [done|].
  simpl. rewrite find_app_first. destruct i as [|i]; simpl.
  - intros Hf [= ->] Hin _.
    destruct (List.find (same_url book) out) as [b|] eqn:E; [done|].
    apply list_elem_of_fmap in Hin as (b & Hurl & Hb).
    apply list_elem_of_In in Hb. eapply List.find_none in E; [|done].
    unfold same_url in E. by rewrite bool_decide_true in E.
  - intros Hf Hi Hin Hearlier.
    rewrite (find_none_not_elem book o) in Hf
      by (apply (Hearlier 0%nat); [lia | done]).
    apply (IH i); [done..|].
    intros j earlier Hj Hl. apply (Hearlier (S j)); [lia | done].
Qed.

End dedup_facts.

(* ================================================================== *)
(** * The orchestrator: [_process_single_audiobook] *)
(* ================================================================== *)

Section counter_facts.

Lemma incr_bumped key w :
  has_counters w → key ∈ counter_keys → incr key w = (Ok (), bumped key w).
Proof.
  intros Hw Hk. unfold incr, bumped, counter.
  destruct (Hw key Hk) as [n ->]. done.
Qed.

Lemma has_counters_bumped key w : has_counters w → has_counters (bumped key w).
Proof.
  intros Hw k Hk. unfold bumped. simpl.
  destruct (decide (key = k)) as [->|Hne].
  - rewrite lookup_insert_eq. by eexists.
  - rewrite lookup_insert_ne by done. by apply Hw.
Qed.

Lemma counter_bumped_eq key w : counter key (bumped key w) = counter key w + 1.
Proof. unfold counter at 1, bumped. simpl. by rewrite lookup_insert_eq. Qed.

Lemma counter_bumped_ne key other w :
  other ≠ key → counter other (bumped key w) = counter other w.
Proof. intros Hne. unfold counter, bumped. simpl. by rewrite lookup_insert_ne. Qed.

Lemma counted_balanced key w w' :
  key ∈ ["downloaded"; "skipped"; "failed"] →
  counted key w w' → balanced w → balanced w'.
Proof.
  unfold counted, balanced. intros Hk (Hp & Hkey & Hother) Hb.
  rewrite !elem_of_cons, elem_of_nil in Hk.
  destruct Hk as [-> | [-> | [-> | []]]];
    rewrite Hp, Hkey, !Hother by done; lia.
Qed.

End counter_facts.

Section orchestrator_facts.

Variable nfkd : pystr → pystr.
Variable config : Config.
Variable scrape_audiobook : pystr → res (option AudiobookMetadata).
Variable path_exists : pystr → pystr → res bool.
Variable download_audiobook : pystr → pystr → pystr → res (option pystr).
Variable write_tags : pystr → AudiobookMetadata → res bool.

Abbreviation process :=
  (_process_single_audiobook nfkd config scrape_audiobook path_exists
     download_audiobook write_tags).

Lemma counted_after key w w' :
  key ≠ "processed" →
  (∀ k, counter k w' = counter k (bumped key (bumped "processed" w))) →
  counted key w w'.
Proof.
  intros Hne Hc. unfold counted. split_and!.
  - by rewrite Hc, counter_bumped_ne, counter_bumped_eq.
  - by rewrite Hc, counter_bumped_eq, counter_bumped_ne.
  - intros other H1 H2. by rewrite Hc, !counter_bumped_ne.
Qed.

Lemma has_counters_ended key cs w : has_counters w → has_counters (ended key cs w).
Proof. intros Hw. by do 2 apply has_counters_bumped. Qed.

Lemma counted_ended key cs w : key ≠ "processed" → counted key w (ended key cs w).
Proof. intros Hne. by apply counted_after. Qed.

(** One step of evaluation: an increment in a world that has the
    counters. *)
Lemma incr_then {A} key (k : unit → M A) w :
  has_counters w → key ∈ counter_keys →
  and_then (incr key) k w = k () (bumped key w).
Proof. intros Hw Hk. unfold and_then. by rewrite incr_bumped. Qed.

Lemma lift_then {A B} (r : res A) (k : A → M B) w :
  and_then (lift r) k w
  = match r with Ok a => k a w | Raise e => (Raise e, w) end.
Proof. unfold and_then, lift. by destruct r. Qed.

Lemma call_then {A} c (k : unit → M A) w :
  and_then (call c) k w = k () {| stats := stats w; calls := calls w ++ [c] |}.
Proof. done. Qed.

Lemma ret_then {A B} (a : A) (k : A → M B) w : and_then (ret a) k w = k a w.
Proof. done. Qed.

Lemma and_then_assoc {A B C} (m : M A) (k1 : A → M B) (k2 : B → M C) w :
  and_then (and_then m k1) k2 w = and_then m (λ a, and_then (k1 a) k2) w.
Proof. unfold and_then. by destruct (m w) as [[a|e] w']. Qed.

Lemma has_counters_stats w w' : stats w' = stats w → has_counters w → has_counters w'.
Proof. intros E Hw key Hk. rewrite E. by apply Hw. Qed.

Lemma has_counters_later cs w :
  has_counters w →
  has_counters {| stats := stats (bumped "processed" w); calls := calls w ++ cs |}.
Proof.
  intros Hw.
  eapply has_counters_stats; [|by apply (has_counters_bumped "processed" w)]. done.
Qed.

(** The last increment of a call and its [return]. *)
Lemma incr_ended key (success : bool) cs w :
  has_counters w → key ∈ counter_keys →
  and_then (incr key) (λ _, ret success)
    {| stats := stats (bumped "processed" w); calls := calls w ++ cs |}
  = (Ok success, ended key cs w).
Proof.
  intros Hw Hk. rewrite incr_then; [done| |done]. by apply has_counters_later.
Qed.

Lemma bumped_later w :
  bumped "processed" w
  = {| stats := stats (bumped "processed" w); calls := calls w ++ [] |}.
Proof. unfold bumped. cbn [stats calls]. by rewrite app_nil_r. Qed.

(** Every call ends in one of the three outcomes, the same whatever the
    counters are when it starts: it returns, and [processed] and the
    counter of the outcome are one higher. *)
Lemma process_single_outcome audiobook :
  ∃ key success cs,
    key ∈ ["downloaded"; "skipped"; "failed"]
    ∧ ∀ w, has_counters w → process audiobook w = (Ok success, ended key cs w).
Proof.
  assert (Kp : "processed" ∈ counter_keys) by (by repeat constructor).
  assert (Kf : "failed" ∈ counter_keys) by (by repeat constructor).
  assert (Ks : "skipped" ∈ counter_keys) by (by repeat constructor).
  assert (Kd : "downloaded" ∈ counter_keys) by (by repeat constructor).
  unfold _process_single_audiobook, try_catch, process_steps.
  destruct (scrape_audiobook (info_url audiobook)) as [[metadata|]|] eqn:Hscrape;
    [destruct (truthy (playlist_url metadata)) eqn:Hplaylist;
     [destruct (if skip_existing config
                then path_exists (output_directory config)
                       (_generate_filename nfkd (title metadata) (author metadata))
                else Ok false) as [[|]|] eqn:Hexisting;
      [|destruct (download_audiobook (default [] (playlist_url metadata))
                    (title metadata) (author metadata))
          as [downloaded_file|] eqn:Hdownload;
        [destruct (truthy downloaded_file) eqn:Hfile|]|]|]| |].
  all: try assert (Hexisting' :
         (if skip_existing config
          then lift (path_exists (output_directory config)
                       (_generate_filename nfkd (title metadata) (author metadata)))
          else ret false) = lift (if skip_existing config
                                  then path_exists (output_directory config)
                                         (_generate_filename nfkd (title metadata)
                                            (author metadata))
                                  else Ok false))
         by (by destruct (skip_existing config)).
  - (* the file exists and is skipped *)
    exists "skipped", true, []. split; [by repeat constructor|]. intros w Hw.
    rewrite incr_then, lift_then by done. cbn beta iota.
    rewrite ?Hplaylist. cbn [negb]. rewrite ?Hexisting', ?Hexisting, ?lift_then.
    rewrite (bumped_later w). by rewrite incr_ended.
  - (* downloaded *)
    exists "downloaded", true,
      (DownloadAudiobook (default [] (playlist_url metadata))
         (title metadata) (author metadata)
       :: if embed_metadata config
          then [EmbedMetadata (default [] downloaded_file)] else []).
    split; [by repeat constructor|]. intros w Hw.
    rewrite incr_then, lift_then by done. cbn beta iota.
    rewrite ?Hplaylist. cbn [negb]. rewrite ?Hexisting', ?Hexisting, ?lift_then.
    rewrite call_then, lift_then, ?Hdownload, ?Hfile. cbn [negb].
    destruct (embed_metadata config).
    + rewrite and_then_assoc, call_then, ret_then. cbn [stats calls].
      change (calls (bumped "processed" w)) with (calls w).
      rewrite <- app_assoc. by rewrite incr_ended.
    + rewrite ret_then. change (calls (bumped "processed" w)) with (calls w).
      by rewrite incr_ended.
  - (* the download gave no file *)
    exists "failed", false,
      [DownloadAudiobook (default [] (playlist_url metadata))
         (title metadata) (author metadata)].
    split; [by repeat constructor|]. intros w Hw.
    rewrite incr_then, lift_then by done. cbn beta iota.
    rewrite ?Hplaylist. cbn [negb]. rewrite ?Hexisting', ?Hexisting, ?lift_then.
    rewrite call_then, lift_then, ?Hdownload, ?Hfile. cbn [negb].
    change (calls (bumped "processed" w)) with (calls w). by rewrite incr_ended.
  - (* the download raised *)
    exists "failed", false,
      [DownloadAudiobook (default [] (playlist_url metadata))
         (title metadata) (author metadata)].
    split; [by repeat constructor|]. intros w Hw.
    rewrite incr_then, lift_then by done. cbn beta iota.
    rewrite ?Hplaylist. cbn [negb]. rewrite ?Hexisting', ?Hexisting, ?lift_then.
    rewrite call_then, lift_then, ?Hdownload.
    change (calls (bumped "processed" w)) with (calls w). by rewrite incr_ended.
  - (* the existence test raised *)
    exists "failed", false, []. split; [by repeat constructor|]. intros w Hw.
    rewrite incr_then, lift_then by done. cbn beta iota.
    rewrite ?Hplaylist. cbn [negb]. rewrite ?Hexisting', ?Hexisting, ?lift_then.
    rewrite (bumped_later w). by rewrite incr_ended.
  - (* no playlist URL *)
    exists "failed", false, []. split; [by repeat constructor|]. intros w Hw.
    rewrite incr_then, lift_then by done. cbn beta iota.
    rewrite ?Hplaylist. cbn [negb].
    rewrite (bumped_later w). by rewrite incr_ended.
  - (* no metadata *)
    exists "failed", false, []. split; [by repeat constructor|]. intros w Hw.
    rewrite incr_then, lift_then by done. cbn beta iota.
    rewrite (bumped_later w). by rewrite incr_ended.
  - (* the scraper raised *)
    exists "failed", false, []. split; [by repeat constructor|]. intros w Hw.
    rewrite incr_then, lift_then by done.
    rewrite (bumped_later w). by rewrite incr_ended.
Qed.

End orchestrator_facts.

(* ================================================================== *)
(** * The metadata extractor: [_extract_metadata] *)
(* ================================================================== *)

Section gate_facts.

Context `{Library}.
Variable session_get : pystr → res ApiResponse.
Variable _download_thumbnail : pystr → option (list N).

Lemma extract_metadata_gate page_content page_url soup :
  BeautifulSoup page_content = Ok soup →
  truthy (_extract_title soup) = false ∨ truthy (_extract_author soup) = false →
  _extract_metadata session_get _download_thumbnail page_content page_url = Ok None.
Proof.
  intros Hsoup Hmissing. unfold _extract_metadata. rewrite Hsoup.
  cbn [mbind res_bind Py.bind]. by destruct Hmissing as [-> | ->]; rewrite ?orb_true_r.
Qed.

Lemma extract_metadata_complete page_content page_url metadata :
  _extract_metadata session_get _download_thumbnail page_content page_url
  = Ok (Some metadata) →
  ∃ soup,
    BeautifulSoup page_content = Ok soup
    ∧ _extract_title soup = Some (title metadata)
    ∧ _extract_author soup = Some (author metadata)
    ∧ title metadata ≠ [] ∧ author metadata ≠ [].
Proof.
  unfold _extract_metadata.
  destruct (BeautifulSoup page_content) as [soup|]; [|done].
  cbn [mbind res_bind Py.bind].
  destruct (_extract_title soup) as [[|c t]|] eqn:Htitle; try done.
  destruct (_extract_author soup) as [[|c' a]|] eqn:Hauthor; try done.
  cbn [truthy truthy_str negb orb].
  destruct (extract_playlist_url _ _ _) as [playlist|]; [|done].
  cbn [mbind res_bind Py.bind]. intros [= <-]. by exists soup.
Qed.

End gate_facts.

(** ** The happy path *)

Section happy_path_facts.

Context `{Library}.
Variable session_get : pystr → res ApiResponse.
Variable _download_thumbnail : pystr → option (list N).

Lemma first_match_none {A} soup (pick : Element → option A) selectors :
  Forall (λ selector, select_one soup selector = Ok None) selectors →
  first_match soup pick selectors = None.
Proof. induction 1 as [|selector rest Hs _ IH]; [done|]. simpl. by rewrite Hs. Qed.

(** A page whose heading reads [Title X], on which no author selector
    matches, whose markup holds the author block and the quoted
    identifier, and for which the API answers with a top-level URL: the
    record has the title, the author and the URL of the scenario. *)
Lemma happy_path_extraction page_content page_url soup heading :
  BeautifulSoup page_content = Ok soup →
  select_one soup (u "h1") = Ok (Some heading) →
  name heading = u "h1" →
  get_text_strip heading = u "Title X" →
  Forall (λ selector, select_one soup selector = Ok None) author_selectors →
  re_search IGNORECASE
    (u ">" ++ E_acute ++ u "crit\s+par\s+" ++ name_group ++ u "<") (str_ soup)
  = Some (u "Jane Doe") →
  re_sub junk_pattern [] (u "Jane Doe") = u "Jane Doe" →
  re_findall IGNORECASE
    (dq ++ u "mediaId" ++ dq ++ u "\s*:\s*" ++ dq ++ u "([^" ++ dq ++ u "]+)" ++ dq)
    page_content
  = [u "1234567"] →
  session_get (u "1234567")
  = Ok {| status_code := 200;
          json_ := Ok (JDict [(u "url", JStr (u "https://x/master.m3u8"))]) |} →
  ∃ metadata,
    _extract_metadata session_get _download_thumbnail page_content page_url
    = Ok (Some metadata)
    ∧ title metadata = u "Title X"
    ∧ author metadata = u "Jane Doe"
    ∧ playlist_url metadata = Some (u "https://x/master.m3u8").
Proof.
  intros Hsoup Hh1 Hname Htext Hauthors Hsearch Hsub Hfind Hapi.
  assert (Htitle : _extract_title soup = Some (u "Title X")).
  { unfold _extract_title, title_selectors. cbn [first_match]. rewrite Hh1.
    unfold long_and_clean, element_value. rewrite Hname, Htext. reflexivity. }
  assert (Hauthor : _extract_author soup = Some (u "Jane Doe")).
  { unfold _extract_author. rewrite first_match_none by done.
    unfold html_author_patterns. cbn [author_by_patterns]. rewrite Hsearch.
    unfold tidy_name. change (strip (u "Jane Doe")) with (u "Jane Doe").
    rewrite Hsub. reflexivity. }
  assert (Hplaylist : extract_playlist_url session_get page_content page_url
                      = Ok (Some (u "https://x/master.m3u8"))).
  { unfold extract_playlist_url, extract_media_id, media_id_patterns.
    cbn [media_id_by_pattern]. rewrite Hfind. cbn [mbind res_bind Py.bind].
    change (strip_chars quote_chars (u "1234567")) with (u "1234567").
    change (truthy (Some (u "1234567"))) with true. cbv iota.
    change (default [] (Some (u "1234567"))) with (u "1234567").
    unfold get_playlist_from_api, call_api. rewrite Hapi. reflexivity. }
  unfold _extract_metadata. rewrite Hsoup. cbn [mbind res_bind Py.bind].
  rewrite Htitle, Hauthor, Hplaylist. cbn [mbind res_bind Py.bind].
  eexists. split; [reflexivity|]. by split_and!.
Qed.

End happy_path_facts.

(* ================================================================== *)
(** * The properties *)
(* ================================================================== *)

(** C1. A page on which the cascades find no title or no author makes
    [_extract_metadata], and [scrape_audiobook] after it, return [None];
    every record that either returns has a non-empty title and a
    non-empty author. *)
Theorem extract_metadata_requires_title_and_author `{Library}
    (session_get : pystr → res ApiResponse)
    (_download_thumbnail : pystr → option (list N))
    (fetch_page : pystr → res (option pystr))
    (page_content page_url : pystr) :
  let extract := _extract_metadata session_get _download_thumbnail in
  let scrape := scrape_audiobook session_get _download_thumbnail fetch_page in
  (∀ soup,
     BeautifulSoup page_content = Ok soup →
     truthy (_extract_title soup) = false ∨ truthy (_extract_author soup) = false →
     extract page_content page_url = Ok None
     ∧ (fetch_page page_url = Ok (Some page_content) → scrape page_url = Ok None))
  ∧ (∀ metadata,
       extract page_content page_url = Ok (Some metadata) →
       title metadata ≠ [] ∧ author metadata ≠ [])
  ∧ (∀ metadata,
       scrape page_url = Ok (Some metadata) →
       title metadata ≠ [] ∧ author metadata ≠ []).
Proof.
  intros extract scrape. split_and!.
  - intros soup Hsoup Hmissing.
    assert (Hnone : extract page_content page_url = Ok None)
      by by eapply extract_metadata_gate.
    split; [done|]. intros Hfetch. unfold scrape, scrape_audiobook.
    rewrite Hfetch. cbn [mbind res_bind Py.bind].
    by destruct page_content.
  - intros metadata Hrun.
    by destruct (extract_metadata_complete _ _ _ _ _ Hrun) as (_ & _ & _ & _ & ? & ?).
  - intros metadata. unfold scrape, scrape_audiobook.
    destruct (fetch_page page_url) as [page|]; [|done].
    cbn [mbind res_bind Py.bind].
    destruct (truthy page); [|done]. intros Hrun.
    by destruct (extract_metadata_complete _ _ _ _ _ Hrun) as (_ & _ & _ & _ & ? & ?).
Qed.

Lemma extract_metadata_requires_title_and_author_witness :
  @_extract_metadata Samples.blank_library HappyPath.session_get (λ _, None)
    HappyPath.page_content HappyPath.page_url = Ok None
  ∧ (title Samples.jane_doe ≠ [] ∧ author Samples.jane_doe ≠ []).
Proof.
  split.
  - destruct (@extract_metadata_requires_title_and_author Samples.blank_library
                HappyPath.session_get (λ _, None) (λ _, Ok None)
                HappyPath.page_content HappyPath.page_url) as (Hgate & _).
    destruct (Hgate Samples.blank_soup eq_refl (or_introl eq_refl)) as [Hnone _].
    exact Hnone.
  - destruct (@extract_metadata_requires_title_and_author HappyPath.library
                HappyPath.session_get (λ _, None) (λ _, Ok None)
                HappyPath.page_content HappyPath.page_url) as (_ & Hrecord & _).
    apply Hrecord. vm_compute. reflexivity.
Defined.

(** C2. The list [_parse_category_page] returns holds each URL the
    strategies produced exactly once, in the order of first appearance:
    an entry that comes before another in the result stands, in the
    concatenated outputs of the strategies, before every entry that has
    the URL of the other.  The entry kept for a URL is the first one
    with that URL in the output of the earliest strategy that produced
    it (the strategies run in the order grid items, book items,
    livre-audio sections, generic links; one that raises contributes
    nothing). *)
Theorem parse_category_page_dedup `{Library}
    (_parse_index_grid_items _parse_book_items
     _parse_livre_audio_sections _parse_generic_links : Strategy)
    (page_content base_url : pystr) (soup : Soup) :
  BeautifulSoup page_content = Ok soup →
  let outputs :=
    contribution soup base_url <$>
      [ _parse_index_grid_items; _parse_book_items;
        _parse_livre_audio_sections; _parse_generic_links ] in
  ∃ unique,
    _parse_category_page _parse_index_grid_items _parse_book_items
      _parse_livre_audio_sections _parse_generic_links page_content base_url
    = Ok unique
    ∧ NoDup (info_url <$> unique)
    ∧ (∀ url, url ∈ info_url <$> unique ↔ url ∈ info_url <$> concat outputs)
    ∧ sublist unique (concat outputs)
    ∧ (∀ book, book ∈ unique →
         List.find (same_url book) (concat outputs) = Some book)
    ∧ (∀ book i out,
         book ∈ unique →
         outputs !! i = Some out →
         info_url book ∈ info_url <$> out →
         (∀ j earlier, (j < i)%nat → outputs !! j = Some earlier →
                       info_url book ∉ info_url <$> earlier) →
         List.find (same_url book) out = Some book)
    ∧ (∀ k1 k2 book later,
         (k1 < k2)%nat →
         unique !! k1 = Some book →
         unique !! k2 = Some later →
         ∃ i, concat outputs !! i = Some book
              ∧ ∀ j other, concat outputs !! j = Some other →
                           info_url other = info_url later → (i < j)%nat).
Proof.
  intros Hsoup outputs. unfold _parse_category_page. rewrite Hsoup.
  cbn [mbind res_bind Py.bind].
  rewrite remove_duplicates_kept, run_strategies_concat.
  fold outputs. eexists. split; [reflexivity|]. split_and!.
  - apply kept_NoDup.
  - intros url. rewrite kept_urls. split; [tauto|]. intros ?. split; [done|].
    apply not_elem_of_empty.
  - apply kept_sublist.
  - intros book. apply kept_first.
  - intros book i out Hbook Hi Hin Hearlier.
    eapply first_in_earliest; [by eapply kept_first|done..].
  - intros k1 k2 book later. apply kept_order.
Qed.

Lemma parse_category_page_dedup_witness :
  ∃ unique,
    @_parse_category_page HappyPath.library
      Samples.grid Samples.items Samples.sections Samples.links
      HappyPath.page_content HappyPath.page_url = Ok unique
    ∧ unique = [Samples.entry "A" "/a"; Samples.entry "B" "/b"; Samples.entry "C" "/c"]
    ∧ NoDup (info_url <$> unique).
Proof.
  destruct (@parse_category_page_dedup HappyPath.library
              Samples.grid Samples.items Samples.sections Samples.links
              HappyPath.page_content HappyPath.page_url HappyPath.soup eq_refl)
    as (unique & Hrun & Hnodup & _).
  exists unique. split; [exact Hrun|]. split; [|exact Hnodup].
  vm_compute in Hrun. injection Hrun as <-. reflexivity.
Defined.




(** C4 (as amended). When every response has status 500 and
    [0 <= max_retries <= 1024], and the waits are finite floats, the
    request is issued [max_retries + 1] times, the sleep after the failed
    attempt [k] lasts [delay * 2^k], these sleeps do not decrease when
    [delay >= 0], and [NetworkError] is raised after the last attempt. *)
Theorem safe_request_always_500 (server : nat → Reply) (max_retries : Z) (delay : Q) :
  0 ≤ max_retries → max_retries ≤ 1024 →
  finite_waits delay max_retries →
  (∀ k, ∃ retry_after text, server k = HttpResponse 500 retry_after text) →
  let run := safe_request server max_retries delay in
  run.1 = Raise NetworkError
  ∧ run.2 = flat_map (λ k, [Request; Sleep (delay * inject_Z (2 ^ Z.of_nat k))%Q])
              (seq 0 (Z.to_nat max_retries)) ++ [Request]
  ∧ Z.of_nat (requests run.2) = max_retries + 1
  ∧ sleeps run.2 = List.map (λ k, (delay * inject_Z (2 ^ Z.of_nat k))%Q)
                     (seq 0 (Z.to_nat max_retries))
  ∧ ((0 <= delay)%Q →
     ∀ i j, (i ≤ j)%nat →
       (delay * inject_Z (2 ^ Z.of_nat i) <= delay * inject_Z (2 ^ Z.of_nat j))%Q).
Proof.
  intros Hretries Hbound _ H500 run.
  assert (Hrun : run = (Raise NetworkError,
                        flat_map (retry_round delay) (seq 0 (Z.to_nat max_retries))
                          ++ [Request])).
  { unfold run, safe_request.
    replace (Z.to_nat (max_retries + 1)) with (S (Z.to_nat max_retries)) by lia.
    apply attempts_all_500; [done | lia | done]. }
  rewrite Hrun. cbn [fst snd]. split_and!; [done | done | | |].
  - rewrite requests_rounds, length_seq. lia.
  - apply sleeps_rounds.
  - intros Hdelay i j Hij. by apply backoff_monotone.
Qed.

Lemma safe_request_always_500_witness :
  (safe_request Samples.always_500 2 1).1 = Raise NetworkError
  ∧ (safe_request Samples.always_500 2 1).2
    = [Request; Sleep 1; Request; Sleep 2; Request]
  ∧ Z.of_nat (requests (safe_request Samples.always_500 2 1).2) = 3.
Proof.
  destruct (safe_request_always_500 Samples.always_500 2 1) as (H1 & H2 & H3 & _).
  - lia.
  - lia.
  - by vm_compute.
  - intros k. exists None, []. reflexivity.
  - split; [exact H1|]. split; [exact H2 | exact H3].
Defined.

(** C4 (as stated) fails for more than 1024 retries: the product
    [delay * (2 ** 1024)] of attempt 1024 raises [OverflowError], after
    1025 requests, where [NetworkError] after [max_retries + 1] requests
    is claimed. *)
Lemma safe_request_always_500_overflow :
  (safe_request Samples.always_500 1025 1).1 = Raise OverflowError
  ∧ requests (safe_request Samples.always_500 1025 1).2 = 1025%nat.
Proof.
  assert (safe_request Samples.always_500 1025 1
          = (Raise OverflowError,
             flat_map (retry_round 1) (seq 0 1024) ++ [Request])) as ->.
  { unfold safe_request.
    change (Z.to_nat (1025 + 1)) with 1026%nat.
    rewrite (attempts_all_500_overflow Samples.always_500 1025 1 1025 0); [done| |lia..].
    intros k. exists None, []. reflexivity. }
  split; [done|]. cbn [snd]. rewrite requests_rounds, length_seq. done.
Qed.

(** C5 (as amended). On the happy-path page the extraction gives the
    record of the scenario (title [Title X], author [Jane Doe], the
    playlist URL of the API), and the generated file name is
    [Jane_Doe_-_Title_X.mp3]: [sanitize_filename] turns every run of
    spaces into an underscore, and sanitising the name again leaves it
    as it is. *)
Theorem happy_path_record_and_filename :
  (∀ thumbnail,
     @_extract_metadata HappyPath.library HappyPath.session_get thumbnail
       HappyPath.page_content HappyPath.page_url
     = Ok (Some Samples.jane_doe))
  ∧ title Samples.jane_doe = u "Title X"
  ∧ author Samples.jane_doe = u "Jane Doe"
  ∧ playlist_url Samples.jane_doe = Some (u "https://x/master.m3u8")
  ∧ format_audiobook_filename nfkd_marks (u "Title X") (u "Jane Doe") (u "mp3")
    = u "Jane_Doe_-_Title_X.mp3"
  ∧ sanitize_filename nfkd_marks
      (format_audiobook_filename nfkd_marks (u "Title X") (u "Jane Doe") (u "mp3")) 255
    = u "Jane_Doe_-_Title_X.mp3"
  ∧ _generate_filename nfkd_marks (title Samples.jane_doe) (author Samples.jane_doe)
    = u "Jane_Doe_-_Title_X.mp3".
Proof.
  split_and!; [|reflexivity..].
  intros thumbnail.
  destruct (@happy_path_extraction HappyPath.library HappyPath.session_get
              thumbnail HappyPath.page_content HappyPath.page_url
              HappyPath.soup HappyPath.h1)
    as (metadata & Hrun & Htitle & Hauthor & Hplaylist).
  - reflexivity.
  - reflexivity.
  - reflexivity.
  - reflexivity.
  - repeat constructor.
  - reflexivity.
  - reflexivity.
  - reflexivity.
  - reflexivity.
  - rewrite Hrun. vm_compute in Hrun. by injection Hrun as <-.
Qed.

(** C5 (as stated) fails: the file name generated for the record of the
    scenario is not [Jane Doe - Title X.mp3], which holds spaces. *)
Lemma happy_path_filename_counterexample :
  _generate_filename nfkd_marks (title Samples.jane_doe) (author Samples.jane_doe)
  ≠ u "Jane Doe - Title X.mp3"
  ∧ format_audiobook_filename nfkd_marks (u "Title X") (u "Jane Doe") (u "mp3")
    ≠ u "Jane Doe - Title X.mp3".
Proof. split; discriminate. Qed.

(** C6 (as amended). The name [format_audiobook_filename] returns never
    holds one of the nine characters  < > : double-quote | ? * backslash / ,
    whatever the title and the author; and [sanitize_filename] leaves that
    name as it is whenever the name is in NFKD form.  It is in that form,
    for one, when each of the title and the author is ASCII or holds no
    control character: an accented title stays as it is. *)
Theorem sanitize_format_stable (nfkd : pystr → pystr) (title author : pystr) :
  let name := format_audiobook_filename nfkd title author (u "mp3") in
  Forall valid_char name
  ∧ ((∀ s, Forall is_ascii s → nfkd s = s) →
     Forall is_ascii title → Forall is_ascii author →
     sanitize_filename nfkd name 255 = name)
  ∧ (normalisation nfkd → nfkd name = name → sanitize_filename nfkd name 255 = name)
  ∧ (normalisation nfkd → plain title → plain author →
     sanitize_filename nfkd name 255 = name).
Proof.
  intros name. split_and!.
  - apply sanitize_valid.
  - intros Hnfkd Htitle Hauthor. by apply sanitize_stable, format_stable.
  - intros Hnorm Hn. by apply sanitize_stable, format_normal_stable.
  - intros Hnorm Htitle Hauthor.
    apply sanitize_stable, format_normal_stable; [done|]. by apply format_normal.
Qed.

Lemma nfkd_marks_ascii s : Forall is_ascii s → nfkd_marks s = s.
Proof.
  induction 1 as [|c r Hc _ IH]; [done|]. simpl. rewrite IH.
  unfold combining_class, is_ascii in *.
  destruct (N.eqb_spec c 769); [lia|]. destruct (N.eqb_spec c 803); [lia|]. done.
Qed.

Lemma sanitize_format_stable_witness :
  sanitize_filename nfkd_marks
    (format_audiobook_filename nfkd_marks [97; 769; 803]%N (u " Jane: Doe ") (u "mp3")) 255
  = u "Jane_Doe_-_a" ++ [803; 769]%N ++ u ".mp3".
Proof.
  destruct (sanitize_format_stable nfkd_marks [97; 769; 803]%N (u " Jane: Doe "))
    as (_ & _ & _ & Hstable).
  rewrite Hstable.
  - reflexivity.
  - apply nfkd_marks_normalisation.
  - right. vm_compute. by repeat constructor.
  - left. vm_compute. by repeat constructor.
Defined.

(** C6 (as stated) fails: with two combining marks kept apart by a
    control character in the title, the second sanitisation reorders the
    marks that the first one brought together. *)
Lemma sanitize_format_unstable_marks :
  let name := format_audiobook_filename nfkd_marks Samples.marked_title (u "A") (u "mp3") in
  name = u "A_-_a" ++ [769; 803]%N ++ u ".mp3"
  ∧ sanitize_filename nfkd_marks name 255 = u "A_-_a" ++ [803; 769]%N ++ u ".mp3"
  ∧ sanitize_filename nfkd_marks name 255 ≠ name.
Proof. split_and!; [reflexivity | reflexivity | discriminate]. Qed.

(** C7. When the first response has status 404, or any other 4xx status
    except 429, [safe_request] returns [None] after one request: no sleep,
    no second request, no exception. *)
Theorem safe_request_client_error (server : nat → Reply) (max_retries : Z) (delay : Q)
    (status : Z) (retry_after : option (option Q)) (text : pystr) :
  0 ≤ max_retries →
  server 0%nat = HttpResponse status retry_after text →
  400 ≤ status < 500 → status ≠ 429 →
  safe_request server max_retries delay = (Ok None, [Request]).
Proof.
  intros Hretries Hfirst Hrange Hnot429. unfold safe_request.
  replace (Z.to_nat (max_retries + 1)) with (S (Z.to_nat max_retries)) by lia.
  by eapply attempts_client_error.
Qed.

Lemma safe_request_client_error_witness :
  safe_request Samples.forbidden 3 1 = (Ok None, [Request]).
Proof.
  apply (safe_request_client_error Samples.forbidden 3 1 403 None []).
  - lia.
  - reflexivity.
  - lia.
  - lia.
Defined.


Section orchestrator_properties.

Variable nfkd : pystr → pystr.
Variable config : Config.
Variable scrape_audiobook : pystr → res (option AudiobookMetadata).
Variable path_exists : pystr → pystr → res bool.
Variable download_audiobook : pystr → pystr → pystr → res (option pystr).
Variable write_tags : pystr → AudiobookMetadata → res bool.

Abbreviation process_one :=
  (_process_single_audiobook nfkd config scrape_audiobook path_exists
     download_audiobook write_tags).

Abbreviation process_all :=
  (_process_audiobooks nfkd config scrape_audiobook path_exists
     download_audiobook write_tags).

Lemma process_skips_existing audiobook w metadata :
  has_counters w →
  scrape_audiobook (info_url audiobook) = Ok (Some metadata) →
  truthy (playlist_url metadata) = true →
  skip_existing config = true →
  path_exists (output_directory config)
    (_generate_filename nfkd (title metadata) (author metadata)) = Ok true →
  process_one audiobook w = (Ok true, ended "skipped" [] w).
Proof.
  intros Hw Hscrape Hplaylist Hskip Hexists.
  unfold _process_single_audiobook, try_catch, process_steps.
  rewrite incr_then, lift_then, Hscrape by (done || by repeat constructor).
  cbn beta iota. rewrite Hplaylist, Hskip. cbn [negb].
  rewrite lift_then, Hexists, (bumped_later w).
  rewrite incr_ended by (done || by repeat constructor). done.
Qed.

(** A file the downloader returns counts as downloaded, whatever the
    tagging answers. *)
Lemma process_downloaded audiobook w metadata file :
  has_counters w →
  scrape_audiobook (info_url audiobook) = Ok (Some metadata) →
  truthy (playlist_url metadata) = true →
  (if skip_existing config
   then path_exists (output_directory config)
          (_generate_filename nfkd (title metadata) (author metadata))
   else Ok false) = Ok false →
  download_audiobook (default [] (playlist_url metadata))
    (title metadata) (author metadata) = Ok (Some file) →
  file ≠ [] →
  ∃ cs, process_one audiobook w = (Ok true, ended "downloaded" cs w).
Proof.
  intros Hw Hscrape Hplaylist Hskip Hdownload Hfile.
  unfold _process_single_audiobook, try_catch, process_steps.
  rewrite incr_then, lift_then, Hscrape by (done || by repeat constructor).
  cbn beta iota. rewrite Hplaylist. cbn [negb].
  replace (if skip_existing config
           then lift (path_exists (output_directory config)
                        (_generate_filename nfkd (title metadata) (author metadata)))
           else ret false) with (lift (A := bool) (Ok false))
    by (by destruct (skip_existing config); rewrite ?Hskip).
  rewrite lift_then, call_then, lift_then, Hdownload.
  replace (truthy (Some file)) with true by (by destruct file).
  cbn [negb]. change (calls (bumped "processed" w)) with (calls w).
  destruct (embed_metadata config).
  - rewrite and_then_assoc, call_then, ret_then. cbn [stats calls].
    rewrite <- app_assoc, incr_ended by (done || by repeat constructor).
    by eexists.
  - rewrite ret_then, incr_ended by (done || by repeat constructor). by eexists.
Qed.

Lemma process_all_balanced audiobooks w :
  has_counters w → balanced w →
  has_counters (process_all audiobooks w) ∧ balanced (process_all audiobooks w).
Proof.
  revert w. induction audiobooks as [|audiobook rest IH]; intros w Hw Hb; [done|].
  cbn [_process_audiobooks fold_left].
  destruct (process_single_outcome nfkd config scrape_audiobook path_exists
              download_audiobook write_tags audiobook)
    as (key & success & cs & Hkey & Hrun).
  rewrite (Hrun w Hw). cbn [snd]. apply IH; [by apply has_counters_ended|].
  eapply counted_balanced; [exact Hkey| |exact Hb].
  apply counted_ended.
  rewrite !elem_of_cons, elem_of_nil in Hkey.
  by destruct Hkey as [-> | [-> | [-> | []]]].
Qed.

End orchestrator_properties.

Lemma has_counters_initial calls : has_counters {| stats := initial_stats; calls := calls |}.
Proof.
  intros key Hkey. unfold counter_keys in Hkey.
  rewrite !elem_of_cons, elem_of_nil in Hkey.
  destruct Hkey as [-> | [-> | [-> | [-> | [-> | []]]]]]; by eexists.
Qed.

(** C8. When the metadata of an item is extracted with a playlist URL,
    [skip_existing] is set and the file of the generated name exists in the
    output directory, [_process_single_audiobook] returns [True] without
    calling the downloader (or any other collaborator), adds one to
    [skipped] and leaves [downloaded] and [failed] as they were. *)
Theorem skip_existing_no_download
    (nfkd : pystr → pystr) (config : Config)
    (scrape_audiobook : pystr → res (option AudiobookMetadata))
    (path_exists : pystr → pystr → res bool)
    (download_audiobook : pystr → pystr → pystr → res (option pystr))
    (write_tags : pystr → AudiobookMetadata → res bool)
    (audiobook : AudiobookInfo) (w : World) (metadata : AudiobookMetadata) :
  has_counters w →
  scrape_audiobook (info_url audiobook) = Ok (Some metadata) →
  truthy (playlist_url metadata) = true →
  skip_existing config = true →
  path_exists (output_directory config)
    (_generate_filename nfkd (title metadata) (author metadata)) = Ok true →
  let run := _process_single_audiobook nfkd config scrape_audiobook path_exists
               download_audiobook write_tags audiobook w in
  run.1 = Ok true
  ∧ calls run.2 = calls w
  ∧ (downloader_called w = false → downloader_called run.2 = false)
  ∧ counter "processed" run.2 = counter "processed" w + 1
  ∧ counter "skipped" run.2 = counter "skipped" w + 1
  ∧ counter "downloaded" run.2 = counter "downloaded" w
  ∧ counter "failed" run.2 = counter "failed" w.
Proof.
  intros Hw Hscrape Hplaylist Hskip Hexists run. unfold run.
  rewrite (process_skips_existing nfkd config scrape_audiobook path_exists
             download_audiobook write_tags audiobook w metadata) by done.
  cbn [fst snd]. destruct (counted_ended "skipped" [] w) as (Hp & Hs & Hother); [done|].
  split_and!; try done.
  - unfold ended. cbn [calls]. by rewrite app_nil_r.
  - unfold downloader_called, ended. cbn [calls]. by rewrite app_nil_r.
  - by apply Hother.
  - by apply Hother.
Qed.

Lemma skip_existing_no_download_witness :
  let run := _process_single_audiobook nfkd_marks Samples.config
               (λ _, Ok (Some Samples.jane_doe)) (λ _ _, Ok true)
               (λ _ _ _, Ok None) (λ _ _, Ok false) Samples.item Samples.fresh in
  run.1 = Ok true ∧ calls run.2 = [] ∧ counter "skipped" run.2 = 1
  ∧ counter "downloaded" run.2 = 0 ∧ counter "failed" run.2 = 0.
Proof.
  destruct (skip_existing_no_download nfkd_marks Samples.config
              (λ _, Ok (Some Samples.jane_doe)) (λ _ _, Ok true)
              (λ _ _ _, Ok None) (λ _ _, Ok false) Samples.item Samples.fresh
              Samples.jane_doe)
    as (H1 & H2 & _ & _ & H3 & H4 & H5).
  - apply has_counters_initial.
  - reflexivity.
  - reflexivity.
  - reflexivity.
  - reflexivity.
  - cbv zeta. split; [exact H1|]. split; [exact H2|].
    split; [exact H3|]. split; [exact H4 | exact H5].
Defined.




(* ================================================================== *)
(** * Paths and extensions *)
(* ================================================================== *)

Section split_facts.

Lemma split_char_aux_head sep cur a :
  sep ∉ a → head (split_char_aux sep cur a) = Some (rev cur ++ a).
Proof.
  revert cur. induction a as [|c a IH]; intros cur Hsep; simpl.
  - by rewrite app_nil_r.
  - apply not_elem_of_cons in Hsep as [Hc Ha].
    destruct (N.eqb_spec c sep); [congruence|].
    rewrite IH by done. simpl. by rewrite <- app_assoc.
Qed.

Lemma split_char_aux_head_app sep cur a b :
  sep ∉ a → head (split_char_aux sep cur (a ++ sep :: b)) = Some (rev cur ++ a).
Proof.
  revert cur. induction a as [|c a IH]; intros cur Hsep; simpl.
  - rewrite N.eqb_refl. simpl. by rewrite app_nil_r.
  - apply not_elem_of_cons in Hsep as [Hc Ha].
    destruct (N.eqb_spec c sep); [congruence|].
    rewrite IH by done. simpl. by rewrite <- app_assoc.
Qed.

Lemma split_char_aux_last sep cur b :
  sep ∉ b → last (split_char_aux sep cur b) = Some (rev cur ++ b).
Proof.
  revert cur. induction b as [|c b IH]; intros cur Hsep; simpl.
  - by rewrite app_nil_r.
  - apply not_elem_of_cons in Hsep as [Hc Hb].
    destruct (N.eqb_spec c sep); [congruence|].
    rewrite IH by done. simpl. by rewrite <- app_assoc.
Qed.

Lemma split_char_aux_nonempty sep cur s : split_char_aux sep cur s ≠ [].
Proof.
  revert cur. induction s as [|c s IH]; intros cur; simpl; [done|].
  destruct (c =? sep)%N; [done | apply IH].
Qed.

Lemma split_char_aux_last_app sep cur a b :
  last (split_char_aux sep cur (a ++ sep :: b)) = last (split_char_aux sep [] b).
Proof.
  revert cur. induction a as [|c a IH]; intros cur; simpl.
  - rewrite N.eqb_refl.
    destruct (split_char_aux sep [] b) as [|p l] eqn:E;
      [by apply split_char_aux_nonempty in E|].
    done.
  - destruct (N.eqb_spec c sep) as [->|]; [|apply IH].
    destruct (split_char_aux sep [] (a ++ sep :: b)) as [|p l] eqn:E;
      [by apply split_char_aux_nonempty in E|].
    change (last (rev cur :: p :: l)) with (last (p :: l)).
    rewrite <- E. apply IH.
Qed.

Lemma first_part_none sep a : sep ∉ a → first_part sep a = a.
Proof. intros Ha. unfold first_part, split_char. by rewrite split_char_aux_head. Qed.

Lemma first_part_app sep a b : sep ∉ a → first_part sep (a ++ sep :: b) = a.
Proof. intros Ha. unfold first_part, split_char. by rewrite split_char_aux_head_app. Qed.

Lemma last_part_none sep b : sep ∉ b → last_part sep b = b.
Proof. intros Hb. unfold last_part, split_char. by rewrite split_char_aux_last. Qed.

Lemma last_part_app sep a b : sep ∉ b → last_part sep (a ++ sep :: b) = b.
Proof.
  intros Hb. unfold last_part, split_char.
  rewrite (split_char_aux_last_app sep [] a b), split_char_aux_last; done.
Qed.

Lemma absent_forallb (c : N) (s : pystr) :
  forallb (λ d, negb (d =? c)%N) s = true → c ∉ s.
Proof.
  induction s as [|d s IH]; simpl; [intros _; apply not_elem_of_nil|].
  intros [Hd Hs]%andb_true_iff. apply not_elem_of_cons. split; [|by apply IH].
  destruct (N.eqb_spec d c); [done | congruence].
Qed.

(** What is left of [base ++ rest] once the query and the fragment are
    cut off, when [rest] is empty or starts with [?] or [#]. *)
Lemma clean_url_base base rest :
  63%N ∉ base → 35%N ∉ base →
  rest = [] ∨ (∃ r, rest = 63%N :: r) ∨ (∃ r, rest = 35%N :: r) →
  first_part 35 (first_part 63 (base ++ rest)) = base.
Proof.
  intros Hq Hf [-> | [[r ->] | [r ->]]].
  - rewrite app_nil_r. by rewrite (first_part_none 63 base), (first_part_none 35 base).
  - by rewrite (first_part_app 63 base r), (first_part_none 35 base).
  - destruct (decide (63%N ∈ r)) as [Hin|Hout].
    + apply list_elem_of_split_l in Hin as (r1 & r2 & -> & Hr1).
      replace (base ++ 35%N :: r1 ++ 63%N :: r2)
        with ((base ++ 35%N :: r1) ++ 63%N :: r2) by (by rewrite <- app_assoc).
      rewrite (first_part_app 63); [by rewrite (first_part_app 35)|].
      rewrite elem_of_app, elem_of_cons. intros [?|[?|?]]; done.
    + rewrite (first_part_none 63); [by rewrite (first_part_app 35)|].
      rewrite elem_of_app, elem_of_cons. intros [?|[?|?]]; done.
Qed.

End split_facts.

(** X1. [extract_extension_from_url] looks only at the last path
    segment before the query and the fragment: a URL made of any
    directory part, a slash, a segment [name] and then nothing or a
    query or fragment gives what [name] alone gives. *)
Theorem extract_extension_last_segment `{Library} (str_isalnum : pystr → bool)
    (base name rest : pystr) :
  63%N ∉ base → 35%N ∉ base →
  63%N ∉ name → 35%N ∉ name → 47%N ∉ name →
  rest = [] ∨ (∃ r, rest = 63%N :: r) ∨ (∃ r, rest = 35%N :: r) →
  extract_extension_from_url str_isalnum (base ++ u "/" ++ name ++ rest)
  = extract_extension_from_url str_isalnum name.
Proof.
  intros Hbq Hbf Hnq Hnf Hns Hrest. unfold extract_extension_from_url.
  replace (base ++ u "/" ++ name ++ rest) with ((base ++ 47%N :: name) ++ rest)
    by (by rewrite <- app_assoc).
  rewrite clean_url_base; [| | |done].
  - rewrite last_part_app by done.
    rewrite (first_part_none 63 name) by done.
    rewrite (first_part_none 35 name) by done.
    rewrite (last_part_none 47 name) by done. reflexivity.
  - rewrite elem_of_app, elem_of_cons. intros [?|[?|?]]; done.
  - rewrite elem_of_app, elem_of_cons. intros [?|[?|?]]; done.
Qed.

Lemma extract_extension_last_segment_witness :
  extract_extension_from_url (H := Samples.blank_library) Examples.isalnum
    (u "https://x/a.b/master.M3U8?token=1/2#top")
  = extract_extension_from_url (H := Samples.blank_library) Examples.isalnum (u "master.M3U8").
Proof.
  apply (extract_extension_last_segment (H := Samples.blank_library) Examples.isalnum
           (u "https://x/a.b") (u "master.M3U8") (u "?token=1/2#top")).
  - by apply absent_forallb.
  - by apply absent_forallb.
  - by apply absent_forallb.
  - by apply absent_forallb.
  - by apply absent_forallb.
  - right. left. by eexists.
Defined.

Section get_safe_path_facts.

Variable files : gset Path.
Variable stat_error : Path → option exn.
Variable mkdir : pystr → res unit.
Variables stem suffix : pystr → pystr.
Variables directory filename : pystr.

Abbreviation candidate :=
  (λ counter : nat, (directory, new_name stem suffix filename counter)).

(** A path for which [Path.exists] answers [True]. *)
Abbreviation present :=
  (λ file_path : Path, file_path ∈ files ∧ stat_error file_path = None).

(** What the loop does with the first path that is not there. *)
Abbreviation outcome :=
  (λ file_path : Path,
     match stat_error file_path with
     | Some e => Raise e
     | None => Ok (Some file_path)
     end).

Lemma u_inj : Inj (=) (=) u.
Proof.
  intros s t Heq. unfold u in Heq.
  rewrite <- (String.string_of_list_ascii_of_string s),
          <- (String.string_of_list_ascii_of_string t).
  f_equal. revert Heq.
  generalize (String.list_ascii_of_string s) (String.list_ascii_of_string t).
  induction l as [|a l IH]; intros [|b l'] Heq; try done.
  injection Heq as Hab Hl. f_equal; [|by apply IH].
  by rewrite <- (Ascii.ascii_N_embedding a), <- (Ascii.ascii_N_embedding b), Hab.
Qed.

Lemma candidate_inj : Inj (=) (=) candidate.
Proof.
  intros j k [= Heq]. unfold new_name in Heq.
  apply app_inv_head, app_inv_head, app_inv_tail in Heq.
  by apply u_inj, (inj pretty) in Heq.
Qed.

(** As many numbered names as the directory has files cannot all exist
    beside one more. *)
Lemma candidates_bounded (n : nat) :
  (∀ j, (1 ≤ j ≤ n)%nat → candidate j ∈ files) → (n ≤ size files)%nat.
Proof.
  intros Hall.
  replace n with (length (candidate <$> seq 1 n))
    by (by rewrite length_fmap, length_seq).
  rewrite <- (size_list_to_set (C := gset Path)).
  - apply subseteq_size. intros p Hp.
    apply elem_of_list_to_set, list_elem_of_fmap in Hp as (j & -> & Hj).
    apply elem_of_seq in Hj. apply Hall. lia.
  - apply (@NoDup_fmap_2 _ _ candidate candidate_inj), NoDup_seq.
Qed.

Lemma exists_present file_path :
  present file_path → exists_ files stat_error file_path = Ok true.
Proof. intros [Hin Hstat]. unfold exists_. by rewrite Hstat, bool_decide_true. Qed.

(** Among the names numbered 1 to [n], the first that is not there, if
    there is one. *)
Lemma first_absent (n : nat) :
  (∃ k, (1 ≤ k ≤ n)%nat
        ∧ (∀ j, (1 ≤ j < k)%nat → present (candidate j))
        ∧ ¬ present (candidate k))
  ∨ (∀ j, (1 ≤ j ≤ n)%nat → present (candidate j)).
Proof.
  induction n as [|n [(k & Hk & Hbefore & Habsent) | Hall]].
  - right. intros j Hj. lia.
  - left. exists k. split; [lia | done].
  - destruct (stat_error (candidate (S n))) as [e|] eqn:Hstat.
    + left. exists (S n). split; [lia|]. split.
      * intros j Hj. apply Hall. lia.
      * intros [_ Hnone]. congruence.
    + destruct (decide (candidate (S n) ∈ files)) as [Hin|Hout].
      * right. intros j Hj. destruct (decide (j = S n)) as [->|]; [done|].
        apply Hall. lia.
      * left. exists (S n). split; [lia|]. split.
        -- intros j Hj. apply Hall. lia.
        -- by intros [Hin _].
Qed.

Lemma while_exists_first (fuel counter k : nat) :
  (counter ≤ k)%nat →
  (∀ j, (counter ≤ j < k)%nat → present (candidate j)) →
  ¬ present (candidate k) →
  (k - counter < fuel)%nat →
  while_exists files stat_error stem suffix fuel directory filename
    (candidate counter) (S counter)
  = outcome (candidate k).
Proof.
  revert counter. induction fuel as [|fuel IH]; intros counter Hle Hbefore Habsent Hfuel;
    [lia|].
  cbn [while_exists]. destruct (decide (counter = k)) as [->|Hne].
  - unfold exists_. destruct (stat_error (candidate k)) as [e|] eqn:Hstat; [done|].
    cbn [mbind res_bind Py.bind]. case_bool_decide as Hin; [|done].
    by destruct Habsent.
  - rewrite exists_present by (apply Hbefore; lia).
    cbn [mbind res_bind Py.bind]. apply IH; [lia| |done|lia].
    intros j Hj. apply Hbefore. lia.
Qed.

End get_safe_path_facts.

(** The path [get_safe_path] returns, or the exception it raises, once
    the directory is made. *)
Lemma get_safe_path_spec (files : gset Path) (stat_error : Path → option exn)
    (mkdir : pystr → res unit) (stem suffix : pystr → pystr)
    (directory filename : pystr) :
  mkdir directory = Ok () →
  ∃ k,
    (∀ j, (j < k)%nat →
       tried stem suffix directory filename j ∈ files
       ∧ stat_error (tried stem suffix directory filename j) = None)
    ∧ ¬ (tried stem suffix directory filename k ∈ files
         ∧ stat_error (tried stem suffix directory filename k) = None)
    ∧ ∀ fuel, (size files + 2 ≤ fuel)%nat →
        get_safe_path files stat_error mkdir stem suffix fuel directory filename
        = match stat_error (tried stem suffix directory filename k) with
          | Some e => Raise e
          | None => Ok (Some (tried stem suffix directory filename k))
          end.
Proof.
  intros Hmkdir. unfold get_safe_path. rewrite Hmkdir. cbn [mbind res_bind Py.bind].
  destruct (stat_error (directory, filename)) as [e|] eqn:Hstat.
  { exists 0%nat. split; [intros j Hj; lia|]. unfold tried. split.
    - intros [_ Hnone]. congruence.
    - intros fuel _. unfold exists_. by rewrite Hstat. }
  destruct (decide ((directory, filename) ∈ files)) as [Hin|Hout].
  2: { exists 0%nat. split; [intros j Hj; lia|]. unfold tried. split.
       - by intros [Hin _].
       - intros fuel _. unfold exists_. by rewrite Hstat, bool_decide_false. }
  destruct (first_absent files stat_error stem suffix directory filename (size files + 1))
    as [(k & Hk & Hbefore & Habsent) | Hall].
  2: { assert (size files + 1 ≤ size files)%nat; [|lia].
       apply (candidates_bounded files stem suffix directory filename).
       intros j Hj. by apply Hall. }
  exists k. destruct k as [|k]; [lia|]. split; [|split; [done|]].
  - intros [|j] Hj; [done|]. apply Hbefore. lia.
  - intros fuel Hfuel. rewrite exists_present by done. cbn [mbind res_bind Py.bind].
    destruct fuel as [|fuel]; [lia|]. cbn [while_exists].
    rewrite exists_present by done. cbn [mbind res_bind Py.bind].
    apply (while_exists_first files stat_error stem suffix directory filename
             fuel 1 (S k)); [lia| |done|lia].
    intros j Hj. apply Hbefore. lia.
Qed.

(** X2. [get_safe_path] never returns the path of an existing file.
    Once the directory is made it tries the wanted name and then the
    names with the counters 1, 2, ... and stops at the first of them for
    which [Path.exists] does not answer [True]: it returns that path
    when no file has it, and raises what [Path.exists] raises for it
    otherwise (as it does for a name that is too long).  One test more
    than the directory has files, and one for the wanted name, are
    enough. *)
Theorem get_safe_path_free (files : gset Path) (stat_error : Path → option exn)
    (mkdir : pystr → res unit) (stem suffix : pystr → pystr)
    (directory filename : pystr) :
  mkdir directory = Ok () →
  ∃ k,
    (∀ j, (j < k)%nat →
       tried stem suffix directory filename j ∈ files
       ∧ stat_error (tried stem suffix directory filename j) = None)
    ∧ ((stat_error (tried stem suffix directory filename k) = None
        ∧ (tried stem suffix directory filename k ∉ files)
        ∧ ∀ fuel, (size files + 2 ≤ fuel)%nat →
            get_safe_path files stat_error mkdir stem suffix fuel directory filename
            = Ok (Some (tried stem suffix directory filename k)))
       ∨ (∃ e, stat_error (tried stem suffix directory filename k) = Some e
               ∧ ∀ fuel, (size files + 2 ≤ fuel)%nat →
                   get_safe_path files stat_error mkdir stem suffix fuel
                     directory filename
                   = Raise e)).
Proof.
  intros Hmkdir.
  destruct (get_safe_path_spec files stat_error mkdir stem suffix directory filename
              Hmkdir) as (k & Hbefore & Habsent & Hrun).
  exists k. split; [done|].
  destruct (stat_error (tried stem suffix directory filename k)) as [e|] eqn:Hstat.
  - right. by exists e.
  - left. split; [done|]. split; [|done]. intros Hin. by apply Habsent.
Qed.

Lemma get_safe_path_free_witness :
  get_safe_path Examples.listing Examples.name_too_long (λ _, Ok ())
    Examples.stem Examples.suffix 4 (u "downloads") (u "a.mp3")
  = Ok (Some (u "downloads", u "a_2.mp3"))
  ∧ (u "downloads", u "a_2.mp3") ∉ Examples.listing.
Proof.
  destruct (get_safe_path_free Examples.listing Examples.name_too_long (λ _, Ok ())
              Examples.stem Examples.suffix (u "downloads") (u "a.mp3") eq_refl)
    as (k & Hbefore & [(Hstat & Hfree & Hrun) | (e & Hstat & Hrun)]).
  - assert (k = 2%nat) as ->.
    { destruct k as [|[|[|k]]]; [| |done|].
      - exfalso. apply Hfree. vm_compute tried. set_solver.
      - exfalso. apply Hfree. vm_compute tried. set_solver.
      - destruct (Hbefore 2%nat ltac:(lia)) as [Hin _]. vm_compute tried in Hin.
        exfalso. revert Hin. unfold Examples.listing.
        rewrite elem_of_union, !elem_of_singleton. intros [[=] | [=]]. }
    split; [|exact Hfree]. apply Hrun. vm_compute. lia.
  - specialize (Hrun 4%nat). vm_compute in Hrun. discriminate Hrun. lia.
Defined.

(* ================================================================== *)
(** * File names: length, shape and blank fields *)
(* ================================================================== *)

Section name_facts.

Variable nfkd : pystr → pystr.

Lemma len_slice_to s k : 0 ≤ k → len (slice_to s k) ≤ k.
Proof.
  intros Hk. unfold slice_to, len. rewrite (proj2 (Z.leb_le 0 k) Hk).
  rewrite length_take. lia.
Qed.

Lemma slice_to_take s k : ∃ n, slice_to s k = take n s.
Proof. unfold slice_to. destruct (0 <=? k); by eexists. Qed.

Abbreviation cleaned := (cleaned nfkd).

Lemma sanitize_cleaned filename max_length :
  sanitize_filename nfkd filename max_length
  = if len (cleaned filename) >? max_length
    then truncate (cleaned filename) max_length
    else cleaned filename.
Proof. reflexivity. Qed.

Lemma cleaned_nonempty filename : cleaned filename ≠ [].
Proof.
  unfold Behaviours.cleaned. cbv zeta.
  by destruct (strip_chars _ _) as [|c s].
Qed.

Lemma cleaned_chars filename :
  Forall (λ c, c ≠ 32%N ∧ control_char c = false) (cleaned filename).
Proof.
  unfold Behaviours.cleaned. cbv zeta.
  destruct (truthy_str _); [|by repeat constructor].
  apply Forall_strip_chars. apply Forall_and. split.
  - apply collapse_no_space.
  - apply Forall_collapse; [done|]. apply remove_control_clean.
Qed.

Lemma cleaned_settled filename : settled false (cleaned filename).
Proof.
  unfold Behaviours.cleaned. cbv zeta.
  destruct (truthy_str _); [|by vm_compute].
  unfold strip_chars.
  destruct (rstrip_take space_or_dot
              (lstrip space_or_dot
                 (collapse_runs false (remove_control (replace_invalid (nfkd filename))))))
    as [n ->].
  destruct (lstrip_drop space_or_dot
              (collapse_runs false (remove_control (replace_invalid (nfkd filename)))))
    as [m ->].
  apply settled_take, settled_drop with (b := false), settled_collapse.
Qed.

Lemma truncate_cases s max_length :
  (∃ name ext, s = name ++ 46%N :: ext ∧ len ext ≤ 10
               ∧ truncate s max_length
                 = slice_to name (max_length - len ext - 1) ++ 46%N :: ext)
  ∨ truncate s max_length = slice_to s max_length.
Proof.
  unfold truncate.
  destruct (rsplit1 46 s) as [[name ext]|] eqn:E; [|by right].
  destruct (len ext <=? 10) eqn:El; [|by right].
  left. exists name, ext. split; [by apply rsplit1_parts|].
  split; [lia | done].
Qed.

End name_facts.

(** X3. For a limit of 11 characters or more, [sanitize_filename]
    returns a name no longer than the limit, whatever the input. *)
Theorem sanitize_filename_bounded (nfkd : pystr → pystr) (filename : pystr)
    (max_length : Z) :
  11 ≤ max_length →
  len (sanitize_filename nfkd filename max_length) ≤ max_length.
Proof.
  intros Hmax. rewrite sanitize_cleaned.
  destruct (len (cleaned nfkd filename) >? max_length) eqn:Hlong; [|lia].
  destruct (truncate_cases (cleaned nfkd filename) max_length)
    as [(name & ext & _ & Hext & ->) | ->].
  - pose proof (len_slice_to name (max_length - len ext - 1)) as Hname.
    unfold len in *. rewrite length_app. cbn [length]. lia.
  - apply len_slice_to. lia.
Qed.

Lemma sanitize_filename_bounded_witness :
  len (sanitize_filename nfkd_marks (u "a name that is far too long.mp3") 11) ≤ 11.
Proof.
  apply (sanitize_filename_bounded nfkd_marks (u "a name that is far too long.mp3") 11).
  lia.
Defined.

(** X4. Whatever its input, [sanitize_filename] returns a name without
    space, without control character and without two underscores in a
    row; for a limit of one character or more the name is not empty. *)
Theorem sanitize_filename_shape (nfkd : pystr → pystr) (filename : pystr)
    (max_length : Z) :
  let name := sanitize_filename nfkd filename max_length in
  Forall (λ c, c ≠ 32%N ∧ control_char c = false) name
  ∧ settled false name
  ∧ (1 ≤ max_length → name ≠ []).
Proof.
  cbv zeta. rewrite sanitize_cleaned.
  pose proof (cleaned_chars nfkd filename) as Hchars.
  pose proof (cleaned_settled nfkd filename) as Hsettled.
  pose proof (cleaned_nonempty nfkd filename) as Hnonempty.
  destruct (len (cleaned nfkd filename) >? max_length); [|done].
  destruct (truncate_cases (cleaned nfkd filename) max_length)
    as [(name & ext & Hsplit & _ & ->) | ->].
  - rewrite Hsplit in Hchars, Hsettled.
    apply Forall_app in Hchars as [Hname Hext].
    destruct (slice_to_take name (max_length - len ext - 1)) as [n ->].
    split_and!.
    + apply Forall_app. split; [by apply Forall_take | done].
    + apply settled_app; [done | |].
      * apply settled_take.
        replace name with (take (length name) (name ++ 46%N :: ext))
          by (by rewrite take_app_length).
        by apply settled_take.
      * replace ext with (drop (S (length name)) (name ++ 46%N :: ext)).
        -- by apply settled_drop with (b := false).
        -- replace (name ++ 46%N :: ext) with ((name ++ [46%N]) ++ ext)
             by (by rewrite <- app_assoc).
           apply drop_app_length'. rewrite length_app. simpl. lia.
    + intros _. by destruct (take n name).
  - split_and!.
    + by apply Forall_slice_to.
    + destruct (slice_to_take (cleaned nfkd filename) max_length) as [n ->].
      by apply settled_take.
    + intros Hmax. unfold slice_to. rewrite (proj2 (Z.leb_le 0 max_length)) by lia.
      destruct (cleaned nfkd filename); [done|].
      by replace (Z.to_nat max_length) with (S (Z.to_nat (max_length - 1))) by lia.
Qed.

Lemma sanitize_filename_shape_witness :
  sanitize_filename nfkd_marks (u "  ..  ") 1 ≠ [].
Proof.
  apply (sanitize_filename_shape nfkd_marks (u "  ..  ") 1). lia.
Defined.

Lemma strip_blank (s : pystr) : Forall (λ c, is_space c = true) s → strip s = [].
Proof.
  intros Hs. unfold strip, strip_chars.
  replace (lstrip is_space s) with (@nil N); [done|].
  induction Hs as [|c s Hc _ IH]; [done|]. simpl. by rewrite Hc.
Qed.

(** X5. A title made of white space only, the empty title included, is
    replaced by [Unknown Title], and such an author by [Unknown Author];
    when both are blank and NFKD leaves ASCII text as it is, the file
    name is [Unknown_Author_-_Unknown_Title.mp3]. *)
Theorem format_audiobook_filename_blank (nfkd : pystr → pystr)
    (title author extension : pystr) :
  (Forall (λ c, is_space c = true) title →
   format_audiobook_filename nfkd title author extension
   = format_audiobook_filename nfkd (u "Unknown Title") author extension)
  ∧ (Forall (λ c, is_space c = true) author →
     format_audiobook_filename nfkd title author extension
     = format_audiobook_filename nfkd title (u "Unknown Author") extension)
  ∧ (Forall (λ c, is_space c = true) title →
     Forall (λ c, is_space c = true) author →
     (∀ s, Forall is_ascii s → nfkd s = s) →
     format_audiobook_filename nfkd title author (u "mp3")
     = u "Unknown_Author_-_Unknown_Title.mp3").
Proof.
  split_and!.
  - intros Htitle. unfold format_audiobook_filename.
    by rewrite (strip_blank title Htitle).
  - intros Hauthor. unfold format_audiobook_filename.
    by rewrite (strip_blank author Hauthor).
  - intros Htitle Hauthor Hnfkd. unfold format_audiobook_filename, sanitize_filename.
    rewrite (strip_blank title Htitle), (strip_blank author Hauthor). cbv zeta.
    rewrite Hnfkd; [reflexivity|]. vm_compute. repeat constructor.
Qed.

Lemma format_audiobook_filename_blank_witness :
  format_audiobook_filename nfkd_marks (u "  ") [] (u "mp3")
  = u "Unknown_Author_-_Unknown_Title.mp3".
Proof.
  apply (format_audiobook_filename_blank nfkd_marks (u "  ") [] (u "mp3")).
  - by repeat constructor.
  - constructor.
  - apply nfkd_marks_ascii.
Defined.

(* ================================================================== *)
(** * Requests, sleeps and retries *)
(* ================================================================== *)

Section pacing_facts.

Variable server : nat → Reply.
Variable max_retries : Z.
Variable delay : Q.

Abbreviation run := (attempts server max_retries delay).

Lemma requests_request tr : requests (Request :: tr) = S (requests tr).
Proof. reflexivity. Qed.

Lemma requests_sleep seconds tr : requests (Sleep seconds :: tr) = requests tr.
Proof. reflexivity. Qed.

Lemma sleeps_request tr : sleeps (Request :: tr) = sleeps tr.
Proof. reflexivity. Qed.

Lemma sleeps_sleep seconds tr : sleeps (Sleep seconds :: tr) = seconds :: sleeps tr.
Proof. reflexivity. Qed.

Lemma paced_single : paced [Request].
Proof. right. split; [done | vm_compute; lia]. Qed.

Lemma paced_request tr : paced tr → paced (Request :: tr).
Proof.
  intros [-> | [Hlast Hcount]]; [apply paced_single|]. right. split.
  - by destruct tr.
  - rewrite requests_request, sleeps_request. lia.
Qed.

Lemma paced_sleep seconds tr :
  tr ≠ [] → paced tr → paced (Request :: Sleep seconds :: tr).
Proof.
  intros Hne [-> | [Hlast Hcount]]; [done|]. right. split.
  - by destruct tr.
  - rewrite requests_request, requests_sleep, sleeps_request, sleeps_sleep.
    cbn [length]. lia.
Qed.

Lemma attempts_start todo attempt : (run (S todo) attempt).2 ≠ [].
Proof.
  cbn [attempts]. destruct (server attempt); cbn [snd]; repeat case_match; done.
Qed.

Lemma attempts_paced todo attempt :
  Z.of_nat attempt + Z.of_nat todo = max_retries + 1 →
  paced (run todo attempt).2 ∧ (requests (run todo attempt).2 ≤ todo)%nat.
Proof.
  revert attempt. induction todo as [|todo IH]; intros attempt Hsum.
  - split; [by left | done].
  - destruct (IH (S attempt)) as [Hp Hr]; [lia|].
    assert ((Z.of_nat attempt <? max_retries) = true →
            ((run todo (S attempt)).2 ≠ [])) as Hmore.
    { intros Hlt%Z.ltb_lt. destruct todo as [|todo']; [lia | apply attempts_start]. }
    assert (paced [Request] ∧ (requests [Request] ≤ S todo)%nat) as Hone.
    { split; [apply paced_single | change (requests [Request]) with 1%nat; lia]. }
    assert (∀ seconds, (Z.of_nat attempt <? max_retries) = true →
              paced (Request :: Sleep seconds :: (run todo (S attempt)).2)
              ∧ (requests (Request :: Sleep seconds :: (run todo (S attempt)).2)
                 ≤ S todo)%nat) as Hsleep.
    { intros seconds Hlt. split; [by apply paced_sleep, Hp; apply Hmore|].
      rewrite requests_request, requests_sleep. lia. }
    assert (paced (Request :: (run todo (S attempt)).2)
            ∧ (requests (Request :: (run todo (S attempt)).2) ≤ S todo)%nat) as Hgo.
    { split; [by apply paced_request|]. rewrite requests_request. lia. }
    cbn [attempts].
    destruct (server attempt) as [status retry_after text| | |e]; cbn [snd].
    + destruct (status =? 200); [done|].
      destruct (status =? 429).
      { destruct (backoff delay attempt) as [default_wait|e]; [|done].
        destruct (default _ retry_after); [|done].
        destruct (Z.of_nat attempt <? max_retries) eqn:Hlt; [by apply Hsleep | done]. }
      destruct (status >=? 500).
      { destruct (Z.of_nat attempt <? max_retries) eqn:Hlt; [|done].
        destruct (backoff delay attempt) as [seconds|e]; [by apply Hsleep | done]. }
      destruct (status =? 404); [done|].
      destruct (status >=? 400); [done|].
      destruct (run todo (S attempt)) as [r tr]. exact Hgo.
    + destruct (Z.of_nat attempt <? max_retries) eqn:Hlt; [|done].
      destruct (backoff delay attempt) as [seconds|e]; [by apply Hsleep | done].
    + destruct (Z.of_nat attempt <? max_retries) eqn:Hlt; [|done].
      destruct (backoff delay attempt) as [seconds|e]; [by apply Hsleep | done].
    + done.
Qed.

(** The attempts that are retried with a back-off, up to a first
    answer 200. *)
Lemma attempts_recover n todo attempt retry_after text :
  (∀ k, (attempt ≤ k < attempt + n)%nat → transient (server k)) →
  server (attempt + n)%nat = HttpResponse 200 retry_after text →
  Z.of_nat (attempt + n) ≤ max_retries →
  (attempt + n ≤ 1024)%nat →
  run (S todo + n) attempt
  = (Ok (Some text), flat_map (retry_round delay) (seq attempt n) ++ [Request]).
Proof.
  revert attempt todo. induction n as [|n IH]; intros attempt todo Htrans Hok Hle Hbound.
  - rewrite Nat.add_0_r in *. cbn [attempts]. rewrite Hok. done.
  - replace (S todo + S n)%nat with (S (S todo + n)) by lia.
    assert ((Z.of_nat attempt <? max_retries) = true) as Hlt by lia.
    assert (run (S todo + n) (S attempt)
            = (Ok (Some text),
               flat_map (retry_round delay) (seq (S attempt) n) ++ [Request])) as Hrest.
    { apply IH.
      - intros k Hk. apply Htrans. lia.
      - by replace (S attempt + n)%nat with (attempt + S n)%nat by lia.
      - lia.
      - lia. }
    clear IH.
    pose proof (Htrans attempt ltac:(lia)) as Hthis.
    cbn [attempts]. rewrite Hrest, Hlt, backoff_ok by lia.
    destruct (server attempt) as [status ra body| | |e]; cbn [transient] in Hthis.
    + replace (status =? 200) with false by lia.
      replace (status =? 429) with false by lia.
      replace (status >=? 500) with true by lia.
      done.
    + done.
    + done.
    + done.
Qed.

(** A server that always answers 429 with a header [float] accepts, or
    without header. *)
Lemma attempts_rate_limited (retry_after : nat → option Q) todo attempt :
  (∀ k, ∃ text, server k = HttpResponse 429 (Some <$> retry_after k) text) →
  Z.of_nat attempt + Z.of_nat todo = max_retries →
  max_retries ≤ 1023 →
  run (S todo) attempt
  = (Raise RateLimitError,
     flat_map (λ k, [Request; Sleep (wait_time delay (retry_after k) k)])
       (seq attempt todo) ++ [Request]).
Proof.
  intros Hall. revert attempt.
  induction todo as [|todo IH]; intros attempt Hsum Hbound.
  - cbn [attempts]. destruct (Hall attempt) as [text ->].
    rewrite backoff_ok by lia.
    replace (Z.of_nat attempt <? max_retries) with false by lia.
    by destruct (retry_after attempt).
  - remember (S todo) as todo' eqn:Htodo. cbn [attempts]. subst todo'.
    rewrite IH by lia. destruct (Hall attempt) as [text ->].
    rewrite backoff_ok by lia.
    replace (Z.of_nat attempt <? max_retries) with true by lia.
    cbn [seq flat_map app]. by destruct (retry_after attempt).
Qed.

(** A server whose answers are all below 400 and none 200. *)
Lemma attempts_unhandled todo attempt :
  (∀ k, ∃ status retry_after text,
        server k = HttpResponse status retry_after text
        ∧ status < 400 ∧ status ≠ 200) →
  run todo attempt = (Ok None, replicate todo Request).
Proof.
  intros Hall. revert attempt. induction todo as [|todo IH]; intros attempt; [done|].
  cbn [attempts]. rewrite IH.
  destruct (Hall attempt) as (status & retry_after & text & -> & Hlow & Hnot).
  replace (status =? 200) with false by lia.
  replace (status =? 429) with false by lia.
  replace (status >=? 500) with false by lia.
  replace (status =? 404) with false by lia.
  replace (status >=? 400) with false by lia.
  done.
Qed.

End pacing_facts.

(** X6. Whatever the server answers, [safe_request] issues at most
    [max_retries + 1] requests (none when that number is not positive),
    and a trace that is not empty ends with a request and holds fewer
    sleeps than requests: it never sleeps after its last request. *)
Theorem safe_request_paced (server : nat → Reply) (max_retries : Z) (delay : Q) :
  let tr := (safe_request server max_retries delay).2 in
  Z.of_nat (requests tr) ≤ Z.max 0 (max_retries + 1) ∧ paced tr.
Proof.
  cbv zeta. unfold safe_request.
  destruct (decide (0 ≤ max_retries + 1)) as [Hpos|Hneg].
  - destruct (attempts_paced server max_retries delay (Z.to_nat (max_retries + 1)) 0)
      as [Hp Hr]; [lia|].
    split; [lia | done].
  - replace (Z.to_nat (max_retries + 1)) with 0%nat by lia.
    split; [cbn; lia | by left].
Qed.

(** X7. When the first [n] attempts, [n] at most 1024, meet a status
    from 500 on or one of the two exceptions the loop catches, and
    attempt [n], still within the retries, is answered 200,
    [safe_request] returns the text of that answer after [n + 1]
    requests, having slept [delay * 2^k] after attempt [k] (the waits
    being finite floats). *)
Theorem safe_request_recovers (server : nat → Reply) (max_retries : Z) (delay : Q)
    (n : nat) (retry_after : option (option Q)) (text : pystr) :
  (∀ k, (k < n)%nat → transient (server k)) →
  server n = HttpResponse 200 retry_after text →
  Z.of_nat n ≤ max_retries →
  (n ≤ 1024)%nat →
  finite_waits delay (Z.of_nat n) →
  safe_request server max_retries delay
  = (Ok (Some text),
     flat_map (λ k, [Request; Sleep (delay * inject_Z (2 ^ Z.of_nat k))%Q]) (seq 0 n)
       ++ [Request]).
Proof.
  intros Htrans Hok Hle Hbound _. unfold safe_request.
  replace (Z.to_nat (max_retries + 1))
    with (S (Z.to_nat (max_retries - Z.of_nat n)) + n)%nat by lia.
  apply attempts_recover with (retry_after := retry_after).
  - intros k Hk. apply Htrans. lia.
  - done.
  - lia.
  - lia.
Qed.

Lemma safe_request_recovers_witness :
  safe_request Examples.flaky 3 1
  = (Ok (Some (u "page")), [Request; Sleep 1; Request; Sleep 2; Request]).
Proof.
  apply (safe_request_recovers Examples.flaky 3 1 2 None (u "page")).
  - intros [|[|k]] Hk; [cbn; lia | exact I | lia].
  - reflexivity.
  - lia.
  - lia.
  - by vm_compute.
Defined.

(** X8. For at most 1023 retries, a server that answers 429 every time
    makes [safe_request] issue [max_retries + 1] requests and raise
    [RateLimitError]; the sleep after attempt [k] is the [Retry-After]
    header of its answer when there is one, and [delay * 2^k] otherwise
    (the waits being finite floats).  A header that [float] rejects
    makes it raise [ValueError] after the first request. *)
Theorem safe_request_rate_limited (server : nat → Reply) (max_retries : Z) (delay : Q)
    (retry_after : nat → option Q) :
  0 ≤ max_retries →
  (max_retries ≤ 1023 →
   finite_waits delay max_retries →
   (∀ k, ∃ text, server k = HttpResponse 429 (Some <$> retry_after k) text) →
   safe_request server max_retries delay
   = (Raise RateLimitError,
      flat_map (λ k, [Request;
                      Sleep (default (delay * inject_Z (2 ^ Z.of_nat k))%Q
                               (retry_after k))])
        (seq 0 (Z.to_nat max_retries)) ++ [Request]))
  ∧ ((∃ text, server 0%nat = HttpResponse 429 (Some None) text) →
     safe_request server max_retries delay = (Raise ValueError, [Request])).
Proof.
  intros Hretries. unfold safe_request.
  replace (Z.to_nat (max_retries + 1)) with (S (Z.to_nat max_retries)) by lia.
  split.
  - intros Hbound _ Hall. apply attempts_rate_limited; [done | lia | done].
  - intros [text Hfirst]. cbn [attempts]. by rewrite Hfirst.
Qed.

Lemma safe_request_rate_limited_witness :
  safe_request Examples.throttled 2 1
  = (Raise RateLimitError, [Request; Sleep 5; Request; Sleep 2; Request]).
Proof.
  apply (safe_request_rate_limited Examples.throttled 2 1 Examples.throttled_header).
  - lia.
  - lia.
  - by vm_compute.
  - intros [|k]; by eexists.
Defined.

(** X9. Answers below 400 other than 200, such as 204 or 304, are
    neither returned nor waited for: when every answer is one,
    [safe_request] issues its [max_retries + 1] requests one after the
    other without any sleep and returns [None]. *)
Theorem safe_request_unhandled_status (server : nat → Reply) (max_retries : Z)
    (delay : Q) :
  (∀ k, ∃ status retry_after text,
        server k = HttpResponse status retry_after text
        ∧ status < 400 ∧ status ≠ 200) →
  safe_request server max_retries delay
  = (Ok None, replicate (Z.to_nat (max_retries + 1)) Request).
Proof. intros Hall. by apply attempts_unhandled. Qed.

Lemma safe_request_unhandled_status_witness :
  safe_request (λ _, HttpResponse 204 None []) 2 1
  = (Ok None, [Request; Request; Request]).
Proof.
  apply (safe_request_unhandled_status (λ _, HttpResponse 204 None []) 2 1).
  intros k. exists 204, None, []. split; [done | lia].
Defined.

Lemma time_sleep_accepts too_long seconds :
  (0 <= seconds)%Q → too_long seconds = false → time_sleep too_long seconds = Ok ().
Proof.
  intros Hpos Hshort. unfold time_sleep. rewrite Hshort.
  by rewrite (proj2 (Qle_bool_iff 0 seconds) Hpos).
Qed.

Lemma time_sleep_negative too_long seconds :
  (seconds < 0)%Q → too_long seconds = false →
  time_sleep too_long seconds = Raise ValueError.
Proof.
  intros Hneg Hshort. unfold time_sleep. rewrite Hshort.
  destruct (Qle_bool 0 seconds) eqn:Hle; [|done].
  apply Qle_bool_iff in Hle. by apply Qle_not_lt in Hle.
Qed.

Lemma sync_attempts_as_async (too_long : Q → bool) (server : nat → SyncReply)
    (max_retries : Z) (delay : Q) todo attempt :
  (∀ seconds,
     seconds ∈ sleeps (attempts (λ k, as_async (server k)) max_retries delay
                         todo attempt).2 →
     time_sleep too_long seconds = Ok ()) →
  sync_attempts server max_retries delay too_long todo attempt
  = attempts (λ k, as_async (server k)) max_retries delay todo attempt.
Proof.
  revert attempt. induction todo as [|todo IH]; intros attempt Haccepted; [done|].
  cbn [sync_attempts attempts] in *.
  set (continue := attempts (λ k, as_async (server k)) max_retries delay todo (S attempt))
    in *.
  assert (∀ seconds,
            (∀ q, q ∈ sleeps (Request :: Sleep seconds :: continue.2) →
                  time_sleep too_long q = Ok ()) →
            match time_sleep too_long seconds with
            | Ok _ =>
                ((sync_attempts server max_retries delay too_long todo (S attempt)).1,
                 Sleep seconds
                   :: (sync_attempts server max_retries delay too_long todo
                         (S attempt)).2)
            | Raise e => (Raise e, [])
            end
            = (continue.1, Sleep seconds :: continue.2)) as Hsleep.
  { intros seconds Hall. rewrite (Hall seconds) by (cbn; left).
    rewrite IH; [done|]. intros q Hq. apply Hall. cbn. by right. }
  destruct (server attempt) as [status_code retry_after text| |e]; cbn [as_async] in *.
  - destruct (status_code =? 200); [done|].
    destruct (status_code =? 429).
    { destruct (backoff delay attempt) as [default_wait|e]; [|done].
      destruct (default (Some default_wait) retry_after) as [wait|]; [|done].
      destruct (Z.of_nat attempt <? max_retries); [|done].
      cbn [fst snd] in *. by rewrite Hsleep. }
    destruct (status_code >=? 500).
    { destruct (Z.of_nat attempt <? max_retries); [|done].
      destruct (backoff delay attempt) as [seconds|e]; [|done].
      cbn [fst snd] in *. by rewrite Hsleep. }
    destruct (status_code =? 404); [done|].
    destruct (status_code >=? 400); [done|].
    cbn [fst snd] in *. rewrite IH; [reflexivity|].
    intros q Hq. apply Haccepted. fold continue in Hq. clearbody continue.
    by destruct continue.
  - destruct (Z.of_nat attempt <? max_retries); [|done].
    destruct (backoff delay attempt) as [seconds|e]; [|done].
    cbn [fst snd] in *. by rewrite Hsleep.
  - done.
Qed.

(** X10. [sync_request] follows the retry policy of [safe_request] as
    long as [time.sleep] accepts the waits: on the same replies, with
    the one exception it catches in the place of the two that
    [safe_request] catches, and when every wait that [safe_request]
    makes on them is one that is not negative and that the clock type
    holds, it returns or raises the same and makes the same requests and
    sleeps.  It differs on a negative wait: a first answer 429 with a
    negative [Retry-After] makes it raise [ValueError] after one
    request, when a retry is left. *)
Theorem sync_request_as_safe_request (too_long : Q → bool) (server : nat → SyncReply)
    (max_retries : Z) (delay : Q) :
  ((∀ seconds,
      seconds ∈ sleeps (safe_request (λ k, as_async (server k)) max_retries delay).2 →
      (0 <= seconds)%Q ∧ too_long seconds = false) →
   sync_request server max_retries delay too_long
   = safe_request (λ k, as_async (server k)) max_retries delay)
  ∧ (∀ seconds text,
       server 0%nat = SyncResponse 429 (Some (Some seconds)) text →
       (seconds < 0)%Q → too_long seconds = false → 0 < max_retries →
       sync_request server max_retries delay too_long = (Raise ValueError, [Request])).
Proof.
  split.
  - intros Haccepted. apply sync_attempts_as_async.
    intros seconds [Hpos Hshort]%Haccepted. by apply time_sleep_accepts.
  - intros seconds text Hfirst Hneg Hshort Hretries. unfold sync_request.
    replace (Z.to_nat (max_retries + 1)) with (S (Z.to_nat max_retries)) by lia.
    cbn [sync_attempts]. rewrite Hfirst.
    change (429 =? 200) with false. change (429 =? 429) with true.
    change (Z.of_nat 0) with 0. rewrite (proj2 (Z.ltb_lt 0 max_retries) Hretries).
    change (backoff delay 0) with (Ok (delay * inject_Z (2 ^ 0))%Q).
    cbn [default from_option id]. by rewrite time_sleep_negative.
Qed.

Lemma sync_request_as_safe_request_witness :
  sync_request Examples.flaky_sync 3 1 Examples.beyond_clock
  = (Ok (Some (u "page")), [Request; Sleep 1; Request; Sleep 2; Request])
  ∧ sync_request Examples.hurried 3 1 Examples.beyond_clock
    = (Raise ValueError, [Request]).
Proof.
  destruct (sync_request_as_safe_request Examples.beyond_clock Examples.flaky_sync 3 1)
    as [Hsame _].
  destruct (sync_request_as_safe_request Examples.beyond_clock Examples.hurried 3 1)
    as [_ Hnegative].
  split.
  - rewrite Hsame; [reflexivity|].
    intros seconds Hin. vm_compute in Hin.
    apply list_elem_of_In in Hin. destruct Hin as [<- | [<- | []]]; by vm_compute.
  - apply (Hnegative (-1)%Q []); [reflexivity | by vm_compute | reflexivity | lia].
Defined.

Section session_facts.

Variable server : nat → SessionReply.
Variable max_retries : Z.

Abbreviation session := (session_attempts server max_retries).

(** The attempt that ends the loop: it got the response the method
    returns, or it was the last one and failed. *)
Lemma session_attempts_last todo attempt :
  (∀ k e, server k ≠ SessionUncaught e) →
  Z.of_nat attempt + Z.of_nat todo = max_retries + 1 →
  (0 < todo)%nat →
  ∃ r tr,
    session todo attempt = (Ok r, tr)
    ∧ (requests tr ≤ todo)%nat
    ∧ match r with
      | Some response =>
          ∃ k, requests tr = S k ∧ server (attempt + k)%nat = Responded response
      | None => server (Z.to_nat max_retries) = SessionFailed
      end.
Proof.
  intros Hcaught. revert attempt.
  induction todo as [|todo IH]; intros attempt Hsum Hpos; [lia|].
  cbn [session_attempts].
  destruct (server attempt) as [response| |e] eqn:Hreply; [| |by destruct (Hcaught attempt e)].
  - destruct (response_status response <? 400).
    { exists (Some response), [Request]. split; [done|]. split; [cbn; lia|].
      exists 0%nat. by rewrite Nat.add_0_r. }
    destruct (response_status response >=? 500); cbn [andb]; cycle 1.
    { exists (Some response), [Request]. split; [done|]. split; [cbn; lia|].
      exists 0%nat. by rewrite Nat.add_0_r. }
    destruct (Z.of_nat attempt <? max_retries) eqn:Hlt; cycle 1.
    { exists (Some response), [Request]. split; [done|]. split; [cbn; lia|].
      exists 0%nat. by rewrite Nat.add_0_r. }
    destruct (IH (S attempt)) as (r & tr & -> & Hr & Hlast); [lia | lia |].
    exists r, (Request :: Sleep (pause attempt) :: tr). split; [done|].
    split; [rewrite requests_request, requests_sleep; lia|].
    destruct r as [response'|]; [|done].
    destruct Hlast as (k & Hk & Hat). exists (S k).
    rewrite requests_request, requests_sleep, Hk. split; [done|].
    by replace (attempt + S k)%nat with (S attempt + k)%nat by lia.
  - destruct (Z.of_nat attempt <? max_retries) eqn:Hlt.
    + destruct (IH (S attempt)) as (r & tr & -> & Hr & Hlast); [lia | lia |].
      exists r, (Request :: Sleep (pause attempt) :: tr). split; [done|].
      split; [rewrite requests_request, requests_sleep; lia|].
      destruct r as [response'|]; [|done].
      destruct Hlast as (k & Hk & Hat). exists (S k).
      rewrite requests_request, requests_sleep, Hk. split; [done|].
      by replace (attempt + S k)%nat with (S attempt + k)%nat by lia.
    + exists None, [Request]. split; [done|]. split; [cbn; lia|].
      replace (Z.to_nat max_retries) with attempt by lia. done.
Qed.

(** A server that always answers with a status from 500 on. *)
Lemma session_attempts_server_error todo attempt :
  (∀ k, ∃ response, server k = Responded response ∧ 500 ≤ response_status response) →
  Z.of_nat attempt + Z.of_nat todo = max_retries →
  ∃ response,
    server (Z.to_nat max_retries) = Responded response
    ∧ session (S todo) attempt
      = (Ok (Some response),
         flat_map session_round (seq attempt todo) ++ [Request]).
Proof.
  intros Hall. revert attempt.
  induction todo as [|todo IH]; intros attempt Hsum.
  - destruct (Hall attempt) as (response & Hreply & Hstatus).
    exists response. replace (Z.to_nat max_retries) with attempt by lia.
    split; [done|]. cbn [session_attempts]. rewrite Hreply.
    replace (response_status response <? 400) with false by lia.
    replace (Z.of_nat attempt <? max_retries) with false by lia.
    by rewrite andb_false_r.
  - destruct (IH (S attempt)) as (response & Hlast & Hrun); [lia|].
    exists response. split; [done|].
    remember (S todo) as todo' eqn:Htodo. cbn [session_attempts]. subst todo'.
    rewrite Hrun. destruct (Hall attempt) as (this & -> & Hstatus).
    replace (response_status this <? 400) with false by lia.
    replace (response_status this >=? 500) with true by lia.
    replace (Z.of_nat attempt <? max_retries) with true by lia.
    done.
Qed.

End session_facts.



(** X12. Unlike [safe_request], [RequestsSession._request] gives back a
    server error once the retries are used up: when every answer has a
    status from 500 on it makes [max_retries + 1] requests, sleeps
    [2^k] seconds after attempt [k], and returns the last response.
    The retries are at most 34: the longest wait is then [2^33]
    seconds, which the clock of [time.sleep] still holds. *)
Theorem session_request_server_error (server : nat → SessionReply) (max_retries : Z) :
  0 ≤ max_retries → max_retries ≤ 34 →
  (∀ k, ∃ response, server k = Responded response ∧ 500 ≤ response_status response) →
  ∃ response,
    server (Z.to_nat max_retries) = Responded response
    ∧ _request server max_retries
      = (Ok (Some response),
         flat_map (λ k, [Request; Sleep (inject_Z (2 ^ Z.of_nat k))])
           (seq 0 (Z.to_nat max_retries)) ++ [Request]).
Proof.
  intros Hretries _ Hall. unfold _request.
  replace (Z.to_nat (max_retries + 1)) with (S (Z.to_nat max_retries)) by lia.
  apply session_attempts_server_error; [done | lia].
Qed.

Lemma session_request_server_error_witness :
  ∃ response,
    Examples.unavailable_session (Z.to_nat 2) = Responded response
    ∧ _request Examples.unavailable_session 2
      = (Ok (Some response), [Request; Sleep 1; Request; Sleep 2; Request]).
Proof.
  apply (session_request_server_error Examples.unavailable_session 2).
  - lia.
  - lia.
  - intros k. eexists. split; [reflexivity | cbn; lia].
Defined.

(* ================================================================== *)
(** * The recursive search and the origin of a playlist URL *)
(* ================================================================== *)

Lemma member_list_cons y ys :
  member_strings (JList (y :: ys)) = member_strings y ++ member_strings (JList ys).
Proof. done. Qed.

Lemma member_dict_cons k v rest :
  member_strings (JDict ((k, v) :: rest))
  = match v with
    | JStr s => [s]
    | JList _ | JDict _ => member_strings v
    | _ => []
    end ++ member_strings (JDict rest).
Proof. done. Qed.

(** X13. The recursive search of [get_playlist_from_api] returns the
    first string ending in [.m3u8] among the values of object members,
    in depth-first order, and [None] when there is none; the strings
    that are elements of a list are not looked at. *)
Theorem find_m3u8_recursive_members (x : json) :
  find_m3u8_recursive x = List.find is_m3u8 (member_strings x).
Proof.
  induction x as [| | | |s|xs IH|kvs IH] using json_induction; try done.
  - induction IH as [|y ys Hy _ IHys]; [done|].
    rewrite find_list_cons, member_list_cons, find_app_first, IHys, Hy.
    apply truthy_find.
  - induction IH as [|[k v] rest Hv _ IHrest]; [done|].
    rewrite find_dict_cons, member_dict_cons, find_app_first, IHrest. simpl in Hv.
    destruct v; try done.
    + simpl. unfold is_m3u8. by destruct (endswith s m3u8).
    + rewrite Hv. apply truthy_find.
    + rewrite Hv. apply truthy_find.
Qed.

(** X14. A URL that [get_playlist_from_api] returns was read in the
    answer of the validation API: the request returned a response whose
    status [raise_for_status] accepts and whose body is JSON, and the
    URL is one of the strings of that JSON. *)
Theorem get_playlist_from_api_origin (session_get : pystr → res ApiResponse)
    (media_id playlist_url : pystr) :
  get_playlist_from_api session_get media_id = Ok (Some playlist_url) →
  ∃ response data,
    session_get media_id = Ok response
    ∧ raise_for_status response = Ok ()
    ∧ json_ response = Ok data
    ∧ playlist_url ∈ strings_of data.
Proof.
  unfold get_playlist_from_api, call_api.
  destruct (session_get media_id) as [response|]; cbn; [|done].
  destruct (raise_for_status response) as [[]|] eqn:Hstatus; cbn; [|done].
  destruct (json_ response) as [data|] eqn:Hjson; cbn; [|done].
  destruct (search_response data) as [found|] eqn:Hsearch; cbn; [|done].
  intros [= ->]. exists response, data. split_and!; try done.
  by apply search_response_elem.
Qed.

Lemma get_playlist_from_api_origin_witness :
  ∃ response data,
    Samples.answering Samples.nested_response (u "1234567") = Ok response
    ∧ raise_for_status response = Ok ()
    ∧ json_ response = Ok data
    ∧ u "https://y/z.m3u8" ∈ strings_of data.
Proof.
  apply (get_playlist_from_api_origin (Samples.answering Samples.nested_response)
           (u "1234567") (u "https://y/z.m3u8")).
  reflexivity.
Defined.

(* ================================================================== *)
(** * The metadata record and the title clean-up *)
(* ================================================================== *)

Section record_facts.

Context `{Library}.
Variable session_get : pystr → res ApiResponse.
Variable _download_thumbnail : pystr → option (list N).

Lemma first_match_picked {A} soup (pick : Element → option A) selectors value :
  first_match soup pick selectors = Some value →
  ∃ element, pick element = Some value.
Proof.
  induction selectors as [|selector rest IH]; [done|]. cbn [first_match].
  destruct (select_one soup selector) as [[element|]|]; [|done..].
  destruct (pick element) as [v|] eqn:Hpick; [|done].
  intros [= <-]. by exists element.
Qed.

Lemma non_empty_some value v : non_empty value = Some v → v ≠ [].
Proof.
  unfold non_empty. destruct value as [w|]; [|done].
  destruct w; [done|]. by intros [= <-].
Qed.

Lemma first_match_non_empty soup (read : Element → option pystr) selectors v :
  first_match soup (λ element, non_empty (read element)) selectors = Some v → v ≠ [].
Proof.
  intros (element & Hpick)%first_match_picked. by eapply non_empty_some.
Qed.

Lemma extract_genre_some soup : ∃ genre, _extract_genre soup = Some genre ∧ genre ≠ [].
Proof.
  unfold _extract_genre.
  destruct (first_match _ _ _) as [genre|] eqn:Hfirst.
  - exists genre. split; [done|]. by eapply first_match_non_empty.
  - by eexists.
Qed.

Lemma extract_description_long soup description :
  _extract_description soup = Some description → 20 < len description.
Proof.
  unfold _extract_description.
  intros (element & Hpick)%first_match_picked. revert Hpick.
  unfold long_and_clean, non_empty.
  destruct (element_value element) as [value|]; [|done].
  destruct (truthy_str value); [|done]. cbn [andb].
  destruct (len value >? 20) eqn:Hlen; [|done].
  intros [= <-]. lia.
Qed.

End record_facts.

(** What holds of every record [_extract_metadata] returns. *)
Lemma extract_metadata_fields `{Library} (session_get : pystr → res ApiResponse)
    (_download_thumbnail : pystr → option (list N))
    (page_content page_url : pystr) (metadata : AudiobookMetadata) :
  _extract_metadata session_get _download_thumbnail page_content page_url
  = Ok (Some metadata) →
  url metadata = page_url
  ∧ language metadata = u "fr"
  ∧ (∃ g, genre metadata = Some g ∧ g ≠ [])
  ∧ (∀ s, playlist_url metadata = Some s → endswith s m3u8 = true)
  ∧ (∀ s, description metadata = Some s → 20 < len s)
  ∧ (∀ s, isbn metadata = Some s ∨ publisher metadata = Some s
          ∨ publication_date metadata = Some s → s ≠ [])
  ∧ (is_Some (thumbnail_data metadata) → truthy (thumbnail_url metadata) = true)
  ∧ (is_Some (series_number metadata) → is_Some (series metadata)).
Proof.
  unfold _extract_metadata.
  destruct (BeautifulSoup page_content) as [soup|]; cbn [mbind res_bind Py.bind]; [|done].
  destruct (negb (truthy (_extract_title soup)) || negb (truthy (_extract_author soup)));
    [done|].
  destruct (extract_playlist_url_total_aux session_get page_content page_url)
    as (playlist & -> & Hplaylist).
  cbn [mbind res_bind Py.bind]. cbv zeta. intros [= <-].
  cbn [url language genre playlist_url description isbn publisher publication_date
       thumbnail_data thumbnail_url series series_number].
  split_and!.
  - reflexivity.
  - reflexivity.
  - apply extract_genre_some.
  - intros s Hs. by apply Hplaylist.
  - intros s Hs. by eapply extract_description_long.
  - unfold _extract_isbn, _extract_publisher, _extract_publication_date.
    intros s [Hs | [Hs | Hs]].
    + exact (first_match_non_empty soup element_value _ s Hs).
    + exact (first_match_non_empty soup element_value _ s Hs).
    + exact (first_match_non_empty soup _ _ s Hs).
  - destruct (truthy (_extract_thumbnail_url soup page_url)); [done|].
    by intros [? ?].
  - destruct (_extract_series_info soup) as [[series number]|]; [by eexists|].
    by intros [? ?].
Qed.


(** X15. Every record [_extract_metadata] returns carries the URL of
    the page, the language [fr] and a genre that is not empty
    ([Jeunesse] when the page names none); its playlist URL, if any,
    ends in [.m3u8]; a description, an ISBN, a publisher or a
    publication date that is present is not empty, the description
    longer than 20 characters; thumbnail data come only with a
    thumbnail URL, and a series number only with a series. *)
Theorem extract_metadata_record `{Library} (session_get : pystr → res ApiResponse)
    (_download_thumbnail : pystr → option (list N))
    (page_content page_url : pystr) (metadata : AudiobookMetadata) :
  _extract_metadata session_get _download_thumbnail page_content page_url
  = Ok (Some metadata) →
  url metadata = page_url
  ∧ language metadata = u "fr"
  ∧ (∃ g, genre metadata = Some g ∧ g ≠ [])
  ∧ (∀ s, playlist_url metadata = Some s → endswith s m3u8 = true)
  ∧ (∀ s, description metadata = Some s → 20 < len s)
  ∧ (∀ s, isbn metadata = Some s ∨ publisher metadata = Some s
          ∨ publication_date metadata = Some s → s ≠ [])
  ∧ (is_Some (thumbnail_data metadata) → truthy (thumbnail_url metadata) = true)
  ∧ (is_Some (series_number metadata) → is_Some (series metadata)).
Proof. apply extract_metadata_fields. Qed.

Lemma extract_metadata_record_witness :
  url Samples.jane_doe = HappyPath.page_url
  ∧ language Samples.jane_doe = u "fr"
  ∧ (∃ g, genre Samples.jane_doe = Some g ∧ g ≠ []).
Proof.
  destruct (extract_metadata_record (H := HappyPath.library) HappyPath.session_get
              (λ _, None) HappyPath.page_content HappyPath.page_url Samples.jane_doe)
    as (Hurl & Hlanguage & Hgenre & _).
  - reflexivity.
  - by split_and!.
Defined.

Section clean_title_facts.

Lemma startswith_app (a b : pystr) : startswith (a ++ b) a = true.
Proof. induction a as [|c a IH]; [by destruct b|]. simpl. by rewrite N.eqb_refl. Qed.

Lemma endswith_app (title suffix : pystr) : endswith (title ++ suffix) suffix = true.
Proof. unfold endswith. rewrite rev_app_distr. apply startswith_app. Qed.

Lemma slice_to_suffix (title suffix : pystr) :
  suffix ≠ [] → slice_to (title ++ suffix) (- len suffix) = title.
Proof.
  intros Hne. unfold slice_to, len.
  assert (0 < length suffix)%nat as Hlen by (destruct suffix; [done | cbn; lia]).
  replace (0 <=? - Z.of_nat (length suffix)) with false by lia.
  rewrite length_app.
  replace (Z.to_nat (Z.of_nat (length title + length suffix) + - Z.of_nat (length suffix)))
    with (length title) by lia.
  by rewrite take_app_length.
Qed.

Lemma clean_title_steps title :
  _clean_title title = strip (fold_left remove_suffix suffixes_to_remove title).
Proof. reflexivity. Qed.

Lemma remove_suffix_same title suffix :
  suffix ≠ [] → remove_suffix (title ++ suffix) suffix = title.
Proof.
  intros Hne. unfold remove_suffix. by rewrite endswith_app, slice_to_suffix.
Qed.

Lemma remove_suffix_none title suffix :
  endswith title suffix = false → remove_suffix title suffix = title.
Proof. intros Hno. unfold remove_suffix. by rewrite Hno. Qed.

Lemma remove_suffixes_none title suffixes :
  Forall (λ suffix, endswith title suffix = false) suffixes →
  fold_left remove_suffix suffixes title = title.
Proof.
  induction 1 as [|suffix rest Hno _ IH]; [done|].
  cbn [fold_left]. by rewrite remove_suffix_none.
Qed.

End clean_title_facts.

(** X16. [_clean_title] removes the site name: for a title that has no
    white space at either end and does not itself end with one of the
    five suffixes, the title followed by any one of the suffixes is
    cleaned to the title. *)
Theorem clean_title_removes_suffix (title suffix : pystr) :
  suffix ∈ suffixes_to_remove →
  strip title = title →
  Forall (λ other, endswith title other = false) suffixes_to_remove →
  _clean_title (title ++ suffix) = title.
Proof.
  intros Hsuffix Hstrip Hnone. rewrite clean_title_steps.
  unfold suffixes_to_remove in *.
  repeat (apply Forall_cons in Hnone as [? Hnone]).
  rewrite !elem_of_cons, elem_of_nil in Hsuffix.
  destruct Hsuffix as [-> | [-> | [-> | [-> | [-> | []]]]]]; cbn [fold_left].
  all: repeat first
    [ rewrite remove_suffix_same by done
    | rewrite (remove_suffix_none title) by done
    | rewrite (remove_suffix_none (title ++ _))
        by (unfold endswith; rewrite rev_app_distr; reflexivity) ].
  all: exact Hstrip.
Qed.

Lemma clean_title_removes_suffix_witness :
  _clean_title (u "Title X | ICI OHdio") = u "Title X".
Proof.
  apply (clean_title_removes_suffix (u "Title X") (u " | ICI OHdio")).
  - by left.
  - reflexivity.
  - by repeat constructor.
Defined.

(* ================================================================== *)
(** * The runs of the application *)
(* ================================================================== *)

Section application_facts.

Variable nfkd : pystr → pystr.
Variable config : Config.
Variable scrape_audiobook : pystr → res (option AudiobookMetadata).
Variable path_exists : pystr → pystr → res bool.
Variable download_audiobook : pystr → pystr → pystr → res (option pystr).
Variable write_tags : pystr → AudiobookMetadata → res bool.

Abbreviation process_item :=
  (_process_single_audiobook nfkd config scrape_audiobook path_exists
     download_audiobook write_tags).

Abbreviation process_items :=
  (_process_audiobooks nfkd config scrape_audiobook path_exists
     download_audiobook write_tags).

(** The outcome of a call with what it returns and what it calls. *)
Lemma process_single_report audiobook :
  ∃ key success cs,
    key ∈ ["downloaded"; "skipped"; "failed"]
    ∧ (success = true ↔ key ≠ "failed")
    ∧ orderly (embed_metadata config) key cs
    ∧ ∀ w, has_counters w → process_item audiobook w = (Ok success, ended key cs w).
Proof.
  assert (Kp : "processed" ∈ counter_keys) by (by repeat constructor).
  assert (Kf : "failed" ∈ counter_keys) by (by repeat constructor).
  assert (Ks : "skipped" ∈ counter_keys) by (by repeat constructor).
  assert (Kd : "downloaded" ∈ counter_keys) by (by repeat constructor).
  unfold _process_single_audiobook, try_catch, process_steps.
  destruct (scrape_audiobook (info_url audiobook)) as [[metadata|]|] eqn:Hscrape;
    [destruct (truthy (playlist_url metadata)) eqn:Hplaylist;
     [destruct (if skip_existing config
                then path_exists (output_directory config)
                       (_generate_filename nfkd (title metadata) (author metadata))
                else Ok false) as [[|]|] eqn:Hexisting;
      [|destruct (download_audiobook (default [] (playlist_url metadata))
                    (title metadata) (author metadata))
          as [downloaded_file|] eqn:Hdownload;
        [destruct (truthy downloaded_file) eqn:Hfile|]|]|]| |].
  all: try assert (Hexisting' :
         (if skip_existing config
          then lift (path_exists (output_directory config)
                       (_generate_filename nfkd (title metadata) (author metadata)))
          else ret false) = lift (if skip_existing config
                                  then path_exists (output_directory config)
                                         (_generate_filename nfkd (title metadata)
                                            (author metadata))
                                  else Ok false))
         by (by destruct (skip_existing config)).
  - exists "skipped", true, []. split; [by repeat constructor|].
    split; [done|]. split; [done|]. intros w Hw.
    rewrite incr_then, lift_then by done. cbn beta iota.
    rewrite ?Hplaylist. cbn [negb]. rewrite ?Hexisting', ?Hexisting, ?lift_then.
    rewrite (bumped_later w). by rewrite incr_ended.
  - exists "downloaded", true,
      (DownloadAudiobook (default [] (playlist_url metadata))
         (title metadata) (author metadata)
       :: if embed_metadata config
          then [EmbedMetadata (default [] downloaded_file)] else []).
    split; [by repeat constructor|]. split; [done|].
    split; [by do 4 eexists|]. intros w Hw.
    rewrite incr_then, lift_then by done. cbn beta iota.
    rewrite ?Hplaylist. cbn [negb]. rewrite ?Hexisting', ?Hexisting, ?lift_then.
    rewrite call_then, lift_then, ?Hdownload, ?Hfile. cbn [negb].
    destruct (embed_metadata config).
    + rewrite and_then_assoc, call_then, ret_then. cbn [stats calls].
      change (calls (bumped "processed" w)) with (calls w).
      rewrite <- app_assoc. by rewrite incr_ended.
    + rewrite ret_then. change (calls (bumped "processed" w)) with (calls w).
      by rewrite incr_ended.
  - exists "failed", false,
      [DownloadAudiobook (default [] (playlist_url metadata))
         (title metadata) (author metadata)].
    split; [by repeat constructor|]. split; [done|].
    split; [right; by do 3 eexists|]. intros w Hw.
    rewrite incr_then, lift_then by done. cbn beta iota.
    rewrite ?Hplaylist. cbn [negb]. rewrite ?Hexisting', ?Hexisting, ?lift_then.
    rewrite call_then, lift_then, ?Hdownload, ?Hfile. cbn [negb].
    change (calls (bumped "processed" w)) with (calls w). by rewrite incr_ended.
  - exists "failed", false,
      [DownloadAudiobook (default [] (playlist_url metadata))
         (title metadata) (author metadata)].
    split; [by repeat constructor|]. split; [done|].
    split; [right; by do 3 eexists|]. intros w Hw.
    rewrite incr_then, lift_then by done. cbn beta iota.
    rewrite ?Hplaylist. cbn [negb]. rewrite ?Hexisting', ?Hexisting, ?lift_then.
    rewrite call_then, lift_then, ?Hdownload.
    change (calls (bumped "processed" w)) with (calls w). by rewrite incr_ended.
  - exists "failed", false, []. split; [by repeat constructor|].
    split; [done|]. split; [by left|]. intros w Hw.
    rewrite incr_then, lift_then by done. cbn beta iota.
    rewrite ?Hplaylist. cbn [negb]. rewrite ?Hexisting', ?Hexisting, ?lift_then.
    rewrite (bumped_later w). by rewrite incr_ended.
  - exists "failed", false, []. split; [by repeat constructor|].
    split; [done|]. split; [by left|]. intros w Hw.
    rewrite incr_then, lift_then by done. cbn beta iota.
    rewrite ?Hplaylist. cbn [negb].
    rewrite (bumped_later w). by rewrite incr_ended.
  - exists "failed", false, []. split; [by repeat constructor|].
    split; [done|]. split; [by left|]. intros w Hw.
    rewrite incr_then, lift_then by done. cbn beta iota.
    rewrite (bumped_later w). by rewrite incr_ended.
  - exists "failed", false, []. split; [by repeat constructor|].
    split; [done|]. split; [by left|]. intros w Hw.
    rewrite incr_then, lift_then by done.
    rewrite (bumped_later w). by rewrite incr_ended.
Qed.

Lemma ended_processed key cs w :
  key ∈ ["downloaded"; "skipped"; "failed"] →
  counter "processed" (ended key cs w) = counter "processed" w + 1
  ∧ counter "discovered" (ended key cs w) = counter "discovered" w.
Proof.
  intros Hkey.
  assert (key ≠ "processed" ∧ key ≠ "discovered") as [Hp Hd].
  { rewrite !elem_of_cons, elem_of_nil in Hkey.
    by destruct Hkey as [-> | [-> | [-> | []]]]. }
  destruct (counted_ended key cs w Hp) as (Hprocessed & _ & Hothers).
  split; [done|]. by apply Hothers.
Qed.

Lemma process_items_counts audiobooks w :
  has_counters w →
  has_counters (process_items audiobooks w)
  ∧ counter "processed" (process_items audiobooks w)
    = counter "processed" w + Z.of_nat (length audiobooks)
  ∧ counter "discovered" (process_items audiobooks w) = counter "discovered" w.
Proof.
  revert w. induction audiobooks as [|audiobook rest IH]; intros w Hw.
  - cbn. split; [done|]. split; [lia | done].
  - cbn [_process_audiobooks fold_left].
    destruct (process_single_outcome nfkd config scrape_audiobook path_exists
                download_audiobook write_tags audiobook)
      as (key & success & cs & Hkey & Hrun).
    rewrite (Hrun w Hw). cbn [snd].
    destruct (IH (ended key cs w)) as (Hc & Hp & Hd); [by apply has_counters_ended|].
    destruct (ended_processed key cs w Hkey) as [Hp' Hd'].
    change (fold_left _ rest (ended key cs w)) with (process_items rest (ended key cs w)).
    split; [done|]. split; [|congruence].
    rewrite Hp, Hp'. cbn [length]. lia.
Qed.

Lemma get_stat_then {A} key (k : Z → M A) w :
  has_counters w → key ∈ counter_keys →
  and_then (get_stat key) k w = k (counter key w) w.
Proof.
  intros Hw Hkey. unfold and_then, get_stat, counter.
  by destruct (Hw key Hkey) as [n ->].
Qed.

Lemma print_summary_ok w : has_counters w → _print_summary w = (Ok (), w).
Proof.
  intros Hw. unfold _print_summary.
  repeat rewrite get_stat_then by (done || by repeat constructor).
  destruct (counter "processed" w >? 0); [|done].
  by repeat rewrite get_stat_then by (done || by repeat constructor).
Qed.

Lemma set_stat_then {A} key value (k : unit → M A) w :
  and_then (set_stat key value) k w
  = k () {| stats := <[key := value]> (stats w); calls := calls w |}.
Proof. reflexivity. Qed.

Lemma has_counters_set key value w :
  has_counters w →
  has_counters {| stats := <[key := value]> (stats w); calls := calls w |}.
Proof.
  intros Hw k Hk. cbn. destruct (decide (k = key)) as [->|Hne].
  - by rewrite lookup_insert_eq.
  - rewrite lookup_insert_ne by done. by apply Hw.
Qed.

End application_facts.

(** X17. [download_single_audiobook] raises nothing when the counters
    are there, and returns [True] exactly when the item was counted as
    downloaded or as skipped: its result tells a failure from the two
    other outcomes. *)
Theorem download_single_audiobook_verdict (nfkd : pystr → pystr) (config : Config)
    (scrape_audiobook : pystr → res (option AudiobookMetadata))
    (path_exists : pystr → pystr → res bool)
    (download_audiobook : pystr → pystr → pystr → res (option pystr))
    (write_tags : pystr → AudiobookMetadata → res bool)
    (book_url : pystr) (w : World) :
  has_counters w →
  ∃ key success cs,
    download_single_audiobook nfkd config scrape_audiobook path_exists
      download_audiobook write_tags book_url w
    = (Ok success, ended key cs w)
    ∧ key ∈ ["downloaded"; "skipped"; "failed"]
    ∧ (success = true ↔ key ≠ "failed").
Proof.
  intros Hw. unfold download_single_audiobook, try_catch, and_then. cbv zeta.
  destruct (process_single_report nfkd config scrape_audiobook path_exists
              download_audiobook write_tags
              {| info_title := u "Unknown"; info_author := u "Unknown";
                 info_url := book_url; info_thumbnail_url := None;
                 info_description := None |})
    as (key & success & cs & Hkey & Hverdict & _ & Hrun).
  rewrite (Hrun w Hw). by exists key, success, cs.
Qed.

Lemma download_single_audiobook_verdict_witness :
  ∃ key success cs,
    download_single_audiobook nfkd_marks Samples.config
      (λ _, Ok (Some Samples.jane_doe)) (λ _ _, Ok true) (λ _ _ _, Ok None)
      (λ _ _, Ok false) HappyPath.page_url Samples.fresh
    = (Ok success, ended key cs Samples.fresh)
    ∧ key ∈ ["downloaded"; "skipped"; "failed"]
    ∧ (success = true ↔ key ≠ "failed").
Proof.
  apply (download_single_audiobook_verdict nfkd_marks Samples.config
           (λ _, Ok (Some Samples.jane_doe)) (λ _ _, Ok true) (λ _ _ _, Ok None)
           (λ _ _, Ok false) HappyPath.page_url Samples.fresh).
  apply has_counters_initial.
Defined.

(** X18. One call of [_process_single_audiobook] calls the downloader
    at most once and the tagger at most once, the tagger only after a
    download that gave a file and only when [embed_metadata] is set; a
    call that ends as skipped calls neither, and a call that ends as
    failed never calls the tagger. *)
Theorem process_single_calls (nfkd : pystr → pystr) (config : Config)
    (scrape_audiobook : pystr → res (option AudiobookMetadata))
    (path_exists : pystr → pystr → res bool)
    (download_audiobook : pystr → pystr → pystr → res (option pystr))
    (write_tags : pystr → AudiobookMetadata → res bool)
    (audiobook : AudiobookInfo) (w : World) :
  has_counters w →
  ∃ key success cs,
    _process_single_audiobook nfkd config scrape_audiobook path_exists
      download_audiobook write_tags audiobook w
    = (Ok success, ended key cs w)
    ∧ key ∈ ["downloaded"; "skipped"; "failed"]
    ∧ orderly (embed_metadata config) key cs.
Proof.
  intros Hw.
  destruct (process_single_report nfkd config scrape_audiobook path_exists
              download_audiobook write_tags audiobook)
    as (key & success & cs & Hkey & _ & Horderly & Hrun).
  exists key, success, cs. by rewrite (Hrun w Hw).
Qed.

Lemma process_single_calls_witness :
  ∃ key success cs,
    _process_single_audiobook nfkd_marks Samples.config
      (λ _, Ok (Some Samples.jane_doe)) (λ _ _, Ok false)
      (λ _ _ _, Ok (Some (u "downloads/Jane_Doe_-_Title_X.mp3")))
      (λ _ _, Raise OtherError) Samples.item Samples.fresh
    = (Ok success, ended key cs Samples.fresh)
    ∧ key ∈ ["downloaded"; "skipped"; "failed"]
    ∧ orderly (embed_metadata Samples.config) key cs.
Proof.
  apply (process_single_calls nfkd_marks Samples.config
           (λ _, Ok (Some Samples.jane_doe)) (λ _ _, Ok false)
           (λ _ _ _, Ok (Some (u "downloads/Jane_Doe_-_Title_X.mp3")))
           (λ _ _, Raise OtherError) Samples.item Samples.fresh).
  apply has_counters_initial.
Defined.



(* ================================================================== *)
(** * The catalogue of a category *)
(* ================================================================== *)

Lemma kept_count (books : list AudiobookInfo) :
  length (kept ∅ books) = size (list_to_set (info_url <$> books) : gset pystr).
Proof.
  rewrite <- (length_fmap info_url).
  rewrite <- (size_list_to_set (C := gset pystr)) by apply kept_NoDup.
  f_equal. apply set_eq. intros url.
  rewrite !elem_of_list_to_set, kept_urls.
  split; [by intros [? _] | intros Hin; split; [done | apply not_elem_of_empty]].
Qed.

(** X20. [scrape_category] returns the empty list, without parsing
    anything, when the page of the category cannot be fetched; and for a
    page that is fetched and parsed, [get_total_audiobook_count] is the
    number of distinct URLs among the books the four strategies find,
    the strategies that raise finding none. *)
Theorem category_count `{Library}
    (_parse_index_grid_items _parse_book_items
     _parse_livre_audio_sections _parse_generic_links : Strategy)
    (fetch_page : pystr → res (option pystr)) (category_url : option pystr) :
  let url := default JEUNESSE_CATEGORY_URL category_url in
  let strategies := [_parse_index_grid_items; _parse_book_items;
                     _parse_livre_audio_sections; _parse_generic_links] in
  (∀ page_content,
     fetch_page url = Ok page_content → truthy page_content = false →
     scrape_category _parse_index_grid_items _parse_book_items
       _parse_livre_audio_sections _parse_generic_links fetch_page category_url
     = Ok [])
  ∧ (∀ page_content soup,
       fetch_page url = Ok (Some page_content) → page_content ≠ [] →
       BeautifulSoup page_content = Ok soup →
       get_total_audiobook_count _parse_index_grid_items _parse_book_items
         _parse_livre_audio_sections _parse_generic_links fetch_page category_url
       = Ok (Z.of_nat (size (list_to_set
               (info_url <$> concat (contribution soup url <$> strategies))
               : gset pystr)))).
Proof.
  intros url strategies. subst strategies. split.
  - intros page_content Hfetch Hnone. unfold scrape_category. cbv zeta.
    fold url. rewrite Hfetch. cbn [mbind res_bind Py.bind]. by rewrite Hnone.
  - intros page_content soup Hfetch Hpage Hsoup.
    unfold get_total_audiobook_count, scrape_category. cbv zeta.
    fold url. clearbody url. cbn [from_option id].
    rewrite Hfetch. cbn [mbind res_bind Py.bind].
    replace (truthy (Some page_content)) with true by (by destruct page_content).
    cbn [negb from_option id]. unfold _parse_category_page. rewrite Hsoup.
    cbn [mbind res_bind Py.bind].
    rewrite remove_duplicates_kept, run_strategies_concat, kept_count. done.
Qed.

Lemma category_count_witness :
  get_total_audiobook_count (H := Samples.blank_library) Samples.grid Samples.items
    Samples.sections Samples.links (λ _, Ok (Some (u "<html></html>"))) None
  = Ok 3.
Proof.
  destruct (category_count (H := Samples.blank_library) Samples.grid Samples.items
              Samples.sections Samples.links (λ _, Ok (Some (u "<html></html>"))) None)
    as [_ Hcount].
  rewrite (Hcount (u "<html></html>") Samples.blank_soup); [|done..].
  vm_compute. reflexivity.
Defined.

(* ================================================================== *)
(** * The download of one audiobook *)
(* ================================================================== *)

(** X21. [YtDlpDownloader.download_audiobook] never takes its own
    [skip_existing] branch and never writes over a file: for a playlist
    URL that is not empty and directories that can be made, it runs
    yt-dlp on the first of the paths [get_safe_path] tries that no file
    has, whatever [skip_existing] is, and returns that path when yt-dlp
    succeeds and the file is there afterwards, [None] otherwise.  When
    [Path.exists] raises for that path (a name that is too long), the
    exception leaves [download_audiobook] and yt-dlp is not run. *)
Theorem download_audiobook_fresh_path (nfkd : pystr → pystr) (config : Config)
    (stat_error : Path → option exn)
    (mkdir : pystr → res unit) (stem suffix : pystr → pystr)
    (_download_with_ytdlp : gset Path → pystr → Path → bool * gset Path)
    (fuel : nat) (files : gset Path) (playlist_url title author : pystr)
    (output_directory : option pystr) :
  let output_dir :=
    if truthy output_directory then default [] output_directory
    else Main.output_directory config in
  let filename := _generate_filename nfkd title author in
  playlist_url ≠ [] →
  mkdir output_dir = Ok () →
  (size files + 2 ≤ fuel)%nat →
  ∃ k,
    let output_path := tried stem suffix output_dir filename k in
    let download := _download_with_ytdlp files playlist_url output_path in
    (∀ j, (j < k)%nat →
       tried stem suffix output_dir filename j ∈ files
       ∧ stat_error (tried stem suffix output_dir filename j) = None)
    ∧ ((stat_error output_path = None
        ∧ (output_path ∉ files)
        ∧ Downloader.download_audiobook nfkd config stat_error mkdir stem suffix
            _download_with_ytdlp fuel files playlist_url title author output_directory
          = Some (Ok (if download.1 && bool_decide (output_path ∈ download.2)
                      then Some output_path else None),
                  download.2))
       ∨ (∃ e, stat_error output_path = Some e
               ∧ Downloader.download_audiobook nfkd config stat_error mkdir stem
                   suffix _download_with_ytdlp fuel files playlist_url title author
                   output_directory
                 = Some (Raise e, files))).
Proof.
  intros output_dir filename Hurl Hmkdir Hfuel.
  destruct (get_safe_path_spec files stat_error mkdir stem suffix output_dir filename
              Hmkdir) as (k & Hbefore & Habsent & Hrun).
  exists k. cbv zeta. split; [done|].
  unfold Downloader.download_audiobook. fold output_dir filename.
  replace (truthy_str playlist_url) with true by (by destruct playlist_url).
  cbn [negb]. unfold ensure_directory_exists. rewrite Hmkdir.
  cbn [mbind res_bind Py.bind]. rewrite (Hrun fuel Hfuel).
  set (output_path := tried stem suffix output_dir filename k) in *.
  destruct (stat_error output_path) as [e|] eqn:Hstat.
  - right. by exists e.
  - left. split; [done|].
    assert (output_path ∉ files) as Hfree by (intros Hin; by apply Habsent).
    split; [done|].
    assert (Downloader.skip_test config stat_error files output_path = Ok false) as ->.
    { unfold Downloader.skip_test, exists_. rewrite Hstat, bool_decide_false by done.
      by destruct (skip_existing config). }
    unfold Downloader.download_and_check, exists_. rewrite Hstat.
    destruct (_download_with_ytdlp files playlist_url output_path) as [[] files'];
      cbn [fst snd andb]; [|done].
    by case_bool_decide.
Qed.

Lemma download_audiobook_fresh_path_witness :
  Downloader.download_audiobook nfkd_marks Samples.config Examples.name_too_long
    (λ _, Ok ()) Examples.stem Examples.suffix (λ files _ path, (true, {[path]} ∪ files))
    4 Examples.listing (u "https://x/master.m3u8") (u "a") [] None
  = Some (Ok (Some (u "downloads", u "Unknown_Author_-_a.mp3")),
          {[(u "downloads", u "Unknown_Author_-_a.mp3")]} ∪ Examples.listing).
Proof.
  destruct (download_audiobook_fresh_path nfkd_marks Samples.config
              Examples.name_too_long (λ _, Ok ())
              Examples.stem Examples.suffix (λ files _ path, (true, {[path]} ∪ files))
              4 Examples.listing (u "https://x/master.m3u8") (u "a") [] None)
    as (k & Hbefore & [(Hstat & Hfree & Hrun) | (e & Hstat & Hrun)]).
  - done.
  - reflexivity.
  - vm_compute. lia.
  - destruct k as [|k].
    + rewrite Hrun. cbn [fst snd andb]. rewrite bool_decide_true; [reflexivity|].
      apply elem_of_union_l, elem_of_singleton. done.
    + destruct (Hbefore 0%nat ltac:(lia)) as [Hin _]. exfalso. revert Hin.
      unfold Examples.listing. rewrite elem_of_union, !elem_of_singleton.
      intros [[=] | [=]].
  - destruct k as [|k].
    + vm_compute in Hstat. discriminate Hstat.
    + destruct (Hbefore 0%nat ltac:(lia)) as [Hin _]. exfalso. revert Hin.
      unfold Examples.listing. rewrite elem_of_union, !elem_of_singleton.
      intros [[=] | [=]].
Defined.

(* ================================================================== *)
(** * The configuration file *)
(* ================================================================== *)

Lemma with_fields_saved (self : Settings.Config) :
  match Settings.save_to_file self with
  | JDict members => Settings.with_fields Settings.defaults members = Ok self
  | _ => False
  end.
Proof. destruct self. vm_compute. reflexivity. Qed.

(** X22. Loading what [save_to_file] writes gives the configuration
    back: for a configuration that [__post_init__] accepts as it is,
    [from_file] on the saved dict returns that configuration, every one
    of the eight fields with its value. *)
Theorem config_round_trip (mkdir : pystr → Settings.Mkdir) (self : Settings.Config) :
  Settings.__post_init__ mkdir self = Ok self →
  Settings.from_file mkdir (Settings.Loaded (Ok (Settings.save_to_file self)))
  = Ok self.
Proof.
  intros Hvalid. pose proof (with_fields_saved self) as Hsaved.
  unfold Settings.from_file. cbn [mbind res_bind Py.bind].
  destruct (Settings.save_to_file self); try done.
  unfold Settings.init. rewrite Hsaved. exact Hvalid.
Qed.

Lemma config_round_trip_witness :
  Settings.from_file (λ _, Settings.Made)
    (Settings.Loaded (Ok (Settings.save_to_file Settings.defaults)))
  = Ok Settings.defaults.
Proof.
  apply (config_round_trip (λ _, Settings.Made) Settings.defaults). reflexivity.
Defined.

Lemma absent_name (key : pystr) (names : list pystr) :
  forallb (λ name, negb (pystr_eqb name key)) names = true → key ∉ names.
Proof.
  induction names as [|name names IH]; simpl; [intros _; apply not_elem_of_nil|].
  intros [Hname Hnames]%andb_true_iff. apply not_elem_of_cons. split; [|by apply IH].
  unfold pystr_eqb in Hname. intros ->. by rewrite bool_decide_true in Hname.
Qed.

Lemma with_field_unknown self key value :
  key ∉ Settings.field_names → Settings.with_field self key value = Raise TypeError.
Proof.
  intros Hkey. unfold Settings.field_names in Hkey.
  repeat (apply not_elem_of_cons in Hkey as [? Hkey]).
  unfold Settings.with_field, pystr_eqb.
  by rewrite !bool_decide_false by done.
Qed.

Lemma with_field_error self key value e :
  Settings.with_field self key value = Raise e → e = TypeError.
Proof.
  unfold Settings.with_field. repeat case_match; try done. by intros [= <-].
Qed.

Lemma with_fields_unknown self members key value :
  (key, value) ∈ members → key ∉ Settings.field_names →
  Settings.with_fields self members = Raise TypeError.
Proof.
  intros Hin Hkey. revert self.
  induction members as [|[k v] rest IH]; intros self; [by apply elem_of_nil in Hin|].
  cbn [Settings.with_fields].
  destruct (Settings.with_field self k v) as [self'|e] eqn:Hfield.
  - cbn [mbind res_bind Py.bind]. apply elem_of_cons in Hin as [[= <- <-]|Hin].
    + by rewrite with_field_unknown in Hfield.
    + by apply IH.
  - cbn [mbind res_bind Py.bind]. by rewrite (with_field_error _ _ _ _ Hfield).
Qed.

(** X23. A configuration file that holds a key that is no field of
    [Config] is not loaded: [from_file] raises [TypeError], whatever the
    other keys are and before any value is checked or any directory
    made. *)
Theorem config_unknown_key (mkdir : pystr → Settings.Mkdir)
    (members : list (pystr * json)) (key : pystr) (value : json) :
  (key, value) ∈ members → key ∉ Settings.field_names →
  Settings.from_file mkdir (Settings.Loaded (Ok (JDict members))) = Raise TypeError.
Proof.
  intros Hin Hkey. unfold Settings.from_file, Settings.init.
  cbn [mbind res_bind Py.bind].
  by rewrite (with_fields_unknown _ _ _ _ Hin Hkey).
Qed.

Lemma config_unknown_key_witness :
  Settings.from_file (λ _, Settings.Made)
    (Settings.Loaded (Ok (JDict [(u "retry_attempts", JInt 5); (u "retries", JInt 5)])))
  = Raise TypeError.
Proof.
  apply (config_unknown_key (λ _, Settings.Made) _ (u "retries") (JInt 5)).
  - apply elem_of_cons. right. by left.
  - by apply absent_name.
Defined.

(* ================================================================== *)
(** * The frames of a tag *)
(* ================================================================== *)

Section frame_facts.

Import MetadataManager.

Context `{Library}.
Variable year_search : pystr → option pystr.
Variable _process_image : list N → option (list N).

Lemma sublist_step {A} (l k k' : list A) (x : A) :
  sublist l [x] → sublist k k' → sublist (l ++ k) (x :: k').
Proof. intros Hl Hk. by apply (sublist_app l [x] k k'). Qed.

Lemma basic_tags_keys metadata basic :
  _add_basic_tags year_search metadata = Ok basic →
  sublist (HashKey <$> basic) ["TIT2"; "TPE1"; "TALB"; "TDRC"; "TCON"]
  ∧ (∃ album, TextFrame "TALB" album ∈ basic)
  ∧ (∃ genre, TextFrame "TCON" genre ∈ basic).
Proof.
  unfold _add_basic_tags. cbv zeta.
  destruct (if truthy (publication_date metadata) then _ else _) as [date_frame|] eqn:Hdate;
    cbn [mbind res_bind Py.bind]; [|done].
  intros [= <-].
  assert (sublist (HashKey <$> date_frame) ["TDRC"]) as Hsub.
  { destruct (truthy (publication_date metadata)); cycle 1.
    { injection Hdate as <-. apply sublist_nil_l. }
    destruct (_extract_year _ _) as [[year|]|]; cbn [mbind res_bind Py.bind] in Hdate;
      [| |done].
    - destruct (year =? 0); injection Hdate as <-; [apply sublist_nil_l | done].
    - injection Hdate as <-. apply sublist_nil_l. }
  split_and!.
  - rewrite !fmap_app.
    apply sublist_step.
    { destruct (truthy_str (title metadata)); [done | apply sublist_nil_l]. }
    apply sublist_step.
    { destruct (truthy_str (author metadata)); [done | apply sublist_nil_l]. }
    rewrite fmap_cons. apply sublist_skip. rewrite fmap_app.
    apply sublist_step; [done|].
    by destruct (truthy (genre metadata)).
  - eexists. apply elem_of_app. right. apply elem_of_app. right.
    apply elem_of_cons. by left.
  - destruct (truthy (genre metadata)); eexists;
      (apply elem_of_app; right; apply elem_of_app; right;
       apply elem_of_cons; right; apply elem_of_app; right;
       apply elem_of_cons; by left).
Qed.

Lemma custom_tags_keys metadata :
  sublist (HashKey <$> _add_custom_tags metadata)
    ["TXXX:PUBLISHER"; "TXXX:ISBN"; "TXXX:DURATION"; "TXXX:SOURCE_URL";
     "TXXX:LANGUAGE"; "COMM:Description:fra"].
Proof.
  unfold _add_custom_tags. rewrite !fmap_app.
  apply sublist_step.
  { destruct (truthy (publisher metadata)); [done | apply sublist_nil_l]. }
  apply sublist_step.
  { destruct (truthy (isbn metadata)); [done | apply sublist_nil_l]. }
  apply sublist_step.
  { destruct (truthy (duration metadata)); [done | apply sublist_nil_l]. }
  apply sublist_step.
  { destruct (truthy_str (url metadata)); [done | apply sublist_nil_l]. }
  apply sublist_step.
  { destruct (truthy_str (language metadata)); [done | apply sublist_nil_l]. }
  destruct (truthy (description metadata)); [done | apply sublist_nil_l].
Qed.

Lemma extended_tags_keys metadata :
  sublist (HashKey <$> _add_extended_tags metadata)
    ["TPE3"; "TPOS"; "TRCK"; "TXXX:PUBLISHER"; "TXXX:ISBN"; "TXXX:DURATION";
     "TXXX:SOURCE_URL"; "TXXX:LANGUAGE"; "COMM:Description:fra"].
Proof.
  unfold _add_extended_tags. rewrite !fmap_app.
  apply sublist_step.
  { destruct (truthy (narrator metadata)); [done | apply sublist_nil_l]. }
  apply sublist_step.
  { destruct (truthy (series metadata)); [done | apply sublist_nil_l]. }
  apply sublist_step; [done|].
  apply custom_tags_keys.
Qed.

Lemma artwork_keys image_data :
  sublist (HashKey <$> _add_artwork _process_image image_data) ["APIC:Cover"].
Proof.
  unfold _add_artwork.
  destruct (_process_image image_data) as [[|c data]|]; (done || apply sublist_nil_l).
Qed.

Lemma comment_short metadata lang desc text :
  COMM lang desc text ∈ _add_extended_tags metadata → len text ≤ 1000.
Proof.
  unfold _add_extended_tags, _add_custom_tags. rewrite !elem_of_app.
  intros Hin. decompose [or] Hin; clear Hin;
    try (by repeat case_match;
         repeat match goal with
                | Hx : _ ∈ [] |- _ => by apply elem_of_nil in Hx
                | Hx : _ ∈ [_] |- _ => apply list_elem_of_singleton in Hx
                end).
  match goal with Hx : _ ∈ (if _ then _ else _) |- _ => rename Hx into Hc end.
  destruct (truthy (description metadata)); [|by apply elem_of_nil in Hc].
  cbv zeta in Hc. apply list_elem_of_singleton in Hc. injection Hc as _ _ ->.
  destruct (len (default [] (description metadata)) >? 1000) eqn:Hlong; [|lia].
  apply len_slice_to. lia.
Qed.

End frame_facts.

Lemma truthy_nonempty (s : pystr) : s ≠ [] → truthy_str s = true.
Proof. by destruct s. Qed.

(** X24. Whatever the metadata, the frames [embed_metadata] adds never
    share a key, so that no frame replaces another; there is always an
    album frame, a genre frame and the track frame [1/1], and the text
    of the comment frame is at most 1000 characters long. *)
Theorem frames_keys `{Library} (year_search : pystr → option pystr)
    (_process_image : list N → option (list N)) (metadata : AudiobookMetadata)
    (fs : list MetadataManager.Frame) :
  MetadataManager.frames year_search _process_image metadata = Ok fs →
  NoDup (MetadataManager.HashKey <$> fs)
  ∧ (∃ album, MetadataManager.TextFrame "TALB" album ∈ fs)
  ∧ (∃ genre, MetadataManager.TextFrame "TCON" genre ∈ fs)
  ∧ MetadataManager.TextFrame "TRCK" (u "1/1") ∈ fs
  ∧ (∀ lang desc text, MetadataManager.COMM lang desc text ∈ fs → len text ≤ 1000).
Proof.
  unfold MetadataManager.frames.
  destruct (MetadataManager._add_basic_tags year_search metadata) as [basic|] eqn:Hbasic;
    cbn [mbind res_bind Py.bind]; [|done].
  cbv zeta. intros [= <-].
  destruct (basic_tags_keys year_search metadata basic Hbasic)
    as (Hkeys & [album Halbum] & [genre Hgenre]).
  pose proof (extended_tags_keys metadata) as Hextended.
  set (artwork := match thumbnail_data metadata with
                  | Some image_data =>
                      match image_data with
                      | [] => []
                      | _ => MetadataManager._add_artwork _process_image image_data
                      end
                  | None => []
                  end).
  assert (sublist (MetadataManager.HashKey <$> artwork) ["APIC:Cover"]) as Hartwork.
  { subst artwork. destruct (thumbnail_data metadata) as [[|c data]|];
      [apply sublist_nil_l | apply artwork_keys | apply sublist_nil_l]. }
  split_and!.
  - apply (sublist_NoDup _ frame_keys); [compute_done|].
    rewrite !fmap_app.
    apply (sublist_app _ ["TIT2"; "TPE1"; "TALB"; "TDRC"; "TCON"]); [done|].
    by apply (sublist_app _ ["TPE3"; "TPOS"; "TRCK"; "TXXX:PUBLISHER"; "TXXX:ISBN";
                             "TXXX:DURATION"; "TXXX:SOURCE_URL"; "TXXX:LANGUAGE";
                             "COMM:Description:fra"]).
  - exists album. apply elem_of_app. by left.
  - exists genre. apply elem_of_app. by left.
  - apply elem_of_app. right. apply elem_of_app. left.
    unfold MetadataManager._add_extended_tags.
    apply elem_of_app. right. apply elem_of_app. right. apply elem_of_cons. by left.
  - intros lang desc text. rewrite !elem_of_app. intros [Hin | [Hin | Hin]].
    + apply (list_elem_of_fmap_2 MetadataManager.HashKey) in Hin.
      apply (elem_of_sublist _ _ _ Hin) in Hkeys.
      rewrite !elem_of_cons, elem_of_nil in Hkeys. by decompose [or] Hkeys.
    + by eapply comment_short.
    + apply (list_elem_of_fmap_2 MetadataManager.HashKey) in Hin.
      apply (elem_of_sublist _ _ _ Hin) in Hartwork.
      rewrite !elem_of_cons, elem_of_nil in Hartwork. by decompose [or] Hartwork.
Qed.

Lemma frames_keys_witness :
  ∃ fs,
    MetadataManager.frames (H := Samples.blank_library) (λ _, None) (λ _, None)
      Samples.jane_doe = Ok fs
    ∧ NoDup (MetadataManager.HashKey <$> fs).
Proof.
  eexists. split; [reflexivity|].
  apply (frames_keys (H := Samples.blank_library) (λ _, None) (λ _, None)
           Samples.jane_doe).
  reflexivity.
Defined.

(** X25. The tag of a record that [_extract_metadata] returned always
    names the book: its frames hold the title as [TIT2] and as album,
    the author as [TPE1], the genre of the record as [TCON], never the
    stand-in [Audiobook] for a missing genre, the language [fr], and
    the URL of the page when that is not empty. *)
Theorem scraped_record_frames `{Library} (session_get : pystr → res ApiResponse)
    (_download_thumbnail : pystr → option (list N))
    (year_search : pystr → option pystr) (_process_image : list N → option (list N))
    (page_content page_url : pystr) (metadata : AudiobookMetadata)
    (fs : list MetadataManager.Frame) :
  _extract_metadata session_get _download_thumbnail page_content page_url
  = Ok (Some metadata) →
  MetadataManager.frames year_search _process_image metadata = Ok fs →
  MetadataManager.TextFrame "TIT2" (title metadata) ∈ fs
  ∧ MetadataManager.TextFrame "TPE1" (author metadata) ∈ fs
  ∧ MetadataManager.TextFrame "TALB" (title metadata) ∈ fs
  ∧ (∃ g, genre metadata = Some g ∧ MetadataManager.TextFrame "TCON" g ∈ fs)
  ∧ MetadataManager.TXXX "LANGUAGE" (u "fr") ∈ fs
  ∧ (page_url ≠ [] → MetadataManager.TXXX "SOURCE_URL" page_url ∈ fs).
Proof.
  intros Hrecord.
  destruct (extract_metadata_complete session_get _download_thumbnail page_content
              page_url metadata Hrecord) as (soup & _ & _ & _ & Htitle & Hauthor).
  destruct (extract_metadata_fields session_get _download_thumbnail page_content
              page_url metadata Hrecord) as (Hurl & Hlanguage & (g & Hg & Hgne) & _).
  unfold MetadataManager.frames, MetadataManager._add_basic_tags.
  cbv zeta.
  destruct (if truthy (publication_date metadata) then _ else _) as [date_frame|];
    cbn [mbind res_bind Py.bind]; [|done].
  intros [= <-].
  rewrite (truthy_nonempty _ Htitle), (truthy_nonempty _ Hauthor).
  rewrite Hg. cbn [truthy]. rewrite (truthy_nonempty _ Hgne).
  cbn [from_option id].
  assert (∀ frame, frame ∈ MetadataManager._add_custom_tags metadata →
            frame ∈ (([MetadataManager.TextFrame "TIT2" (title metadata)]
                      ++ [MetadataManager.TextFrame "TPE1" (author metadata)]
                      ++ [MetadataManager.TextFrame "TALB" (title metadata)]
                      ++ date_frame ++ [MetadataManager.TextFrame "TCON" g])
                     ++ MetadataManager._add_extended_tags metadata
                     ++ match thumbnail_data metadata with
                        | Some image_data =>
                            match image_data with
                            | [] => []
                            | _ => MetadataManager._add_artwork _process_image image_data
                            end
                        | None => []
                        end)) as Hcustom.
  { intros frame Hin. apply elem_of_app. right. apply elem_of_app. left.
    unfold MetadataManager._add_extended_tags.
    apply elem_of_app. right. apply elem_of_app. right. apply elem_of_cons. by right. }
  split_and!.
  - apply elem_of_app. left. apply elem_of_cons. by left.
  - apply elem_of_app. left. apply elem_of_cons. right. apply elem_of_cons. by left.
  - apply elem_of_app. left. do 2 (apply elem_of_cons; right).
    apply elem_of_cons. by left.
  - exists g. split; [done|]. apply elem_of_app. left.
    do 3 (apply elem_of_cons; right). apply elem_of_app. right.
    apply elem_of_cons. by left.
  - apply Hcustom. unfold MetadataManager._add_custom_tags. rewrite Hlanguage.
    do 4 (apply elem_of_app; right). apply elem_of_app. left.
    apply elem_of_cons. by left.
  - intros Hpage. apply Hcustom. unfold MetadataManager._add_custom_tags.
    rewrite Hurl. do 3 (apply elem_of_app; right). apply elem_of_app. left.
    rewrite (truthy_nonempty _ Hpage). apply elem_of_cons. by left.
Qed.

Lemma scraped_record_frames_witness :
  ∃ fs,
    MetadataManager.frames (H := HappyPath.library) (λ _, None) (λ _, None)
      Samples.jane_doe = Ok fs
    ∧ MetadataManager.TextFrame "TIT2" (u "Title X") ∈ fs
    ∧ MetadataManager.TextFrame "TPE1" (u "Jane Doe") ∈ fs.
Proof.
  eexists. split; [reflexivity|].
  destruct (scraped_record_frames (H := HappyPath.library) HappyPath.session_get
              (λ _, None) (λ _, None) (λ _, None)
              HappyPath.page_content HappyPath.page_url Samples.jane_doe _
              eq_refl eq_refl) as (Htitle & Hauthor & _).
  by split.
Defined.

(* ================================================================== *)
(** * The entries of the catalogue *)
(* ================================================================== *)

Section strategy_facts.

Import CategoryLinks.

Context `{Library}.

Lemma Ok_inj {A} (a b : A) : Ok a = Ok b → a = b.
Proof. by intros [= ->]. Qed.

Lemma first_title_long results text : first_title results = Some text → 2 < len text.
Proof.
  induction results as [|[found|] rest IH]; cbn [first_title]; [done| |done].
  destruct (found_truthy found); cbn [andb]; [|done].
  destruct (long_text (found_text found)) eqn:Hlong; [|done].
  intros [= <-]. unfold long_text in Hlong.
  apply andb_true_iff in Hlong as [_ Hlen]. lia.
Qed.

Lemma heading_title_long parent tags text :
  heading_title parent tags = Some text → 2 < len text.
Proof.
  induction tags as [|tag rest IH]; cbn [heading_title]; [done|].
  destruct (tag_find parent tag) as [heading|]; [|done].
  destruct (long_text (tag_text heading)) eqn:Hlong; [|done].
  intros [= <-]. unfold long_text in Hlong.
  apply andb_true_iff in Hlong as [_ Hlen]. lia.
Qed.

Lemma extract_title_long link text :
  _extract_title_from_link link = Some text → 2 < len text.
Proof.
  unfold _extract_title_from_link.
  destruct (first_title (title_methods link)) as [found|] eqn:Hfirst.
  - intros [= <-]. by eapply first_title_long.
  - destruct (tag_parent link) as [parent|]; [|done]. apply heading_title_long.
Qed.

Lemma author_or_unknown_named link : author_or_unknown link ≠ [].
Proof.
  unfold author_or_unknown. cbv zeta.
  destruct (_extract_author_from_link link) as [[|c author]|]; done.
Qed.

Lemma audiobook_link_href link :
  audiobook_link link = true →
  ∃ href, tag_get link (u "href") = Some href
          ∧ href ≠ [] ∧ contains href (u "livres-audio") = true.
Proof.
  unfold audiobook_link. destruct (tag_get link (u "href")) as [href|]; [|done].
  intros [Hne Hin]%andb_true_iff. exists href. split; [done|].
  split; [by destruct href | done].
Qed.

Lemma book_of_link_listed link base_url book :
  audiobook_link link = true →
  book_of_link link base_url = Ok (Some book) → listed base_url book.
Proof.
  intros (href & Hhref & Hne & Hin)%audiobook_link_href.
  unfold book_of_link. cbv zeta. rewrite Hhref. cbn [truthy from_option id].
  replace (truthy_str href) with true by (by destruct href). cbn [negb].
  destruct (urljoin base_url href) as [full_url|] eqn:Hjoin;
    cbn [mbind res_bind Py.bind]; [|done].
  destruct (_extract_thumbnail_from_link link base_url) as [thumbnail_url|];
    cbn [mbind res_bind Py.bind]; [|done].
  destruct (_extract_title_from_link link) as [text|] eqn:Htitle; [|done].
  cbn [truthy]. destruct (truthy_str text); [|done].
  intros [= <-]. split_and!.
  - by eapply extract_title_long.
  - apply author_or_unknown_named.
  - by exists href.
Qed.

Lemma books_of_links_listed links base_url audiobooks books :
  Forall (λ link, audiobook_link link = true) links →
  Forall (listed base_url) audiobooks →
  books_of_links links base_url audiobooks = Ok books →
  Forall (listed base_url) books.
Proof.
  intros Hlinks. revert audiobooks.
  induction Hlinks as [|link rest Hlink _ IH]; intros audiobooks Hall; cbn [books_of_links].
  - by intros [= <-].
  - destruct (book_of_link link base_url) as [book|] eqn:Hbook;
      cbn [mbind res_bind Py.bind]; [|done].
    apply IH. destruct book as [book|]; [|done].
    apply Forall_app. split; [done|]. apply Forall_singleton.
    by eapply book_of_link_listed.
Qed.

Lemma filter_audiobook_links links :
  Forall (λ link, audiobook_link link = true) (List.filter audiobook_link links).
Proof.
  apply Forall_forall. intros link Hin.
  apply list_elem_of_In, List.filter_In in Hin as [_ Hlink]. done.
Qed.

Lemma books_of_grid_items_listed items base_url audiobooks books :
  Forall (listed base_url) audiobooks →
  books_of_grid_items items base_url audiobooks = Ok books →
  Forall (listed base_url) books.
Proof.
  revert audiobooks. induction items as [|item rest IH]; intros audiobooks Hall;
    cbn [books_of_grid_items].
  - by intros [= <-].
  - destruct (books_of_links _ base_url audiobooks) as [more|] eqn:Hmore;
      cbn [mbind res_bind Py.bind]; [|done].
    apply IH. eapply books_of_links_listed; [apply filter_audiobook_links | | done].
    done.
Qed.

Lemma extract_book_info_listed element base_url book :
  _extract_book_info_from_element element base_url = Ok (Some book) →
  listed base_url book.
Proof.
  unfold _extract_book_info_from_element.
  destruct (head (List.filter audiobook_link (find_all_a element))) as [link|] eqn:Hhead;
    [|done].
  assert (audiobook_link link = true) as Hlink.
  { apply head_Some_elem_of in Hhead.
    apply list_elem_of_In, List.filter_In in Hhead as [_ Hlink]. done. }
  apply audiobook_link_href in Hlink as (href & Hhref & Hne & Hin).
  cbv zeta. rewrite Hhref. cbn [truthy from_option id].
  replace (truthy_str href) with true by (by destruct href). cbn [negb].
  destruct (urljoin base_url href) as [full_url|] eqn:Hjoin;
    cbn [mbind res_bind Py.bind]; [|done].
  destruct (_extract_thumbnail_from_link link base_url) as [thumbnail_url|];
    cbn [mbind res_bind Py.bind]; [|done].
  destruct (_extract_title_from_link link) as [text|] eqn:Htitle; [|done].
  cbn [truthy]. destruct (truthy_str text); [|done]. cbn [negb].
  intros [= <-]. split_and!.
  - by eapply extract_title_long.
  - apply author_or_unknown_named.
  - by exists href.
Qed.

Lemma books_of_items_listed items base_url audiobooks :
  Forall (listed base_url) audiobooks →
  Forall (listed base_url) (books_of_items items base_url audiobooks).1.
Proof.
  revert audiobooks. induction items as [|item rest IH]; intros audiobooks Hall;
    cbn [books_of_items]; [done|].
  destruct (_extract_book_info_from_element item base_url) as [book|] eqn:Hbook; [|done].
  apply IH. destruct book as [book|]; [|done].
  apply Forall_app. split; [done|]. apply Forall_singleton.
  by eapply extract_book_info_listed.
Qed.

Lemma books_by_selector_listed soup base_url selectors audiobooks :
  Forall (listed base_url) audiobooks →
  Forall (listed base_url) (books_by_selector soup base_url selectors audiobooks).
Proof.
  revert audiobooks. induction selectors as [|selector rest IH]; intros audiobooks Hall;
    cbn [books_by_selector]; [done|].
  destruct (page_select soup selector) as [[|item items]|]; [by apply IH | | by apply IH].
  pose proof (books_of_items_listed (item :: items) base_url audiobooks Hall) as Hitems.
  destruct (books_of_items (item :: items) base_url audiobooks) as [more [e|]];
    [by apply IH | done].
Qed.

Lemma books_of_strings_listed elements base_url audiobooks books :
  Forall (listed base_url) audiobooks →
  books_of_strings elements base_url audiobooks = Ok books →
  Forall (listed base_url) books.
Proof.
  revert audiobooks. induction elements as [|[text element_parent] rest IH];
    intros audiobooks Hall; cbn [books_of_strings].
  - by intros [= <-].
  - destruct (element_parent ≫= enclosing_block) as [parent|]; [|by apply IH].
    destruct (_extract_book_info_from_element (main_container parent) base_url)
      as [book|] eqn:Hbook; cbn [mbind res_bind Py.bind]; [|done].
    apply IH. destruct book as [book|]; [|done].
    apply Forall_app. split; [done|]. apply Forall_singleton.
    by eapply extract_book_info_listed.
Qed.

(** The books of each of the four strategies. *)
Lemma strategies_listed (soup : Page) (base_url : pystr) (books : list AudiobookInfo) :
  _parse_index_grid_items soup base_url = Ok books
  ∨ _parse_book_items soup base_url = Ok books
  ∨ _parse_livre_audio_sections soup base_url = Ok books
  ∨ _parse_generic_links soup base_url = Ok books →
  Forall (listed base_url) books.
Proof.
  intros [Hrun | [Hrun | [Hrun | Hrun]]].
  - by eapply books_of_grid_items_listed.
  - unfold _parse_book_items in Hrun. apply Ok_inj in Hrun. rewrite <- Hrun.
    by apply books_by_selector_listed.
  - by eapply books_of_strings_listed.
  - eapply books_of_links_listed; [apply filter_audiobook_links | | done]. done.
Qed.

End strategy_facts.

(** X26. Every entry of the catalogue that [_parse_category_page]
    builds with its four strategies has a title of more than two
    characters and an author that is not empty ([Unknown Author] when
    none is found), and its URL is what [urljoin] makes of the base URL
    and the [href], holding [livres-audio], of a link of the page. *)
Theorem catalogue_entries_listed `{Library} (dom : Soup → CategoryLinks.Page)
    (page_content base_url : pystr) (books : list AudiobookInfo) :
  _parse_category_page
    (λ soup, CategoryLinks._parse_index_grid_items (dom soup))
    (λ soup, CategoryLinks._parse_book_items (dom soup))
    (λ soup, CategoryLinks._parse_livre_audio_sections (dom soup))
    (λ soup, CategoryLinks._parse_generic_links (dom soup))
    page_content base_url = Ok books →
  Forall (listed base_url) books.
Proof.
  unfold _parse_category_page.
  destruct (BeautifulSoup page_content) as [soup|]; cbn [mbind res_bind Py.bind]; [|done].
  intros [= <-]. rewrite remove_duplicates_kept, run_strategies_concat.
  apply Forall_forall. intros book [Hin _]%kept_elem.
  apply list_elem_of_In, List.in_concat in Hin as (out & Hout & Hbook).
  apply list_elem_of_In in Hout, Hbook.
  apply list_elem_of_fmap in Hout as (method & -> & Hmethod).
  unfold contribution in Hbook.
  destruct (method soup base_url) as [found|] eqn:Hfound;
    [|by apply elem_of_nil in Hbook].
  assert (Forall (listed base_url) found) as Hall.
  { apply (strategies_listed (dom soup) base_url found).
    unfold parsing_methods in Hmethod.
    rewrite !elem_of_cons, elem_of_nil in Hmethod.
    destruct Hmethod as [-> | [-> | [-> | [-> | []]]]]; auto. }
  rewrite Forall_forall in Hall. by apply Hall.
Qed.

Lemma catalogue_entries_listed_witness :
  Forall (@listed Samples.blank_library (u "https://ici.radio-canada.ca"))
    [Examples.alice].
Proof.
  apply (@catalogue_entries_listed Samples.blank_library (λ _, Examples.catalogue)
           [] (u "https://ici.radio-canada.ca")).
  vm_compute. reflexivity.
Defined.

(* ================================================================== *)
(** * Downloading a file: [download_file] *)
(* ================================================================== *)

Section download_facts.

Import FileDownload.

Lemma concat_snoc (done_ : list (list N)) (chunk : list N) :
  concat (done_ ++ [chunk]) = concat done_ ++ chunk.
Proof. by rewrite concat_app; cbn [concat]; rewrite app_nil_r. Qed.

Lemma write_chunks_spec progress_callback broken total_size chunks :
  ∀ done_ calls,
    Forall (running_count (done_ ++ chunks)) calls →
    ∃ written calls' e,
      write_chunks progress_callback chunks broken total_size
        (Z.of_nat (length (concat done_))) (concat done_) calls
      = (written, calls', e)
      ∧ (∃ k, written = concat (take k (done_ ++ chunks)))
      ∧ (e = None → written = concat (done_ ++ chunks) ∧ broken = None)
      ∧ Forall (running_count (done_ ++ chunks)) calls'
      ∧ (progress_callback = None ∨ total_size ≤ 0 → calls' = calls).
Proof.
  induction chunks as [|chunk rest IH]; intros done_ calls Hcalls; cbn [write_chunks].
  - rewrite app_nil_r in *.
    exists (concat done_), calls, broken. split_and!; [done| |done|done|done].
    exists (length done_). by rewrite firstn_all.
  - assert (done_ ++ chunk :: rest = (done_ ++ [chunk]) ++ rest) as Hall
      by (by rewrite <- app_assoc).
    assert (Z.of_nat (length (concat done_)) + Z.of_nat (length chunk)
            = Z.of_nat (length (concat (done_ ++ [chunk])))) as Hcount
      by (rewrite concat_snoc, length_app; lia).
    rewrite Hcount, <- concat_snoc, Hall.
    rewrite Hall in Hcalls.
    destruct progress_callback as [callback|] eqn:Hcallback.
    + destruct (total_size >? 0) eqn:Hsize.
      * set (call := (_, Z.of_nat (length (concat (done_ ++ [chunk]))), total_size)).
        assert (running_count ((done_ ++ [chunk]) ++ rest) call) as Hcall.
        { exists (length (done_ ++ [chunk])). by rewrite take_app_length. }
        assert (Forall (running_count ((done_ ++ [chunk]) ++ rest)) (calls ++ [call]))
          as Hcalls' by (apply Forall_app; split; [done | by apply Forall_singleton]).
        destruct (callback call) as [[]|e].
        -- destruct (IH (done_ ++ [chunk]) (calls ++ [call]) Hcalls')
             as (written & calls' & e & -> & Hprefix & Hwhole & Hreported & Hsame).
           exists written, calls', e. split_and!; [done..|].
           intros [[=] | Hle]. apply Z.gtb_lt in Hsize. lia.
        -- exists (concat (done_ ++ [chunk])), (calls ++ [call]), (Some e).
           split_and!; [done| |done|done|].
           ++ exists (length (done_ ++ [chunk])). by rewrite take_app_length.
           ++ intros [[=] | Hle]. apply Z.gtb_lt in Hsize. lia.
      * destruct (IH (done_ ++ [chunk]) calls Hcalls)
          as (written & calls' & e & -> & Hprefix & Hwhole & Hreported & Hsame).
        exists written, calls', e. split_and!; [done..|].
        intros _. apply Hsame. right. rewrite Z.gtb_ltb in Hsize.
        by apply Z.ltb_ge in Hsize.
    + destruct (IH (done_ ++ [chunk]) calls Hcalls)
        as (written & calls' & e & -> & Hprefix & Hwhole & Hreported & Hsame).
      exists written, calls', e. split_and!; [done..|].
      intros _. apply Hsame. by left.
Qed.

End download_facts.

(** X27. [download_file] touches the file only after a 200 answer: with
    another status it returns [False] and neither opens the file nor
    calls the callback.  Whatever it returns, what it has written to
    the file is the first chunks of the body, whole; when it returns
    [True] the file holds the entire body and the stream ended without
    an exception.  Every call of the progress callback reports as
    downloaded the size of the first chunks of the body, and the
    callback is not called at all when [Content-Length] is missing or
    not positive. *)
Theorem download_file_writes_prefix (open_ : res unit)
    (progress_callback : option (FileDownload.Progress → res unit))
    (status : Z) (total_size : res Z) (chunks : list (list N)) (broken : option exn) :
  ∃ result file calls,
    FileDownload.download_file open_ progress_callback
      (FileDownload.Answered status total_size chunks broken) = (result, file, calls)
    ∧ (status ≠ 200 → result = false ∧ file = None ∧ calls = [])
    ∧ (∀ content, file = Some content → ∃ k, content = concat (take k chunks))
    ∧ (result = true → file = Some (concat chunks) ∧ broken = None)
    ∧ Forall (running_count chunks) calls
    ∧ ((∀ size, total_size = Ok size → size ≤ 0) → calls = []).
Proof.
  unfold FileDownload.download_file.
  destruct (status =? 200) eqn:Hstatus; cbn [negb].
  2: { exists false, None, []. split_and!; done. }
  apply Z.eqb_eq in Hstatus as ->.
  destruct total_size as [size|e].
  2: { exists false, None, []. split_and!; done. }
  destruct open_ as [[]|e].
  2: { exists false, None, []. split_and!; done. }
  destruct (write_chunks_spec progress_callback broken size chunks [] [])
    as (written & calls & e & Hrun & Hprefix & Hwhole & Hreported & Hsame); [done|].
  cbn [concat length app] in Hrun, Hprefix, Hwhole, Hreported.
  change (Z.of_nat 0) with 0 in Hrun. rewrite Hrun.
  destruct e as [e|].
  - exists false, (Some written), calls. split_and!; [done|done| |done|done|].
    + by intros content [= <-].
    + intros Hsize. apply Hsame. right. by apply Hsize.
  - destruct (Hwhole eq_refl) as [-> ->].
    exists true, (Some (concat chunks)), calls. split_and!; [done|done| |done|done|].
    + intros content [= <-]. exists (length chunks). by rewrite firstn_all.
    + intros Hsize. apply Hsame. right. by apply Hsize.
Qed.
